(** * Human Readable Dates: a shallow embedding of [src/main.ts]

    The plugin scans editor text for dates written as
    [Fri Aug 29 2025 19:28], parses every occurrence into a JavaScript
    [Date] and replaces it by a relative phrase.  This file embeds

    - the ECMAScript built-ins the plugin relies on (regular expression
      matching by backtracking, [Date] arithmetic, [Math.round],
      [Math.ceil], [parseInt], [Array.prototype.sort]),
    - the plugin's own functions [createDateRegex],
      [createBracketedDateRegex], [parseDateString],
      [formatDateAsHumanReadable] and [buildDecorations],

    and then proves the properties of the specification against them.

    Modelling conventions.
    - A JavaScript string is the list of its UTF-16 code units.  Phrases
      produced by the formatter are plain ASCII and are kept as [string].
    - A JavaScript number is an exact rational; every number that the
      plugin computes is an integer below 2^53 or one quotient of such
      an integer by a small constant, compared against integers.
    - A [Date] is its time value, milliseconds since the epoch, inside
      the range on which [TimeClip] is the identity.
    - The host's time zone is the function [LocalTZA] of ECMAScript,
      left abstract; the wall clock is a sequence of readings, one per
      evaluation of [new Date()]. *)

From Stdlib Require Import Ascii String DecimalString.
From Stdlib Require Import ZArith QArith Qround Qabs List Bool Lia.
From Stdlib Require Import Sorting.Sorted Sorting.Permutation.
Import ListNotations.

Local Open Scope Z_scope.

(* ================================================================= *)
(** * ECMAScript built-ins *)

Module JS.

(** ** Strings *)

Definition char := N.
Definition jsstring := list char.

(** A string literal of the source. *)
Definition lit (s : string) : jsstring :=
  map N_of_ascii (list_ascii_of_string s).

(** [\d] without the unicode flag: the ten ASCII digits. *)
Definition is_digit (c : char) : bool :=
  (48 <=? c)%N && (c <=? 57)%N.

(** [\s]: WhiteSpace and LineTerminator code points. *)
Definition is_space (c : char) : bool :=
  ((9 <=? c)%N && (c <=? 13)%N)         (* TAB LF VT FF CR *)
  || (c =? 32)%N || (c =? 160)%N        (* SP, NBSP *)
  || (c =? 5760)%N                      (* U+1680 *)
  || ((8192 <=? c)%N && (c <=? 8202)%N) (* U+2000 .. U+200A *)
  || (c =? 8232)%N || (c =? 8233)%N     (* LS, PS *)
  || (c =? 8239)%N || (c =? 8287)%N     (* U+202F, U+205F *)
  || (c =? 12288)%N || (c =? 65279)%N.  (* U+3000, U+FEFF *)

Fixpoint strip_prefix (w s : jsstring) : option jsstring :=
  match w with
  | [] => Some s
  | a :: w' =>
      match s with
      | b :: s' => if (a =? b)%N then strip_prefix w' s' else None
      | [] => None
      end
  end.

Fixpoint jsstring_eqb (a b : jsstring) : bool :=
  match a, b with
  | [], [] => true
  | x :: a', y :: b' => (x =? y)%N && jsstring_eqb a' b'
  | _, _ => false
  end.

(** [Array.prototype.indexOf] on an array of strings; [None] is [-1]. *)
Fixpoint indexOf (names : list jsstring) (x : jsstring) : option Z :=
  match names with
  | [] => None
  | n :: rest =>
      if jsstring_eqb n x then Some 0
      else option_map Z.succ (indexOf rest x)
  end.

(** ** Regular expressions

    The fragment of the pattern language that the plugin's patterns are
    written in, with the backtracking semantics of ECMAScript
    (matchers in continuation-passing style, greedy quantifiers,
    alternatives tried left to right). *)

Inductive regex : Type :=
| Lit (w : jsstring)                              (* literal characters *)
| Rep (p : char -> bool) (lo : nat) (hi : option nat)
                                    (* a class under a greedy quantifier *)
| Seq (r1 r2 : regex)
| Alt (r1 r2 : regex)                             (* r1|r2 *)
| Group (n : nat) (r : regex)                     (* n-th capturing group *)
| Opt (r : regex).                                (* (?:r)? *)

(** [names.join('|')] *)
Fixpoint alts (names : list jsstring) : regex :=
  match names with
  | [] => Lit []
  | [w] => Lit w
  | w :: rest => Alt (Lit w) (alts rest)
  end.

(** Embedding a pattern's source after [k] more opening parentheses. *)
Fixpoint shift_groups (k : nat) (r : regex) : regex :=
  match r with
  | Lit w => Lit w
  | Rep p lo hi => Rep p lo hi
  | Seq r1 r2 => Seq (shift_groups k r1) (shift_groups k r2)
  | Alt r1 r2 => Alt (shift_groups k r1) (shift_groups k r2)
  | Group n r' => Group (n + k) (shift_groups k r')
  | Opt r' => Opt (shift_groups k r')
  end.

(** Captures: group number to captured substring, [None] is [undefined]. *)
Definition captures := nat -> option jsstring.
Definition no_captures : captures := fun _ => None.
Definition set_capture (n : nat) (v : jsstring) (c : captures) : captures :=
  fun i => if Nat.eqb i n then Some v else c i.

(** A match state: the input still to be read, and the captures. *)
Definition MatchState := (jsstring * captures)%type.
Definition Continuation := jsstring -> captures -> option MatchState.

(** The part of [s] read when [s'] is what remains of it. *)
Definition consumed (s s' : jsstring) : jsstring :=
  firstn (length s - length s') s.

Definition hi_allows (hi : option nat) : bool :=
  match hi with Some O => false | _ => true end.
Definition hi_pred (hi : option nat) : option nat :=
  option_map Nat.pred hi.

(** Greedy quantifier over a character class: read one more character
    when allowed, and fall back to stopping here when the rest of the
    pattern fails after reading more. *)
Fixpoint rep_match (p : char -> bool) (lo : nat) (hi : option nat)
    (s : jsstring) (c : captures) (k : Continuation) {struct s}
  : option MatchState :=
  let stop := if Nat.eqb lo 0 then k s c else None in
  match s with
  | x :: s' =>
      if p x && hi_allows hi then
        match rep_match p (Nat.pred lo) (hi_pred hi) s' c k with
        | Some r => Some r
        | None => stop
        end
      else stop
  | [] => stop
  end.

Fixpoint matcher (r : regex) (s : jsstring) (c : captures)
    (k : Continuation) {struct r} : option MatchState :=
  match r with
  | Lit w =>
      match strip_prefix w s with
      | Some s' => k s' c
      | None => None
      end
  | Rep p lo hi => rep_match p lo hi s c k
  | Seq r1 r2 => matcher r1 s c (fun s1 c1 => matcher r2 s1 c1 k)
  | Alt r1 r2 =>
      match matcher r1 s c k with
      | Some x => Some x
      | None => matcher r2 s c k
      end
  | Group n r' =>
      matcher r' s c (fun s' c' => k s' (set_capture n (consumed s s') c'))
  | Opt r' =>
      match matcher r' s c k with
      | Some x => Some x
      | None => k s c
      end
  end.

(** The match of a pattern anchored at the head of [s]. *)
Definition match_here (r : regex) (s : jsstring) : option MatchState :=
  matcher r s no_captures (fun s' c' => Some (s', c')).

(** A match object: [index], [match[0]] and the captures. *)
Record Match := mkMatch {
  index : nat;
  matched : jsstring;
  groups : captures
}.

Definition endIndex (m : Match) : nat := (index m + length (matched m))%nat.

(** Try the start positions from [i] onwards, [s] being the input from
    position [i]. *)
Fixpoint search (r : regex) (s : jsstring) (i : nat) : option Match :=
  match match_here r s with
  | Some (s', c) => Some (mkMatch i (consumed s s') c)
  | None =>
      match s with
      | [] => None
      | _ :: rest => search r rest (S i)
      end
  end.

(** [String.prototype.match] with a pattern without the [g] flag. *)
Definition string_match (r : regex) (s : jsstring) : option Match :=
  search r s 0.

(** [RegExp.prototype.exec] of a pattern with the [g] flag, the
    [lastIndex] of the pattern object being passed in; the new
    [lastIndex] is [endIndex] of the result, or [0] on [null]. *)
Definition exec (r : regex) (text : jsstring) (lastIndex : nat)
  : option Match :=
  if (length text <? lastIndex)%nat then None
  else search r (skipn lastIndex text) lastIndex.

(** [while ((match = regex.exec(text)) !== null) ...] started with
    [lastIndex]: the matches in the order the loop sees them.  [fuel]
    bounds the number of iterations. *)
Fixpoint exec_loop (fuel : nat) (r : regex) (text : jsstring)
    (lastIndex : nat) : list Match :=
  match fuel with
  | O => []
  | S fuel' =>
      match exec r text lastIndex with
      | None => []
      | Some m => m :: exec_loop fuel' r text (endIndex m)
      end
  end.

Definition exec_all (r : regex) (text : jsstring) : list Match :=
  exec_loop (S (length text)) r text 0.

(** ** Numbers *)

(** [a < b] on numbers. *)
Definition Qltb (a b : Q) : bool := negb (Qle_bool b a).

(** [Math.round]: the integer nearest to [x], ties towards +infinity. *)
Definition Math_round (x : Q) : Z := Qfloor (x + (1 # 2)).

Definition Math_ceil (x : Q) : Z := Qceiling x.

(** [Number::toString] of an integer, as a template literal prints it. *)
Definition Number_toString (n : Z) : string :=
  DecimalString.NilZero.string_of_int (Z.to_int n).

(** The value of a run of decimal digits read after [acc]. *)
Fixpoint digits_value (acc : Z) (s : jsstring) : Z :=
  match s with
  | c :: s' =>
      if is_digit c then digits_value (10 * acc + (Z.of_N c - 48)) s'
      else acc
  | [] => acc
  end.

Fixpoint skip_spaces (s : jsstring) : jsstring :=
  match s with
  | c :: s' => if is_space c then skip_spaces s' else s
  | [] => []
  end.

(** [parseInt(s, 10)]: leading white space and a sign are skipped, the
    longest prefix of digits is read; [None] is [NaN]. *)
Definition parseInt (s : jsstring) : option Z :=
  let body (t : jsstring) : option Z :=
    match t with
    | c :: _ => if is_digit c then Some (digits_value 0 t) else None
    | [] => None
    end in
  match skip_spaces s with
  | 45%N :: t => option_map Z.opp (body t)     (* '-' *)
  | 43%N :: t => body t                        (* '+' *)
  | t => body t
  end.

(** ** Dates (ECMAScript, Date objects) *)

Definition msPerDay : Z := 86400000.
Definition msPerHour : Z := 3600000.
Definition msPerMinute : Z := 60000.

Definition Day (t : Z) : Z := t / msPerDay.
Definition TimeWithinDay (t : Z) : Z := t mod msPerDay.

Definition DaysInYear (y : Z) : Z :=
  if negb (y mod 4 =? 0) then 365
  else if negb (y mod 100 =? 0) then 366
  else if negb (y mod 400 =? 0) then 365
  else 366.

Definition DayFromYear (y : Z) : Z :=
  365 * (y - 1970) + (y - 1969) / 4 - (y - 1901) / 100 + (y - 1601) / 400.

Definition TimeFromYear (y : Z) : Z := msPerDay * DayFromYear y.

(** The largest [y] with [TimeFromYear y <= t]: the estimate from the
    mean length of a year is at most one year off. *)
Definition YearFromTime (t : Z) : Z :=
  let d := Day t in
  let y0 := 1970 + (d * 400) / 146097 in
  if DayFromYear (y0 + 1) <=? d then y0 + 1
  else if DayFromYear y0 <=? d then y0
  else y0 - 1.

Definition InLeapYear (t : Z) : Z :=
  if DaysInYear (YearFromTime t) =? 366 then 1 else 0.

Definition DayWithinYear (t : Z) : Z := Day t - DayFromYear (YearFromTime t).

(** The day within the year on which month [m] (0 is January) starts. *)
Definition monthStart (m leap : Z) : Z :=
  match m with
  | 0 => 0
  | 1 => 31
  | 2 => 59 + leap
  | 3 => 90 + leap
  | 4 => 120 + leap
  | 5 => 151 + leap
  | 6 => 181 + leap
  | 7 => 212 + leap
  | 8 => 243 + leap
  | 9 => 273 + leap
  | 10 => 304 + leap
  | _ => 334 + leap
  end.

Definition MonthFromTime (t : Z) : Z :=
  let d := DayWithinYear t in
  let leap := InLeapYear t in
  if d <? 31 then 0
  else if d <? 59 + leap then 1
  else if d <? 90 + leap then 2
  else if d <? 120 + leap then 3
  else if d <? 151 + leap then 4
  else if d <? 181 + leap then 5
  else if d <? 212 + leap then 6
  else if d <? 243 + leap then 7
  else if d <? 273 + leap then 8
  else if d <? 304 + leap then 9
  else if d <? 334 + leap then 10
  else 11.

Definition DateFromTime (t : Z) : Z :=
  DayWithinYear t - monthStart (MonthFromTime t) (InLeapYear t) + 1.

Definition HourFromTime (t : Z) : Z := (t / msPerHour) mod 24.
Definition MinFromTime (t : Z) : Z := (t / msPerMinute) mod 60.

Definition MakeTime (hour min sec ms : Z) : Z :=
  hour * msPerHour + min * msPerMinute + sec * 1000 + ms.

(** The day number of the first of the month, plus [date - 1]. *)
Definition MakeDay (year month date : Z) : Z :=
  let ym := year + month / 12 in
  let mn := month mod 12 in
  let leap := if DaysInYear ym =? 366 then 1 else 0 in
  DayFromYear ym + monthStart mn leap + date - 1.

Definition MakeDate (day time : Z) : Z := day * msPerDay + time.

(** A Date object: its time value, or the Invalid Date ([NaN]). *)
Inductive Date : Type :=
| TimeValue (t : Z)
| InvalidDate.

Section LocalZone.

(** The offset of the host's zone from UTC in milliseconds, at a UTC
    time ([true]) or at a local time ([false]). *)
Variable LocalTZA : Z -> bool -> Z.

Definition LocalTime (t : Z) : Z := t + LocalTZA t true.
Definition UTC (t : Z) : Z := t - LocalTZA t false.

(** [new Date(year, month, date, hours, minutes)]; a year from 0 to
    99 stands for 1900 + year. *)
Definition time_of_fields (year month date hours minutes : Z) : Z :=
  let yr := if (0 <=? year) && (year <=? 99) then 1900 + year else year in
  UTC (MakeDate (MakeDay yr month date) (MakeTime hours minutes 0 0)).

(** With a [NaN] among the arguments the date is invalid. *)
Definition new_Date (year month date hours minutes : option Z) : Date :=
  match year, month, date, hours, minutes with
  | Some y, Some m, Some dt, Some h, Some mi =>
      TimeValue (time_of_fields y m dt h mi)
  | _, _, _, _, _ => InvalidDate
  end.

Definition getFullYear (t : Z) : Z := YearFromTime (LocalTime t).
Definition getMonth (t : Z) : Z := MonthFromTime (LocalTime t).
Definition getDate (t : Z) : Z := DateFromTime (LocalTime t).
Definition getHours (t : Z) : Z := HourFromTime (LocalTime t).
Definition getMinutes (t : Z) : Z := MinFromTime (LocalTime t).

End LocalZone.

(** A zone whose offset from UTC never changes. *)
Definition fixed_zone (offset : Z) : Z -> bool -> Z := fun _ _ => offset.

End JS.

(* ================================================================= *)
(** * The plugin *)

Import JS.

Definition dayNames : list jsstring :=
  map lit ["Mon"; "Tue"; "Wed"; "Thu"; "Fri"; "Sat"; "Sun"]%string.

Definition monthNames : list jsstring :=
  map lit ["Jan"; "Feb"; "Mar"; "Apr"; "May"; "Jun";
           "Jul"; "Aug"; "Sep"; "Oct"; "Nov"; "Dec"]%string.

(** The pattern that [createDateRegex] and [parseDateString] both build:
    [(Mon|...)\s+(Jan|...)\s+(\d{1,2})\s+(\d{4})(?:\s+(\d{1,2}):(\d{2}))?] *)
Definition datePattern : regex :=
  let dayPattern := Group 1 (alts dayNames) in
  let monthPattern := Group 2 (alts monthNames) in
  let dayOfMonthPattern := Group 3 (Rep is_digit 1 (Some 2%nat)) in
  let yearPattern := Group 4 (Rep is_digit 4 (Some 4%nat)) in
  let spaces := Rep is_space 1 None in
  let timePattern :=
    Opt (Seq spaces
        (Seq (Group 5 (Rep is_digit 1 (Some 2%nat)))
        (Seq (Lit (lit ":"))
             (Group 6 (Rep is_digit 2 (Some 2%nat)))))) in
  Seq dayPattern (Seq spaces (Seq monthPattern (Seq spaces
    (Seq dayOfMonthPattern (Seq spaces (Seq yearPattern timePattern)))))).

(** The format string is accepted and ignored. *)
Definition createDateRegex (format : jsstring) : regex := datePattern.

(** [\[\[(<date pattern>)\]\]] *)
Definition createBracketedDateRegex (format : jsstring) : regex :=
  Seq (Lit (lit "[["))
 (Seq (Group 1 (shift_groups 1 (createDateRegex format)))
      (Lit (lit "]]"))).

(** An entry of the [decorations] array: the overlay widget placed at
    [from], or the mark that hides [from .. to]. *)
Inductive Decoration : Type :=
| widget (originalText : jsstring) (humanReadable : string)
         (isLink : bool) (pos : nat)
| mark (from to : nat).

Definition range_from (d : Decoration) : nat :=
  match d with widget _ _ _ pos => pos | mark from _ => from end.
Definition range_to (d : Decoration) : nat :=
  match d with widget _ _ _ pos => pos | mark _ to => to end.

(** [decorations.sort((a, b) => a.from - b.from)]: a stable sort. *)
Fixpoint insert_by_from (d : Decoration) (l : list Decoration)
  : list Decoration :=
  match l with
  | [] => [d]
  | e :: l' =>
      if (range_from d <=? range_from e)%nat then d :: l
      else e :: insert_by_from d l'
  end.

Definition sort_by_from (l : list Decoration) : list Decoration :=
  fold_right insert_by_from [] l.

(** The test of the plain loop: does [from .. to] meet a recorded range? *)
Definition overlaps (ranges : list (nat * nat)) (from to : nat) : bool :=
  existsb (fun range =>
       ((fst range <=? from) && (from <? snd range))
    || ((fst range <? to) && (to <=? snd range))
    || ((from <=? fst range) && (snd range <=? to)))%nat ranges.

(** Computations that read the wall clock: the state is the number of
    readings taken so far. *)
Definition M (A : Type) : Type := nat -> A * nat.
Definition ret {A} (a : A) : M A := fun n => (a, n).
Definition bind {A B} (m : M A) (f : A -> M B) : M B :=
  fun n => let (a, n') := m n in f a n'.

Notation "x <- m ;; f" := (bind m (fun x => f))
  (at level 61, m at next level, right associativity).

Section Plugin.

Local Open Scope string_scope.
Local Open Scope Z_scope.

Variable LocalTZA : Z -> bool -> Z.
(** [clock i] is what the [i]-th evaluation of [new Date()] returns. *)
Variable clock : nat -> Z.
(** [settings.dateFormat] *)
Variable dateFormat : jsstring.

Definition new_Date_now : M Z := fun n => (clock n, S n).

(** [dateString.match(regex)] searches the whole string; a group that
    took no part in the match is [undefined], which [indexOf] does not
    find, [parseInt] reads as [NaN] and the test [hourStr ? ... : 0]
    takes for false, as it does the empty string. *)
Definition parseDateString (dateString format : jsstring) : option Date :=
  match string_match datePattern dateString with
  | None => None
  | Some m =>
      let monthName := groups m 2%nat in
      let dayStr := groups m 3%nat in
      let yearStr := groups m 4%nat in
      let hourStr := groups m 5%nat in
      let minuteStr := groups m 6%nat in
      match match monthName with
            | Some name => indexOf monthNames name
            | None => None
            end with
      | None => None
      | Some monthIndex =>
          let number (str : option jsstring) : option Z :=
            match str with Some s => parseInt s | None => None end in
          let number_or_0 (str : option jsstring) : option Z :=
            match str with
            | Some (c :: s) => parseInt (c :: s)
            | _ => Some 0
            end in
          let day := number dayStr in
          let year := number yearStr in
          let hour := number_or_0 hourStr in
          let minute := number_or_0 minuteStr in
          Some (new_Date LocalTZA year (Some monthIndex) day hour minute)
      end
  end.

(** The locals of [formatDateAsHumanReadable], as functions of the
    time values of [parsedDate] and [now]. *)
Definition diffMs (parsed now : Z) : Q := inject_Z (parsed - now).

Definition diffHours (parsed now : Z) : Q :=
  (diffMs parsed now / inject_Z (1000 * 60 * 60))%Q.

(** [new Date(d.getFullYear(), d.getMonth(), d.getDate())] *)
Definition midnight (d : Z) : Z :=
  time_of_fields LocalTZA (getFullYear LocalTZA d) (getMonth LocalTZA d)
    (getDate LocalTZA d) 0 0.

Definition diffDays (parsed now : Z) : Z :=
  Math_round (inject_Z (midnight parsed - midnight now)
              / inject_Z (1000 * 60 * 60 * 24))%Q.

Definition hasTimeComponent (parsed : Z) : bool :=
  negb (getHours LocalTZA parsed =? 0)
  || negb (getMinutes LocalTZA parsed =? 0).

(** [formatDateAsHumanReadable] from the line after [new Date()] on:
    the phrase for [parsedDate] seen at the time value [now]. *)
Definition relativePhrase (parsedDate : Date) (now : Z) : string :=
  match parsedDate with
  | InvalidDate =>
      (* every comparison with NaN is false: the last branch *)
      "NaN years ago"
  | TimeValue parsed =>
      let diffMs := diffMs parsed now in
      let diffHours := diffHours parsed now in
      let diffDays := diffDays parsed now in
      let absDiffDays := Z.abs diffDays in
      let absDiffHours := Qabs diffHours in
      let hasTimeComponent := hasTimeComponent parsed in
      if hasTimeComponent && Qltb absDiffHours 24 then
        let diffMinutes := (diffMs / inject_Z (1000 * 60))%Q in
        let absDiffMinutes := Qabs diffMinutes in
        if Qltb absDiffMinutes 5 then "Now"
        else if Qltb absDiffMinutes 60 then
          let minutesDiff := Math_round absDiffMinutes in
          if Qltb diffMinutes 0 then
            if minutesDiff =? 1 then "1 min ago"
            else Number_toString minutesDiff ++ " mins ago"
          else
            if minutesDiff =? 1 then "In 1 min"
            else "In " ++ Number_toString minutesDiff ++ " mins"
        else
          let hoursDiff := Math_round absDiffHours in
          if Qltb diffHours 0 then
            if hoursDiff =? 1 then "1 hour ago"
            else Number_toString hoursDiff ++ " hours ago"
          else
            if hoursDiff =? 1 then "In 1 hour"
            else "In " ++ Number_toString hoursDiff ++ " hours"
      else if diffDays =? 0 then "Today"
      else if diffDays =? 1 then "Tomorrow"
      else if diffDays =? -1 then "Yesterday"
      else if (1 <? diffDays) && (diffDays <=? 7) then
        "In " ++ Number_toString diffDays ++ " days"
      else if (diffDays <? -1) && (-7 <=? diffDays) then
        Number_toString absDiffDays ++ " days ago"
      else if (7 <? diffDays) && (diffDays <=? 14) then "Next week"
      else if (diffDays <? -7) && (-14 <=? diffDays) then "Last week"
      else if (14 <? diffDays) && (diffDays <=? 30) then
        let weeks := Math_ceil (inject_Z diffDays / 7) in
        "In " ++ Number_toString weeks ++ " weeks"
      else if (diffDays <? -14) && (-30 <=? diffDays) then
        let weeks := Math_ceil (inject_Z absDiffDays / 7) in
        Number_toString weeks ++ " weeks ago"
      else if (30 <? diffDays) && (diffDays <=? 365) then
        let months := Math_ceil (inject_Z diffDays / 30) in
        if months =? 1 then "Next month"
        else "In " ++ Number_toString months ++ " months"
      else if (diffDays <? -30) && (-365 <=? diffDays) then
        let months := Math_ceil (inject_Z absDiffDays / 30) in
        if months =? 1 then "Last month"
        else Number_toString months ++ " months ago"
      else if 365 <? diffDays then
        let years := Math_ceil (inject_Z diffDays / 365) in
        if years =? 1 then "Next year"
        else "In " ++ Number_toString years ++ " years"
      else
        let years := Math_ceil (inject_Z absDiffDays / 365) in
        if years =? 1 then "Last year"
        else Number_toString years ++ " years ago"
  end.

Definition formatDateAsHumanReadable (dateString : jsstring)
  : M (option string) :=
  match parseDateString dateString dateFormat with
  | None => ret None
  | Some parsedDate =>
      now <- new_Date_now ;;
      ret (Some (relativePhrase parsedDate now))
  end.

(** A [while ((match = regex.exec(text)) !== null) { ... }] loop run
    over the matches [ms]: what its iterations push, in order. *)
Fixpoint for_each_match (ms : list Match)
    (body : Match -> M (list Decoration)) : M (list Decoration) :=
  match ms with
  | [] => ret []
  | m :: rest =>
      pushed <- body m ;;
      more <- for_each_match rest body ;;
      ret (pushed ++ more)%list
  end.

(** The two decorations of an occurrence, unless the cursor is within
    [from .. to]; nothing for a [null] or empty phrase. *)
Definition overlay (humanReadable : option string)
    (originalText : jsstring) (isLink : bool)
    (from to selection_from : nat) : list Decoration :=
  match humanReadable with
  | None | Some EmptyString => []
  | Some phrase =>
      let cursorInRange :=
        ((from <=? selection_from) && (selection_from <=? to))%nat in
      if negb cursorInRange
      then [widget originalText phrase isLink from; mark from to]
      else []
  end.

Definition buildDecorations (text : jsstring) (selection_from : nat)
  : M (list Decoration) :=
  let dateRegex := createDateRegex dateFormat in
  let bracketedDateRegex := createBracketedDateRegex dateFormat in
  (* Process bracketed dates first *)
  bracketed <-
    for_each_match (exec_all bracketedDateRegex text) (fun m =>
      let fullMatch := matched m in
      match groups m 1%nat with
      | None => ret []  (* group 1 takes part in every match *)
      | Some dateString =>
          humanReadable <- formatDateAsHumanReadable dateString ;;
          let from := index m in
          let to := (index m + length fullMatch)%nat in
          ret (overlay humanReadable fullMatch true from to selection_from)
      end) ;;
  (* Track bracketed date ranges to avoid overlaps *)
  let processedRanges :=
    map (fun m => (index m, (index m + length (matched m))%nat))
        (exec_all bracketedDateRegex text) in
  (* Process regular dates *)
  regular <-
    for_each_match (exec_all dateRegex text) (fun m =>
      let dateString := matched m in
      let from := index m in
      let to := (index m + length dateString)%nat in
      if negb (overlaps processedRanges from to) then
        humanReadable <- formatDateAsHumanReadable dateString ;;
        ret (overlay humanReadable dateString false from to selection_from)
      else ret []) ;;
  ret (sort_by_from (bracketed ++ regular)%list).

End Plugin.


(* ================================================================= *)
(** * Inputs of the worked examples *)

(** A host on UTC. *)
Definition utc : Z -> bool -> Z := fixed_zone 0.

(** Fri Aug 29 2025 14:50, local time, in a zone [offset] ms ahead of UTC. *)
Definition fri_aug_29_2025_14_50 (offset : Z) : Z :=
  time_of_fields (fixed_zone offset) 2025 7 29 14 50.

(** A clock that stands still at [now]. *)
Definition still (now : Z) : nat -> Z := fun _ => now.

(** A clock that advances by 2 ms from one reading to the next, the
    first reading being 1 ms before Fri Aug 29 2025 14:50 UTC. *)
Definition ticking (i : nat) : Z :=
  fri_aug_29_2025_14_50 0 - 1 + 2 * Z.of_nat i.

(** A text with the same date twice. *)
Definition twice : jsstring :=
  lit "Fri Aug 29 2025 14:55 Fri Aug 29 2025 14:55".

(* ================================================================= *)
(** * Notions the specification is stated with *)

(** ** The language of a pattern

    [sem r u c c'] : the pattern [r] reads exactly [u] and turns the
    captures [c] into [c'].  [lang] forgets the captures. *)
Fixpoint sem (r : regex) (u : jsstring) (c c' : captures) : Prop :=
  match r with
  | Lit w => u = w /\ c' = c
  | Rep p lo hi =>
      forallb p u = true /\ (lo <= length u)%nat
      /\ match hi with Some h => (length u <= h)%nat | None => True end
      /\ c' = c
  | Seq r1 r2 =>
      exists u1 u2 c1, u = u1 ++ u2 /\ sem r1 u1 c c1 /\ sem r2 u2 c1 c'
  | Alt r1 r2 => sem r1 u c c' \/ sem r2 u c c'
  | Group n r' => exists c1, sem r' u c c1 /\ c' = set_capture n u c1
  | Opt r' => (u = [] /\ c' = c) \/ sem r' u c c'
  end.

Fixpoint lang (r : regex) (u : jsstring) : Prop :=
  match r with
  | Lit w => u = w
  | Rep p lo hi =>
      forallb p u = true /\ (lo <= length u)%nat
      /\ match hi with Some h => (length u <= h)%nat | None => True end
  | Seq r1 r2 => exists u1 u2, u = u1 ++ u2 /\ lang r1 u1 /\ lang r2 u2
  | Alt r1 r2 => lang r1 u \/ lang r2 u
  | Group _ r' => lang r' u
  | Opt r' => u = [] \/ lang r' u
  end.

(** ** The grammar of a date, in the words of the specification *)

Definition spaces (u : jsstring) : Prop :=
  forallb is_space u = true /\ (1 <= length u)%nat.

Definition digits (lo hi : nat) (u : jsstring) : Prop :=
  forallb is_digit u = true /\ (lo <= length u <= hi)%nat.

(** weekday name, month name, 1-2 digit day, 4 digit year, separated by
    white space; then optionally white space, 1-2 digit hour, a colon
    and a 2 digit minute. *)
Definition date_shape (u : jsstring) : Prop :=
  exists wd ws1 mn ws2 dd ws3 yyyy time,
    u = wd ++ ws1 ++ mn ++ ws2 ++ dd ++ ws3 ++ yyyy ++ time
    /\ In wd dayNames /\ spaces ws1
    /\ In mn monthNames /\ spaces ws2
    /\ digits 1 2 dd /\ spaces ws3
    /\ digits 4 4 yyyy
    /\ (time = []
        \/ exists ws4 hh mm,
             time = ws4 ++ hh ++ lit ":" ++ mm
             /\ spaces ws4 /\ digits 1 2 hh /\ digits 2 2 mm).

(** The input holds a date somewhere. *)
Definition conforms (s : jsstring) : Prop :=
  exists before u after, s = before ++ u ++ after /\ date_shape u.

(** ** Rounding and truncation *)

(** Rounding to the nearest integer, halves away from zero. *)
Definition round_half_away_from_zero (x : Q) : Z :=
  if Qle_bool 0 x then Qfloor (x + (1 # 2)) else Qceiling (x - (1 # 2)).

(** The time value of the local midnight that starts the local day of
    [t]. *)
Definition truncate_to_midnight (LocalTZA : Z -> bool -> Z) (t : Z) : Z :=
  let local := LocalTime LocalTZA t in
  UTC LocalTZA (local - TimeWithinDay local).

(** ** Phrases *)

Fixpoint prefixb (p s : list ascii) : bool :=
  match p, s with
  | [], _ => true
  | a :: p', b :: s' => Ascii.eqb a b && prefixb p' s'
  | _ :: _, [] => false
  end.

Definition ends_with (suffix s : string) : bool :=
  prefixb (rev (list_ascii_of_string suffix)) (rev (list_ascii_of_string s)).

Definition minute_hour_suffixes : list string :=
  [" min ago"; " mins ago"; " hour ago"; " hours ago";
   " min"; " mins"; " hour"; " hours"]%string.

(** A phrase of the minute/hour tier: ["Now"], or a count of minutes
    or hours, past or to come. *)
Definition is_minute_hour_phrase (s : string) : bool :=
  String.eqb s "Now"
  || existsb (fun suffix => ends_with suffix s) minute_hour_suffixes.

Definition starts_with (prefix s : string) : bool :=
  prefixb (list_ascii_of_string prefix) (list_ascii_of_string s).

(** A phrase that points to the future, and one that points to the
    past; "Now" and "Today" are neither. *)
Definition is_future_phrase (s : string) : bool :=
  starts_with "In " s
  || existsb (String.eqb s)
       ["Tomorrow"; "Next week"; "Next month"; "Next year"]%string.

Definition is_past_phrase (s : string) : bool :=
  ends_with " ago" s
  || existsb (String.eqb s)
       ["Yesterday"; "Last week"; "Last month"; "Last year"]%string.

(** ** Ranges *)

(** Two decorations cover no common stretch of text. *)
Definition apart (a b : Decoration) : Prop :=
  (range_to a <= range_from b)%nat \/ (range_to b <= range_from a)%nat.

(** The spans [from .. to] and [from' .. to'] share a position. *)
Definition intersects (from to from' to' : nat) : Prop :=
  (from < to' /\ from' < to)%nat.

(** ** The occurrences of a scan and the readings of the clock *)

(** The occurrences that a scan formats, in the order in which it does:
    the bracketed ones, then the plain ones that meet no bracketed
    one; each with its kind and the date string handed to the
    formatter. *)
Definition formatted_occurrences (format text : jsstring)
  : list (bool * jsstring * Match) :=
  let bracketed := exec_all (createBracketedDateRegex format) text in
  let ranges := map (fun m => (index m, endIndex m)) bracketed in
  map (fun m => (true, match groups m 1%nat with Some d => d | None => [] end, m))
      bracketed
  ++ map (fun m => (false, matched m, m))
       (filter (fun m => negb (overlaps ranges (index m) (endIndex m)))
               (exec_all (createDateRegex format) text)).

(** The decorations of one occurrence formatted at the time [now]. *)
Definition occurrence_overlay (LocalTZA : Z -> bool -> Z)
    (format : jsstring) (selection_from : nat)
    (occurrence : bool * jsstring * Match) (now : Z) : list Decoration :=
  let '(isLink, dateString, m) := occurrence in
  overlay (option_map (fun d => relativePhrase LocalTZA d now)
                      (parseDateString LocalTZA dateString format))
          (matched m) isLink (index m) (endIndex m) selection_from.

(** The occurrences formatted one after the other, the first of them
    at the reading number [n] of the clock, each at the next reading. *)
Fixpoint overlays_from (LocalTZA : Z -> bool -> Z) (clock : nat -> Z)
    (format : jsstring) (selection_from : nat)
    (occurrences : list (bool * jsstring * Match)) (n : nat)
  : list Decoration :=
  match occurrences with
  | [] => []
  | o :: rest =>
      occurrence_overlay LocalTZA format selection_from o (clock n)
      ++ overlays_from LocalTZA clock format selection_from rest (S n)
  end.

(** ** Notions of the proofs *)

Definition hi_ok (hi : option nat) (n : nat) : Prop :=
  match hi with Some h => (n <= h)%nat | None => True end.

(** A continuation whose failure does not depend on the captures: the
    patterns of the plugin have no back-references. *)
Definition insensitive (k : Continuation) : Prop :=
  forall v c c', k v c = None -> k v c' = None.

(** The decimal notation of an integer starts with a digit or a sign. *)
Definition numeric_head (s : string) : Prop :=
  match s with
  | String c _ =>
      In c ["0"; "1"; "2"; "3"; "4"; "5"; "6"; "7"; "8"; "9"; "-"]%char
  | EmptyString => False
  end.

(** The date that a host on UTC builds, as built [off] ahead of UTC. *)
Definition shift_date (off : Z) (d : Date) : Date :=
  match d with
  | TimeValue t => TimeValue (t - off)
  | InvalidDate => InvalidDate
  end.

(** [s] is [b] after something. *)
Definition ends_in (b s : string) : Prop :=
  exists before, list_ascii_of_string s = before ++ list_ascii_of_string b.

(** An ending that no phrase of the minute/hour tier has. *)
Definition foreign_ending (b : string) : bool :=
  (3 <? String.length b)%nat
  && forallb (fun suffix => negb (ends_with suffix b || ends_with b suffix))
       minute_hour_suffixes.

(** Two occurrences whose spans share nothing. *)
Definition spans_apart (o1 o2 : bool * jsstring * Match) : Prop :=
  (endIndex (snd o1) <= index (snd o2))%nat
  \/ (endIndex (snd o2) <= index (snd o1))%nat.

(** The length of month [m] (0 is January) in a common ([leap] = 0) or
    leap ([leap] = 1) year. *)
Definition daysInMonth (m leap : Z) : Z :=
  match m with
  | 1 => 28 + leap
  | 3 | 5 | 8 | 10 => 30
  | _ => 31
  end.

(** The year that the [Date] constructor builds from a year argument:
    1900 is added to a year from 0 to 99. *)
Definition full_year (year : Z) : Z :=
  if (0 <=? year) && (year <=? 99) then 1900 + year else year.

(** The fields of a date of the calendar: a month of the year, a day
    of that month in the year that the constructor builds, an hour and
    a minute of the day. *)
Definition calendar_fields (year month date hours minutes : Z) : Prop :=
  0 <= month <= 11
  /\ 1 <= date
       <= daysInMonth month
            (if DaysInYear (full_year year) =? 366 then 1 else 0)
  /\ 0 <= hours < 24
  /\ 0 <= minutes < 60.

(** [monthNames.indexOf(name)] as a number. *)
Definition monthIndexOf (name : jsstring) : Z :=
  match indexOf monthNames name with Some i => i | None => -1 end.

(** Captures that agree on every group but the [n]-th, and results of
    the matcher that agree up to that group. *)
Definition agree_off (n : nat) (c c' : captures) : Prop :=
  forall i, i <> n -> c i = c' i.

Definition results_agree (n : nat) (r r' : option MatchState) : Prop :=
  match r, r' with
  | None, None => True
  | Some (s, c), Some (s', c') => s = s' /\ agree_off n c c'
  | _, _ => False
  end.

Fixpoint no_group (n : nat) (r : regex) : Prop :=
  match r with
  | Lit _ | Rep _ _ _ => True
  | Seq r1 r2 | Alt r1 r2 => no_group n r1 /\ no_group n r2
  | Group k r' => k <> n /\ no_group n r'
  | Opt r' => no_group n r'
  end.

(** An overlay: the text that it replaces, its phrase, its kind and
    the position of the text; its two decorations. *)
Definition Overlay : Type := jsstring * string * bool * nat.

Definition overlay_from (o : Overlay) : nat := snd o.
Definition overlay_to (o : Overlay) : nat :=
  (snd o + length (fst (fst (fst o))))%nat.

Definition overlay_pair (o : Overlay) : list Decoration :=
  [widget (fst (fst (fst o))) (snd (fst (fst o))) (snd (fst o)) (snd o);
   mark (overlay_from o) (overlay_to o)].

Definition overlays_keep_apart (a b : Overlay) : Prop :=
  (overlay_to a <= overlay_from b)%nat \/ (overlay_to b <= overlay_from a)%nat.

Fixpoint insert_overlay (o : Overlay) (l : list Overlay) : list Overlay :=
  match l with
  | [] => [o]
  | e :: l' =>
      if (overlay_from o <=? overlay_from e)%nat then o :: l
      else e :: insert_overlay o l'
  end.

Definition sort_overlays (l : list Overlay) : list Overlay :=
  fold_right insert_overlay [] l.

(** The overlay of an occurrence formatted at [now], if it gets one,
    and the overlays of the occurrences of a scan. *)
Definition shown_overlay (LocalTZA : Z -> bool -> Z)
    (format : jsstring) (selection_from : nat)
    (occurrence : bool * jsstring * Match) (now : Z) : list Overlay :=
  let '(isLink, dateString, m) := occurrence in
  match option_map (fun d => relativePhrase LocalTZA d now)
                   (parseDateString LocalTZA dateString format) with
  | None | Some EmptyString => []
  | Some phrase =>
      if negb ((index m <=? selection_from)
               && (selection_from <=? endIndex m))%nat
      then [(matched m, phrase, isLink, index m)]
      else []
  end.

Fixpoint shown_from (LocalTZA : Z -> bool -> Z) (clock : nat -> Z)
    (format : jsstring) (selection_from : nat)
    (occurrences : list (bool * jsstring * Match)) (n : nat)
  : list Overlay :=
  match occurrences with
  | [] => []
  | o :: rest =>
      shown_overlay LocalTZA format selection_from o (clock n)
      ++ shown_from LocalTZA clock format selection_from rest (S n)
  end.

(** The small letters: what the names of days and months are made
    of after their first letter. *)
Definition is_lower (c : char) : bool := (97 <=? c)%N && (c <=? 122)%N.

(** What follows a date without starting a time: white space or
    nothing, then the end of the input or a character that is neither
    white space nor, unless it comes right after the year, a digit. *)
Definition plain_tail (rest : jsstring) : Prop :=
  exists ws r',
    rest = ws ++ r' /\ forallb is_space ws = true
    /\ match r' with
       | [] => True
       | y :: _ => is_space y = false /\ (is_digit y = true -> ws = [])
       end.

(** The date pattern after its weekday group. *)
Definition date_after_weekday : regex :=
  match datePattern with
  | Seq _ rest => rest
  | r => r
  end.

(* ================================================================= *)
(** * The matcher against the language of its pattern *)

Module RegexFacts.

Lemma strip_prefix_app w s : strip_prefix w (w ++ s) = Some s.
Proof.
  induction w as [|a w IH]; simpl; [reflexivity|].
  now rewrite N.eqb_refl.
Qed.

Lemma strip_prefix_Some w : forall s s',
  strip_prefix w s = Some s' -> s = w ++ s'.
Proof.
  induction w as [|a w IH]; simpl; intros s s' H.
  - now inversion H.
  - destruct s as [|b s]; [discriminate|].
    destruct (N.eqb_spec a b) as [->|]; [|discriminate].
    now rewrite (IH _ _ H).
Qed.

Lemma consumed_app (u v : jsstring) : consumed (u ++ v) v = u.
Proof.
  unfold consumed. rewrite length_app.
  replace (length u + length v - length v)%nat with (length u + 0)%nat by lia.
  rewrite firstn_app_2. simpl. apply app_nil_r.
Qed.

Lemma rep_match_some p : forall s lo hi c k res,
  rep_match p lo hi s c k = Some res ->
  exists u v, s = u ++ v /\ forallb p u = true /\ (lo <= length u)%nat
              /\ hi_ok hi (length u) /\ k v c = Some res.
Proof.
  assert (Hstop : forall (s : jsstring) lo (hi : option nat) (c : captures)
                          (k : Continuation) res,
    (if Nat.eqb lo 0 then k s c else None) = Some res ->
    exists u v, s = u ++ v /\ forallb p u = true /\ (lo <= length u)%nat
                /\ hi_ok hi (length u) /\ k v c = Some res).
  { intros s lo hi c k res H.
    destruct (Nat.eqb_spec lo 0) as [->|]; [|discriminate].
    exists [], s. simpl. repeat split; auto.
    destruct hi; simpl; auto; lia. }
  induction s as [|x s IH]; intros lo hi c k res H; simpl in H.
  - eauto.
  - destruct (p x && hi_allows hi) eqn:E; [|eauto].
    destruct (rep_match p (Nat.pred lo) (hi_pred hi) s c k) as [r|] eqn:R;
      [|eauto].
    inversion H; subst r; clear H.
    apply andb_prop in E as [Px Ha].
    destruct (IH _ _ _ _ _ R) as (u & v & -> & Pu & Hlo & Hhi & Hk).
    exists (x :: u), v. simpl. rewrite Px, Pu.
    repeat split; auto; [lia|].
    destruct hi as [[|h]|]; simpl in *; try discriminate; auto; lia.
Qed.

Lemma rep_match_none p : forall s lo hi c k,
  rep_match p lo hi s c k = None ->
  forall u v, s = u ++ v -> forallb p u = true -> (lo <= length u)%nat ->
              hi_ok hi (length u) -> k v c = None.
Proof.
  induction s as [|x s IH]; intros lo hi c k H u v E Pu Hlo Hhi.
  - destruct u; [|discriminate]. simpl in E; subst v.
    simpl in *. now replace lo with 0%nat in H by lia.
  - destruct u as [|y u].
    + simpl in E; subst v. simpl in Hlo.
      replace lo with 0%nat in H by lia. simpl in H.
      destruct (p x && hi_allows hi); [|assumption].
      now destruct (rep_match p 0 (hi_pred hi) s c k).
    + simpl in E. inversion E; subst y s; clear E.
      simpl in Pu. apply andb_prop in Pu as [Px Pu].
      simpl in H. rewrite Px in H.
      assert (Ha : hi_allows hi = true).
      { destruct hi as [[|h]|]; simpl in *; auto; lia. }
      rewrite Ha in H. simpl in H.
      destruct (rep_match p (Nat.pred lo) (hi_pred hi) (u ++ v) c k) eqn:R;
        [discriminate|].
      apply (IH _ _ _ _ R u v); auto; simpl in *; [lia|].
      destruct hi as [[|h]|]; simpl in *; auto; lia.
Qed.

Lemma rep_match_insensitive p k : insensitive k ->
  forall s lo hi c c',
  rep_match p lo hi s c k = None -> rep_match p lo hi s c' k = None.
Proof.
  intros Hk. induction s as [|x s IH]; intros lo hi c c' H; simpl in *.
  - destruct (Nat.eqb lo 0); eauto.
  - destruct (p x && hi_allows hi).
    + destruct (rep_match p (Nat.pred lo) (hi_pred hi) s c k) eqn:R;
        [discriminate|].
      rewrite (IH _ _ _ c' R). destruct (Nat.eqb lo 0); eauto.
    + destruct (Nat.eqb lo 0); eauto.
Qed.

Lemma matcher_insensitive r : forall k, insensitive k ->
  forall s c c', matcher r s c k = None -> matcher r s c' k = None.
Proof.
  induction r as [w|p lo hi|r1 IH1 r2 IH2|r1 IH1 r2 IH2|n r IH|r IH];
    intros k Hk s c c' H; simpl in *.
  - destruct (strip_prefix w s); eauto.
  - eapply rep_match_insensitive; eauto.
  - eapply IH1; [|exact H]. intros v d d'. now apply IH2.
  - destruct (matcher r1 s c k) eqn:E1; [discriminate|].
    rewrite (IH1 k Hk s c c' E1). eauto.
  - eapply IH; [|exact H]. intros v d d' Hd. eapply Hk; exact Hd.
  - destruct (matcher r s c k) eqn:E; [discriminate|].
    rewrite (IH k Hk s c c' E). eauto.
Qed.

(** Soundness: a result comes from reading a word of the pattern and
    continuing after it with the captures that reading it sets. *)
Lemma matcher_some r : forall s c k res,
  matcher r s c k = Some res ->
  exists u v c', s = u ++ v /\ sem r u c c' /\ k v c' = Some res.
Proof.
  induction r as [w|p lo hi|r1 IH1 r2 IH2|r1 IH1 r2 IH2|n r IH|r IH];
    intros s c k res H; simpl in H.
  - destruct (strip_prefix w s) as [s'|] eqn:E; [|discriminate].
    exists w, s', c. split; [now apply strip_prefix_Some|]. simpl. auto.
  - destruct (rep_match_some _ _ _ _ _ _ _ H)
      as (u & v & -> & Pu & Hlo & Hhi & Hk).
    exists u, v, c. simpl. repeat split; auto.
  - destruct (IH1 _ _ _ _ H) as (u1 & v1 & c1 & -> & S1 & H1).
    destruct (IH2 _ _ _ _ H1) as (u2 & v & c2 & -> & S2 & H2).
    exists (u1 ++ u2), v, c2. rewrite <- app_assoc.
    split; [reflexivity|]. split; [|assumption].
    simpl. exists u1, u2, c1. auto.
  - destruct (matcher r1 s c k) eqn:E1.
    + inversion H; subst. destruct (IH1 _ _ _ _ E1) as (u & v & c' & ? & ? & ?).
      exists u, v, c'. simpl. auto.
    + destruct (IH2 _ _ _ _ H) as (u & v & c' & ? & ? & ?).
      exists u, v, c'. simpl. auto.
  - destruct (IH _ _ _ _ H) as (u & v & c1 & -> & S1 & H1).
    rewrite consumed_app in H1.
    exists u, v, (set_capture n u c1). simpl. eauto.
  - destruct (matcher r s c k) eqn:E.
    + inversion H; subst. destruct (IH _ _ _ _ E) as (u & v & c' & ? & ? & ?).
      exists u, v, c'. simpl. auto.
    + exists [], s, c. simpl. auto.
Qed.

(** Completeness: when the matcher fails, the continuation fails after
    every word of the pattern that the input starts with. *)
Lemma matcher_none r : forall k, insensitive k ->
  forall s c, matcher r s c k = None ->
  forall u v, s = u ++ v -> lang r u -> forall c', k v c' = None.
Proof.
  induction r as [w|p lo hi|r1 IH1 r2 IH2|r1 IH1 r2 IH2|n r IH|r IH];
    intros k Hk s c H u v E L c'; simpl in H, L.
  - subst u s. rewrite strip_prefix_app in H. apply (Hk v c c' H).
  - destruct L as (Pu & Hlo & Hhi).
    apply (Hk v c c'). now apply (rep_match_none p s lo hi c k H u v).
  - destruct L as (u1 & u2 & -> & L1 & L2). rewrite <- app_assoc in E.
    assert (Hk1 : insensitive (fun s1 c1 => matcher r2 s1 c1 k)).
    { intros x d d'. now apply matcher_insensitive. }
    pose proof (IH1 _ Hk1 _ _ H _ _ E L1 c) as H1. simpl in H1.
    apply (IH2 k Hk (u2 ++ v) c H1 u2 v eq_refl L2 c').
  - destruct (matcher r1 s c k) eqn:E1; [discriminate|].
    destruct L as [L|L].
    + apply (IH1 k Hk s c E1 u v E L c').
    + apply (IH2 k Hk s c H u v E L c').
  - assert (Hk1 : insensitive
      (fun s' c' => k s' (set_capture n (consumed s s') c'))).
    { intros x d d' Hd. eapply Hk; exact Hd. }
    pose proof (IH _ Hk1 _ _ H _ _ E L c) as H1. simpl in H1.
    eapply Hk; exact H1.
  - destruct (matcher r s c k) eqn:E1; [discriminate|].
    destruct L as [->|L].
    + simpl in E. subst v. apply (Hk s c c' H).
    + apply (IH k Hk s c E1 u v E L c').
Qed.

Lemma sem_lang r : forall u c c', sem r u c c' -> lang r u.
Proof.
  induction r as [w|p lo hi|r1 IH1 r2 IH2|r1 IH1 r2 IH2|n r IH|r IH];
    simpl; intros u c c' H.
  - tauto.
  - tauto.
  - destruct H as (u1 & u2 & c1 & E & H1 & H2).
    exists u1, u2. split; [exact E|]. split; [eapply IH1|eapply IH2]; eassumption.
  - destruct H as [H|H]; [left; eapply IH1|right; eapply IH2]; eassumption.
  - destruct H as (c1 & H & _). eapply IH; eassumption.
  - destruct H as [[E _]|H]; [left; exact E|right; eapply IH; eassumption].
Qed.

Lemma match_here_some r s s' c :
  match_here r s = Some (s', c) ->
  exists u, s = u ++ s' /\ sem r u no_captures c.
Proof.
  unfold match_here. intros H.
  destruct (matcher_some _ _ _ _ _ H) as (u & v & c' & -> & S & K).
  inversion K; subst. now exists u.
Qed.

Lemma match_here_none r s :
  match_here r s = None -> forall u v, s = u ++ v -> ~ lang r u.
Proof.
  unfold match_here. intros H u v E L.
  assert (Hk : insensitive (fun s' c' => Some (s', c')))
    by (intros x d d' F; discriminate F).
  pose proof (matcher_none r _ Hk _ _ H u v E L no_captures) as F.
  discriminate F.
Qed.

(** What [search] returns is the leftmost occurrence of a word of the
    pattern. *)
Lemma search_some r : forall s i m,
  search r s i = Some m ->
  exists before after,
    s = before ++ matched m ++ after
    /\ index m = (i + length before)%nat
    /\ sem r (matched m) no_captures (groups m)
    /\ match_here r (matched m ++ after) = Some (after, groups m)
    /\ forall k, (k < length before)%nat -> match_here r (skipn k s) = None.
Proof.
  induction s as [|x s IH]; intros i m H; simpl in H.
  - destruct (match_here r []) as [[s' c]|] eqn:E; [|discriminate].
    inversion H; subst m; clear H.
    destruct (match_here_some _ _ _ _ E) as (u & Eu & S).
    exists [], s'. cbn [matched index groups app length].
    assert (C : consumed [] s' = u) by (rewrite Eu; apply consumed_app).
    rewrite C. split; [exact Eu|]. split; [lia|]. split; [exact S|].
    split; [rewrite <- Eu; exact E|]. intros k Hk; simpl in Hk; lia.
  - destruct (match_here r (x :: s)) as [[s' c]|] eqn:E.
    + inversion H; subst m; clear H.
      destruct (match_here_some _ _ _ _ E) as (u & Eu & S).
      exists [], s'. cbn [matched index groups app length].
      assert (C : consumed (x :: s) s' = u) by (rewrite Eu; apply consumed_app).
      rewrite C. split; [exact Eu|]. split; [lia|]. split; [exact S|].
      split; [rewrite <- Eu; exact E|]. intros k Hk; simpl in Hk; lia.
    + destruct (IH _ _ H) as (before & after & Es & Ei & S & Hm & Hl).
      exists (x :: before), after. simpl. rewrite <- Es.
      repeat split; auto; try lia.
      intros [|k] Hk; simpl; [exact E|]. apply Hl. lia.
Qed.

Lemma search_none r : forall s i,
  search r s i = None ->
  forall before u after, s = before ++ u ++ after -> ~ lang r u.
Proof.
  induction s as [|x s IH]; intros i H before u after E; simpl in H.
  - destruct (match_here r []) as [[s' c]|] eqn:M; [discriminate|].
    destruct before; [|discriminate]. simpl in E.
    eapply match_here_none; eauto.
  - destruct (match_here r (x :: s)) as [[s' c]|] eqn:M; [discriminate|].
    destruct before as [|y before].
    + simpl in E. eapply match_here_none; eauto.
    + simpl in E. inversion E; subst. eapply IH; eauto.
Qed.

Lemma search_here r s i s' c :
  match_here r s = Some (s', c) ->
  search r s i = Some (mkMatch i (consumed s s') c).
Proof. intros H. destruct s; simpl; now rewrite H. Qed.

Lemma exec_from_0 r text : exec r text 0 = search r text 0.
Proof. unfold exec. now destruct text. Qed.

(** [names.join('|')] reads exactly the names. *)
Lemma sem_alts names : names <> [] ->
  forall u c c', sem (alts names) u c c' <-> In u names /\ c' = c.
Proof.
  induction names as [|w names IH]; [congruence|]. intros _ u c c'.
  destruct names as [|w' names].
  - simpl. intuition congruence.
  - change (alts (w :: w' :: names)) with (Alt (Lit w) (alts (w' :: names))).
    cbn [sem]. rewrite IH by discriminate. simpl. intuition congruence.
Qed.

Lemma lang_alts names : names <> [] ->
  forall u, lang (alts names) u <-> In u names.
Proof.
  induction names as [|w names IH]; [congruence|]. intros _ u.
  destruct names as [|w' names].
  - simpl. intuition congruence.
  - change (alts (w :: w' :: names)) with (Alt (Lit w) (alts (w' :: names))).
    cbn [lang]. rewrite IH by discriminate. simpl. intuition congruence.
Qed.

End RegexFacts.

(* ================================================================= *)
(** * The date pattern *)

Module PatternFacts.
Import RegexFacts.

Lemma digit_not_space c : is_digit c = true -> is_space c = false.
Proof.
  unfold is_digit, is_space. intros H.
  apply andb_prop in H as [H1 H2].
  apply N.leb_le in H1. apply N.leb_le in H2.
  replace (c <=? 13)%N with false by (symmetry; apply N.leb_gt; lia).
  replace (8192 <=? c)%N with false by (symmetry; apply N.leb_gt; lia).
  repeat match goal with
  | |- context [(c =? ?k)%N] =>
      replace (c =? k)%N with false by (symmetry; apply N.eqb_neq; lia)
  end.
  now rewrite andb_false_r.
Qed.

Lemma dayNames_nonempty : dayNames <> [].
Proof. discriminate. Qed.

Lemma monthNames_nonempty : monthNames <> [].
Proof. discriminate. Qed.

(** The words of the date pattern are the dates of the grammar. *)
Lemma lang_datePattern u : lang datePattern u <-> date_shape u.
Proof.
  unfold datePattern, date_shape, spaces, digits. cbn [lang].
  split.
  - intros (wd & r1 & -> & Hwd & ws1 & r2 & -> & (S1 & L1 & _)
            & mn & r3 & -> & Hmn & ws2 & r4 & -> & (S2 & L2 & _)
            & dd & r5 & -> & (D1 & Ld1 & Ld1')
            & ws3 & r6 & -> & (S3 & L3 & _)
            & yyyy & time & -> & (D2 & Ld2 & Ld2') & T).
    apply lang_alts in Hwd; [|apply dayNames_nonempty].
    apply lang_alts in Hmn; [|apply monthNames_nonempty].
    exists wd, ws1, mn, ws2, dd, ws3, yyyy, time.
    repeat (split; [solve [auto]|]).
    destruct T as [->|(ws4 & r7 & -> & (S4 & L4 & _) & hh & r8 & ->
                       & (D3 & Ld3 & Ld3') & co & mm & -> & -> & (D4 & Ld4 & Ld4'))].
    + now left.
    + right. exists ws4, hh, mm. auto 10.
  - intros (wd & ws1 & mn & ws2 & dd & ws3 & yyyy & time & -> & Hwd
            & (S1 & L1) & Hmn & (S2 & L2) & (D1 & Ld1) & (S3 & L3)
            & (D2 & Ld2) & T).
    exists wd, (ws1 ++ mn ++ ws2 ++ dd ++ ws3 ++ yyyy ++ time).
    split; [reflexivity|].
    split; [apply lang_alts; [apply dayNames_nonempty|assumption]|].
    exists ws1, (mn ++ ws2 ++ dd ++ ws3 ++ yyyy ++ time).
    split; [reflexivity|]. split; [auto|].
    exists mn, (ws2 ++ dd ++ ws3 ++ yyyy ++ time).
    split; [reflexivity|].
    split; [apply lang_alts; [apply monthNames_nonempty|assumption]|].
    exists ws2, (dd ++ ws3 ++ yyyy ++ time).
    split; [reflexivity|]. split; [auto|].
    exists dd, (ws3 ++ yyyy ++ time).
    split; [reflexivity|]. split; [repeat split; auto; lia|].
    exists ws3, (yyyy ++ time).
    split; [reflexivity|]. split; [auto|].
    exists yyyy, time.
    split; [reflexivity|]. split; [repeat split; auto; lia|].
    destruct T as [->|(ws4 & hh & mm & -> & (S4 & L4) & (D3 & Ld3) & (D4 & Ld4))].
    + now left.
    + right. exists ws4, (hh ++ lit ":" ++ mm).
      split; [reflexivity|]. split; [auto|].
      exists hh, (lit ":" ++ mm).
      split; [reflexivity|]. split; [repeat split; auto; lia|].
      exists (lit ":"), mm. repeat split; auto; lia.
Qed.

(** A match of the date pattern, with what its groups capture. *)
Lemma sem_datePattern u c :
  sem datePattern u no_captures c ->
  exists wd ws1 mn ws2 dd ws3 yyyy time,
    u = wd ++ ws1 ++ mn ++ ws2 ++ dd ++ ws3 ++ yyyy ++ time
    /\ In wd dayNames /\ spaces ws1
    /\ In mn monthNames /\ spaces ws2
    /\ digits 1 2 dd /\ spaces ws3
    /\ digits 4 4 yyyy
    /\ c 2%nat = Some mn /\ c 3%nat = Some dd /\ c 4%nat = Some yyyy
    /\ ((time = [] /\ c 5%nat = None /\ c 6%nat = None)
        \/ exists ws4 hh mm,
             time = ws4 ++ hh ++ lit ":" ++ mm
             /\ spaces ws4 /\ digits 1 2 hh /\ digits 2 2 mm
             /\ c 5%nat = Some hh /\ c 6%nat = Some mm).
Proof.
  unfold datePattern, spaces, digits. cbn [sem].
  intros (wd & r1 & c1 & -> & (c1' & Hwd & ->)
          & ws1 & r2 & c2 & -> & (S1 & L1 & _ & ->)
          & mn & r3 & c3 & -> & (c3' & Hmn & ->)
          & ws2 & r4 & c4 & -> & (S2 & L2 & _ & ->)
          & dd & r5 & c5 & -> & (c5' & (D1 & Ld1 & Ld1' & ->) & ->)
          & ws3 & r6 & c6 & -> & (S3 & L3 & _ & ->)
          & yyyy & time & c7 & -> & (c7' & (D2 & Ld2 & Ld2' & ->) & ->) & T).
  apply sem_alts in Hwd; [|apply dayNames_nonempty].
  apply sem_alts in Hmn; [|apply monthNames_nonempty].
  destruct Hwd as [Hwd ->]. destruct Hmn as [Hmn ->].
  exists wd, ws1, mn, ws2, dd, ws3, yyyy, time.
  repeat (split; [solve [auto]|]).
  destruct T as [[-> ->]|(ws4 & r7 & c8 & -> & (S4 & L4 & _ & ->)
     & hh & r8 & c9 & -> & (c9' & (D3 & Ld3 & Ld3' & ->) & ->)
     & co & mm & c10 & -> & (-> & ->) & (c10' & (D4 & Ld4 & Ld4' & ->) & ->))].
  - repeat (split; [reflexivity|]). left. repeat split; reflexivity.
  - repeat (split; [reflexivity|]). right. exists ws4, hh, mm.
    repeat split; auto.
Qed.

(** ** Running the matcher on a text that is known

    A name among alternatives of one length, a run of a class that
    ends where the class ends, a run of exactly the length asked for. *)

Lemma rep_match_span p k : 
  (forall y s c, p y = true -> k (y :: s) c = None) ->
  forall b x lo hi c,
  forallb p b = true ->
  match x with y :: _ => p y = false | [] => True end ->
  (lo <= length b)%nat -> hi_ok hi (length b) ->
  rep_match p lo hi (b ++ x) c k = k x c.
Proof.
  intros Hk. induction b as [|a b IH]; intros x lo hi c Pb Hx Hlo Hhi.
  - simpl in Hlo. replace lo with 0%nat by lia. simpl.
    destruct x as [|y x]; [reflexivity|]. simpl. now rewrite Hx.
  - simpl in Pb. apply andb_prop in Pb as [Pa Pb].
    cbn [app rep_match]. rewrite Pa.
    assert (Ha : hi_allows hi = true).
    { destruct hi as [[|h]|]; simpl in *; auto; lia. }
    rewrite Ha. cbn [andb].
    rewrite IH; auto; [|simpl in *; lia
                       |destruct hi as [[|h]|]; simpl in *; auto; lia].
    destruct (k x c) eqn:E; [reflexivity|].
    destruct (Nat.eqb lo 0); [|reflexivity]. now apply Hk.
Qed.

Lemma rep_match_exact p k : forall b x c,
  forallb p b = true ->
  rep_match p (length b) (Some (length b)) (b ++ x) c k = k x c.
Proof.
  induction b as [|a b IH]; intros x c Pb.
  - simpl. destruct x as [|y x]; [reflexivity|].
    simpl. now rewrite andb_false_r.
  - simpl in Pb. apply andb_prop in Pb as [Pa Pb].
    cbn [app rep_match length]. rewrite Pa. cbn [hi_allows andb Nat.eqb].
    cbn [hi_pred option_map Nat.pred]. rewrite IH by assumption.
    now destruct (k x c).
Qed.

(** A run longer than the quantifier allows, before a pattern that
    cannot start inside the run. *)
Lemma rep_match_overfull p k :
  (forall y s c, p y = true -> k (y :: s) c = None) ->
  forall b x lo h c,
  forallb p b = true -> (h < length b)%nat ->
  rep_match p lo (Some h) (b ++ x) c k = None.
Proof.
  intros Hk. induction b as [|a b IH]; intros x lo h c Pb Hl.
  - simpl in Hl. lia.
  - simpl in Pb. apply andb_prop in Pb as [Pa Pb].
    cbn [app rep_match]. rewrite Pa.
    destruct h as [|h]; cbn [hi_allows andb hi_pred option_map Nat.pred].
    + destruct (Nat.eqb lo 0); [|reflexivity]. now apply Hk.
    + rewrite IH by (auto; simpl in Hl; lia).
      destruct (Nat.eqb lo 0); [|reflexivity]. now apply Hk.
Qed.

Lemma space_not_digit c : is_space c = true -> is_digit c = false.
Proof.
  intros H. destruct (is_digit c) eqn:D; [|reflexivity].
  apply digit_not_space in D. congruence.
Qed.

Local Arguments N.eqb : simpl never.

Lemma alts_dayNames wd s c k :
  In wd dayNames -> matcher (alts dayNames) (wd ++ s) c k = k s c.
Proof.
  intros H. cbn in H.
  repeat (destruct H as [<-|H]; [vm_compute; now destruct (k s c)|]).
  contradiction.
Qed.

Lemma alts_monthNames mn s c k :
  In mn monthNames -> matcher (alts monthNames) (mn ++ s) c k = k s c.
Proof.
  intros H. cbn in H.
  repeat (destruct H as [<-|H]; [vm_compute; now destruct (k s c)|]).
  contradiction.
Qed.

(** No month name starts with white space. *)
Lemma alts_monthNames_reject y s c k :
  is_space y = true -> matcher (alts monthNames) (y :: s) c k = None.
Proof.
  intros H. cbn.
  repeat match goal with
  | |- context [(?l =? y)%N] =>
      destruct (N.eqb_spec l y) as [<-|_]; [vm_compute in H; discriminate H|]
  end.
  reflexivity.
Qed.

Lemma monthNames_head mn rest :
  In mn monthNames ->
  match mn ++ rest with y :: _ => is_space y = false | [] => True end.
Proof.
  intros H. cbn in H.
  repeat (destruct H as [<-|H]; [reflexivity|]). contradiction.
Qed.

Lemma digits_head (u rest : jsstring) :
  forallb is_digit u = true -> (1 <= length u)%nat ->
  match u ++ rest with y :: _ => is_space y = false | [] => True end.
Proof.
  destruct u as [|y u]; simpl; [lia|]. intros H _.
  apply andb_prop in H as [H _]. now apply digit_not_space.
Qed.

Lemma spaces_head (u rest : jsstring) :
  forallb is_space u = true -> (1 <= length u)%nat ->
  match u ++ rest with y :: _ => is_digit y = false | [] => True end.
Proof.
  destruct u as [|y u]; simpl; [lia|]. intros H _.
  apply andb_prop in H as [H _]. now apply space_not_digit.
Qed.

Lemma rep_match_exactly p k n b x c :
  forallb p b = true -> length b = n ->
  rep_match p n (Some n) (b ++ x) c k = k x c.
Proof. intros Pb <-. now apply rep_match_exact. Qed.

(** Continuations that cannot start on a space, or on a digit. *)
Lemma digits_after_space lo hi k y s c :
  is_space y = true -> (1 <= lo)%nat ->
  rep_match is_digit lo hi (y :: s) c k = None.
Proof.
  intros Hy Hlo. cbn [rep_match]. rewrite (space_not_digit y Hy).
  destruct lo; [lia|reflexivity].
Qed.

Lemma spaces_after_digit lo hi k y s c :
  is_digit y = true -> (1 <= lo)%nat ->
  rep_match is_space lo hi (y :: s) c k = None.
Proof.
  intros Hy Hlo. cbn [rep_match]. rewrite (digit_not_space y Hy).
  destruct lo; [lia|reflexivity].
Qed.

Lemma spaces_at_non_space lo hi k rest c :
  match rest with y :: _ => is_space y = false | [] => True end ->
  (1 <= lo)%nat ->
  rep_match is_space lo hi rest c k = None.
Proof.
  intros H Hlo. destruct rest as [|y rest]; cbn [rep_match].
  - destruct lo; [lia|reflexivity].
  - rewrite H. destruct lo; [lia|reflexivity].
Qed.

(** A date followed by something that starts no time of day: the
    pattern reads the date and stops. *)
Lemma match_here_date wd ws1 mn ws2 dd ws3 yyyy rest :
  In wd dayNames -> spaces ws1 -> In mn monthNames -> spaces ws2 ->
  digits 1 2 dd -> spaces ws3 -> digits 4 4 yyyy ->
  match rest with y :: _ => is_space y = false | [] => True end ->
  exists caps,
    match_here datePattern
      (wd ++ ws1 ++ mn ++ ws2 ++ dd ++ ws3 ++ yyyy ++ rest)
    = Some (rest, caps).
Proof.
  intros Hwd (S1 & L1) Hmn (S2 & L2) (D1 & Ld1) (S3 & L3) (D2 & Ld2) Hrest.
  eexists. unfold match_here, datePattern. cbn [matcher].
  rewrite alts_dayNames by assumption.
  rewrite rep_match_span;
    [ | intros y s c Hy; now apply alts_monthNames_reject
      | assumption | now apply monthNames_head | lia | exact I ].
  rewrite alts_monthNames by assumption.
  rewrite rep_match_span;
    [ | intros y s c Hy; apply digits_after_space; [exact Hy|lia]
      | assumption | apply digits_head; [assumption|lia] | lia | exact I ].
  rewrite rep_match_span;
    [ | intros y s c Hy; apply spaces_after_digit; [exact Hy|lia]
      | assumption | apply spaces_head; [assumption|lia] | lia
      | simpl; lia ].
  rewrite rep_match_span;
    [ | intros y s c Hy; apply digits_after_space; [exact Hy|lia]
      | assumption | apply digits_head; [assumption|lia] | lia | exact I ].
  rewrite rep_match_exactly by (auto; lia).
  rewrite spaces_at_non_space by (auto; lia).
  reflexivity.
Qed.

(** Three digits or more where the day of the month is expected: the
    white space that must follow the day is not there. *)
Lemma match_here_long_day wd ws1 mn ws2 ddd rest :
  In wd dayNames -> spaces ws1 -> In mn monthNames -> spaces ws2 ->
  forallb is_digit ddd = true -> (3 <= length ddd)%nat ->
  match_here datePattern (wd ++ ws1 ++ mn ++ ws2 ++ ddd ++ rest) = None.
Proof.
  intros Hwd (S1 & L1) Hmn (S2 & L2) D1 Ld1.
  unfold match_here, datePattern. cbn [matcher].
  rewrite alts_dayNames by assumption.
  rewrite rep_match_span;
    [ | intros y s c Hy; now apply alts_monthNames_reject
      | assumption | now apply monthNames_head | lia | exact I ].
  rewrite alts_monthNames by assumption.
  rewrite rep_match_span;
    [ | intros y s c Hy; apply digits_after_space; [exact Hy|lia]
      | assumption | apply digits_head; [assumption|lia] | lia | exact I ].
  apply rep_match_overfull; [|assumption|lia].
  intros y s c Hy. apply spaces_after_digit; [exact Hy|lia].
Qed.

End PatternFacts.



(* ================================================================= *)
(** * The parser *)

Module ParserFacts.
Import RegexFacts PatternFacts.

(** On a non-empty run of digits [parseInt] is the decimal value. *)
Lemma parseInt_digits u :
  forallb is_digit u = true -> u <> [] ->
  parseInt u = Some (digits_value 0 u).
Proof.
  destruct u as [|c u]; [congruence|]. intros H _.
  simpl in H. apply andb_prop in H as [Hc _].
  unfold parseInt. cbn [skip_spaces]. rewrite (digit_not_space _ Hc).
  assert (c <> 45%N /\ c <> 43%N) as [N1 N2].
  { unfold is_digit in Hc. apply andb_prop in Hc as [H1 H2].
    apply N.leb_le in H1. lia. }
  destruct c as [|p]; [discriminate|].
  do 6 (destruct p as [p|p|]; try (now rewrite Hc); try congruence).
Qed.

Lemma indexOf_monthNames mn :
  In mn monthNames -> exists i, indexOf monthNames mn = Some i /\ 0 <= i <= 11.
Proof.
  intros H. simpl in H.
  repeat (destruct H as [<-|H];
          [eexists; split; [vm_compute; reflexivity|lia]|]).
  contradiction.
Qed.

(** The fields that a match of the pattern is parsed into. *)
Lemma parse_of_match LocalTZA s format m :
  string_match datePattern s = Some m ->
  exists year monthIndex day hour minute,
    parseDateString LocalTZA s format
    = Some (TimeValue (time_of_fields LocalTZA year monthIndex day hour minute))
    /\ 0 <= monthIndex <= 11.
Proof.
  intros Hm. unfold parseDateString. rewrite Hm.
  destruct (search_some _ _ _ _ Hm) as (b & a & _ & _ & S & _).
  destruct (sem_datePattern _ _ S)
    as (wd & ws1 & mn & ws2 & dd & ws3 & yyyy & time & _ & _ & _ & Hmn & _
        & (D1 & L1) & _ & (D2 & L2) & -> & -> & -> & T).
  destruct (indexOf_monthNames _ Hmn) as (i & -> & Hi).
  rewrite (parseInt_digits dd D1) by (intros ->; simpl in L1; lia).
  rewrite (parseInt_digits yyyy D2) by (intros ->; simpl in L2; lia).
  destruct T as [(_ & -> & ->)|(ws4 & hh & mm & _ & _ & (D3 & L3) & (D4 & L4)
                                 & -> & ->)].
  - simpl. eauto 8.
  - destruct hh as [|h hh]; [simpl in L3; lia|].
    destruct mm as [|m' mm]; [simpl in L4; lia|].
    rewrite (parseInt_digits _ D3), (parseInt_digits _ D4) by discriminate.
    simpl. eauto 8.
Qed.

Lemma string_match_conforms s m :
  string_match datePattern s = Some m -> conforms s.
Proof.
  intros H. destruct (search_some _ _ _ _ H) as (b & a & E & _ & S & _).
  exists b, (matched m), a. split; [exact E|].
  apply lang_datePattern. eapply sem_lang; exact S.
Qed.

Lemma conforms_string_match s :
  conforms s -> string_match datePattern s <> None.
Proof.
  intros (b & u & a & E & Hu) H.
  apply (search_none _ _ _ H b u a E). now apply lang_datePattern.
Qed.

End ParserFacts.

(* ================================================================= *)
(** * The parser on a date that is known *)

Module ParserRunFacts.
Import RegexFacts PatternFacts ParserFacts.

Local Arguments N.eqb : simpl never.

Lemma colon_after_digit y s :
  is_digit y = true -> strip_prefix (lit ":") (y :: s) = None.
Proof.
  intros H. cbn. destruct (N.eqb_spec 58 y) as [<-|]; [|reflexivity].
  vm_compute in H. discriminate H.
Qed.

Lemma digits_at_non_digit lo hi k rest c :
  match rest with y :: _ => is_digit y = false | [] => True end ->
  (1 <= lo)%nat ->
  rep_match is_digit lo hi rest c k = None.
Proof.
  intros H L. destruct lo as [|lo]; [lia|].
  destruct rest as [|y s]; cbn; [reflexivity|]. now rewrite H.
Qed.

Lemma plain_tail_of_non_space rest :
  match rest with y :: _ => is_space y = false | [] => True end ->
  plain_tail rest.
Proof.
  intros H. exists [], rest. repeat split. destruct rest; auto.
Qed.

(** No time is read before a plain tail. *)
Lemma spaces_then_digits_none rest c lo hi
    (k : jsstring -> captures -> Continuation) :
  plain_tail rest -> (1 <= lo)%nat ->
  rep_match is_space 1 None rest c
    (fun s1 c1 => rep_match is_digit lo hi s1 c1 (k s1 c1)) = None.
Proof.
  intros (ws & r' & -> & Sws & Hr') L.
  destruct ws as [|w ws].
  - apply spaces_at_non_space; [|lia]. destruct r'; [exact I|apply Hr'].
  - rewrite rep_match_span;
      [ | intros y s c' Hy; now apply digits_after_space
        | assumption | destruct r'; [exact I|apply Hr'] | simpl; lia
        | exact I ].
    apply digits_at_non_digit; [|assumption].
    destruct r' as [|y r']; [exact I|]. destruct Hr' as [_ Hd].
    destruct (is_digit y); [|reflexivity]. now specialize (Hd eq_refl).
Qed.

(** The groups of a date without a time. *)
Lemma match_here_date_groups wd ws1 mn ws2 dd ws3 yyyy rest :
  In wd dayNames -> spaces ws1 -> In mn monthNames -> spaces ws2 ->
  digits 1 2 dd -> spaces ws3 -> digits 4 4 yyyy ->
  plain_tail rest ->
  exists caps,
    match_here datePattern
      (wd ++ ws1 ++ mn ++ ws2 ++ dd ++ ws3 ++ yyyy ++ rest)
    = Some (rest, caps)
    /\ caps 2%nat = Some mn /\ caps 3%nat = Some dd /\ caps 4%nat = Some yyyy
    /\ caps 5%nat = None /\ caps 6%nat = None.
Proof.
  intros Hwd (S1 & L1) Hmn (S2 & L2) (D1 & Ld1) (S3 & L3) (D2 & Ld2) Hrest.
  eexists. unfold match_here, datePattern. cbn [matcher].
  rewrite alts_dayNames by assumption.
  rewrite rep_match_span;
    [ | intros y s c Hy; now apply alts_monthNames_reject
      | assumption | now apply monthNames_head | lia | exact I ].
  rewrite alts_monthNames by assumption.
  rewrite rep_match_span;
    [ | intros y s c Hy; apply digits_after_space; [exact Hy|lia]
      | assumption | apply digits_head; [assumption|lia] | lia | exact I ].
  rewrite rep_match_span;
    [ | intros y s c Hy; apply spaces_after_digit; [exact Hy|lia]
      | assumption | apply spaces_head; [assumption|lia] | lia
      | simpl; lia ].
  rewrite rep_match_span;
    [ | intros y s c Hy; apply digits_after_space; [exact Hy|lia]
      | assumption | apply digits_head; [assumption|lia] | lia | exact I ].
  rewrite rep_match_exactly by (auto; lia).
  rewrite spaces_then_digits_none by (auto; lia).
  split; [reflexivity|].
  unfold set_capture. cbn [Nat.eqb]. rewrite !consumed_app.
  repeat split.
Qed.

(** The groups of a date with a time: the time is read when it is
    there, its minutes from two digits exactly. *)
Lemma match_here_date_time_groups wd ws1 mn ws2 dd ws3 yyyy ws4 hh mm rest :
  In wd dayNames -> spaces ws1 -> In mn monthNames -> spaces ws2 ->
  digits 1 2 dd -> spaces ws3 -> digits 4 4 yyyy ->
  spaces ws4 -> digits 1 2 hh -> digits 2 2 mm ->
  exists caps,
    match_here datePattern
      (wd ++ ws1 ++ mn ++ ws2 ++ dd ++ ws3 ++ yyyy
       ++ ws4 ++ hh ++ lit ":" ++ mm ++ rest)
    = Some (rest, caps)
    /\ caps 2%nat = Some mn /\ caps 3%nat = Some dd /\ caps 4%nat = Some yyyy
    /\ caps 5%nat = Some hh /\ caps 6%nat = Some mm.
Proof.
  intros Hwd (S1 & L1) Hmn (S2 & L2) (D1 & Ld1) (S3 & L3) (D2 & Ld2)
    (S4 & L4) (D3 & Ld3) (D4 & Ld4).
  eexists. unfold match_here, datePattern. cbn [matcher].
  rewrite alts_dayNames by assumption.
  rewrite rep_match_span;
    [ | intros y s c Hy; now apply alts_monthNames_reject
      | assumption | now apply monthNames_head | lia | exact I ].
  rewrite alts_monthNames by assumption.
  rewrite rep_match_span;
    [ | intros y s c Hy; apply digits_after_space; [exact Hy|lia]
      | assumption | apply digits_head; [assumption|lia] | lia | exact I ].
  rewrite rep_match_span;
    [ | intros y s c Hy; apply spaces_after_digit; [exact Hy|lia]
      | assumption | apply spaces_head; [assumption|lia] | lia
      | simpl; lia ].
  rewrite rep_match_span;
    [ | intros y s c Hy; apply digits_after_space; [exact Hy|lia]
      | assumption | apply digits_head; [assumption|lia] | lia | exact I ].
  rewrite rep_match_exactly by (auto; lia).
  rewrite rep_match_span;
    [ | intros y s c Hy; apply digits_after_space; [exact Hy|lia]
      | assumption | apply digits_head; [assumption|lia] | lia | exact I ].
  rewrite rep_match_span;
    [ | intros y s c Hy; now rewrite colon_after_digit
      | assumption | reflexivity | lia | simpl; lia ].
  rewrite strip_prefix_app.
  rewrite rep_match_exactly by (auto; lia).
  split; [reflexivity|].
  unfold set_capture. cbn [Nat.eqb]. rewrite !consumed_app.
  repeat split.
Qed.

(** From the groups to the date. *)
Lemma parse_of_groups LocalTZA format text rest caps mn dd yyyy :
  match_here datePattern text = Some (rest, caps) ->
  caps 2%nat = Some mn -> In mn monthNames ->
  caps 3%nat = Some dd -> digits 1 2 dd ->
  caps 4%nat = Some yyyy -> digits 4 4 yyyy ->
  (caps 5%nat = None /\ caps 6%nat = None ->
   parseDateString LocalTZA text format
   = Some (TimeValue (time_of_fields LocalTZA (digits_value 0 yyyy)
                        (monthIndexOf mn) (digits_value 0 dd) 0 0)))
  /\ (forall hh mm,
        caps 5%nat = Some hh -> digits 1 2 hh ->
        caps 6%nat = Some mm -> digits 2 2 mm ->
        parseDateString LocalTZA text format
        = Some (TimeValue (time_of_fields LocalTZA (digits_value 0 yyyy)
                             (monthIndexOf mn) (digits_value 0 dd)
                             (digits_value 0 hh) (digits_value 0 mm)))).
Proof.
  intros M C2 Hmn C3 (D1 & L1) C4 (D2 & L2).
  unfold parseDateString, string_match.
  rewrite (search_here _ _ _ _ _ M). cbn [groups]. rewrite C2, C3, C4.
  unfold monthIndexOf.
  destruct (indexOf_monthNames _ Hmn) as (i & -> & _).
  rewrite (parseInt_digits dd D1) by (intros ->; simpl in L1; lia).
  rewrite (parseInt_digits yyyy D2) by (intros ->; simpl in L2; lia).
  split.
  - intros [-> ->]. reflexivity.
  - intros hh mm -> (D3 & L3) -> (D4 & L4).
    destruct hh as [|h hh]; [simpl in L3; lia|].
    destruct mm as [|m' mm]; [simpl in L4; lia|].
    now rewrite (parseInt_digits _ D3), (parseInt_digits _ D4) by discriminate.
Qed.

Lemma parse_date_only LocalTZA format wd ws1 mn ws2 dd ws3 yyyy rest :
  In wd dayNames -> spaces ws1 -> In mn monthNames -> spaces ws2 ->
  digits 1 2 dd -> spaces ws3 -> digits 4 4 yyyy ->
  plain_tail rest ->
  parseDateString LocalTZA
    (wd ++ ws1 ++ mn ++ ws2 ++ dd ++ ws3 ++ yyyy ++ rest) format
  = Some (TimeValue (time_of_fields LocalTZA (digits_value 0 yyyy)
                       (monthIndexOf mn) (digits_value 0 dd) 0 0)).
Proof.
  intros Hwd H1 Hmn H2 Hdd H3 Hy Hrest.
  destruct (match_here_date_groups wd ws1 mn ws2 dd ws3 yyyy rest)
    as (caps & M & C2 & C3 & C4 & C5 & C6); auto.
  now apply (proj1 (parse_of_groups LocalTZA format _ _ _ _ _ _
                      M C2 Hmn C3 Hdd C4 Hy)).
Qed.

Lemma parse_date_time LocalTZA format
    wd ws1 mn ws2 dd ws3 yyyy ws4 hh mm rest :
  In wd dayNames -> spaces ws1 -> In mn monthNames -> spaces ws2 ->
  digits 1 2 dd -> spaces ws3 -> digits 4 4 yyyy ->
  spaces ws4 -> digits 1 2 hh -> digits 2 2 mm ->
  parseDateString LocalTZA
    (wd ++ ws1 ++ mn ++ ws2 ++ dd ++ ws3 ++ yyyy
     ++ ws4 ++ hh ++ lit ":" ++ mm ++ rest) format
  = Some (TimeValue (time_of_fields LocalTZA (digits_value 0 yyyy)
                       (monthIndexOf mn) (digits_value 0 dd)
                       (digits_value 0 hh) (digits_value 0 mm))).
Proof.
  intros Hwd H1 Hmn H2 Hdd H3 Hy H4 Hhh Hmm.
  destruct (match_here_date_time_groups wd ws1 mn ws2 dd ws3 yyyy ws4 hh mm rest)
    as (caps & M & C2 & C3 & C4 & C5 & C6); auto.
  now apply (proj2 (parse_of_groups LocalTZA format _ _ _ _ _ _
                      M C2 Hmn C3 Hdd C4 Hy) hh mm).
Qed.

(** The value of a run of at most [n] digits is below [10 ^ n]. *)
Lemma digits_value_bound : forall u acc,
  forallb is_digit u = true -> 0 <= acc ->
  acc * 10 ^ Z.of_nat (length u) <= digits_value acc u
    < (acc + 1) * 10 ^ Z.of_nat (length u).
Proof.
  induction u as [|c u IH]; intros acc D Hacc.
  - cbn. lia.
  - cbn [forallb] in D. apply andb_prop in D as [Dc Du].
    cbn [digits_value length]. rewrite Dc.
    assert (Hc : 0 <= Z.of_N c - 48 <= 9).
    { unfold is_digit in Dc. apply andb_prop in Dc as [A B].
      apply N.leb_le in A. apply N.leb_le in B. lia. }
    specialize (IH (10 * acc + (Z.of_N c - 48)) Du ltac:(lia)).
    rewrite Nat2Z.inj_succ, Z.pow_succ_r by lia.
    pose proof (Z.pow_pos_nonneg 10 (Z.of_nat (length u)) ltac:(lia) ltac:(lia)).
    nia.
Qed.

(** ** What is in the first group does not matter to the rest *)

Lemma rep_match_agree n p k k' :
  (forall s c c', agree_off n c c' -> results_agree n (k s c) (k' s c')) ->
  forall s lo hi c c', agree_off n c c' ->
  results_agree n (rep_match p lo hi s c k) (rep_match p lo hi s c' k').
Proof.
  intros Hk. induction s as [|x s IH]; intros lo hi c c' A; cbn [rep_match].
  - destruct (Nat.eqb lo 0); [now apply Hk|exact I].
  - assert (Hstop : results_agree n
              (if Nat.eqb lo 0 then k (x :: s) c else None)
              (if Nat.eqb lo 0 then k' (x :: s) c' else None)).
    { destruct (Nat.eqb lo 0); [now apply Hk|exact I]. }
    destruct (p x && hi_allows hi); [|exact Hstop].
    specialize (IH (Nat.pred lo) (hi_pred hi) c c' A).
    destruct (rep_match p (Nat.pred lo) (hi_pred hi) s c k) as [[? ?]|],
             (rep_match p (Nat.pred lo) (hi_pred hi) s c' k') as [[? ?]|];
      cbn in IH; try contradiction; assumption.
Qed.

Lemma matcher_agree n r : no_group n r ->
  forall k k',
  (forall s c c', agree_off n c c' -> results_agree n (k s c) (k' s c')) ->
  forall s c c', agree_off n c c' ->
  results_agree n (matcher r s c k) (matcher r s c' k').
Proof.
  induction r as [w|p lo hi|r1 IH1 r2 IH2|r1 IH1 r2 IH2|g r IH|r IH];
    intros G k k' Hk s c c' A; cbn [matcher no_group] in *.
  - destruct (strip_prefix w s); [now apply Hk|exact I].
  - now apply rep_match_agree.
  - destruct G as [G1 G2].
    apply IH1; auto; intros s1 d d' Ad; now apply IH2.
  - destruct G as [G1 G2].
    pose proof (IH1 G1 k k' Hk s c c' A) as R1.
    destruct (matcher r1 s c k) as [[? ?]|], (matcher r1 s c' k') as [[? ?]|];
      cbn in R1; try contradiction; [exact R1|].
    now apply IH2.
  - destruct G as [Gn G].
    apply IH; auto; intros s1 d d' Ad; apply Hk;
      intros i Hi; unfold set_capture; destruct (Nat.eqb i g); auto.
  - pose proof (IH G k k' Hk s c c' A) as R1.
    destruct (matcher r s c k) as [[? ?]|], (matcher r s c' k') as [[? ?]|];
      cbn in R1; try contradiction; [exact R1|].
    now apply Hk.
Qed.

(** The date pattern after a weekday name [wd] and after another. *)
Lemma match_here_weekday wd wd' tail :
  In wd dayNames -> In wd' dayNames ->
  results_agree 1 (match_here datePattern (wd ++ tail))
                  (match_here datePattern (wd' ++ tail)).
Proof.
  intros H H'. unfold match_here.
  change datePattern
    with (Seq (Group 1 (alts dayNames)) date_after_weekday).
  cbn [matcher]. rewrite !alts_dayNames by assumption.
  apply matcher_agree.
  - cbn. auto 20.
  - intros s c c' A. cbn. auto.
  - intros i Hi. unfold set_capture.
    destruct (Nat.eqb_spec i 1); [contradiction|reflexivity].
Qed.

(** No date starts at the second or third letter of a weekday name. *)
Lemma no_date_inside_weekday wd tail :
  In wd dayNames ->
  exists a b c, wd = [a; b; c]
    /\ match_here datePattern (b :: c :: tail) = None
    /\ match_here datePattern (c :: tail) = None.
Proof.
  intros H. cbn in H.
  repeat (destruct H as [<-|H];
          [do 3 eexists; split; [reflexivity|split; vm_compute; reflexivity]|]).
  contradiction.
Qed.

(** The parser looks at the groups from the second on. *)
Lemma parse_groups_agree LocalTZA format s s' m m' :
  string_match datePattern s = Some m ->
  string_match datePattern s' = Some m' ->
  agree_off 1 (groups m) (groups m') ->
  parseDateString LocalTZA s format = parseDateString LocalTZA s' format.
Proof.
  intros E E' A. unfold parseDateString. rewrite E, E'. cbv zeta.
  now rewrite (A 2%nat), (A 3%nat), (A 4%nat), (A 5%nat), (A 6%nat)
    by discriminate.
Qed.

Lemma parse_weekday LocalTZA format wd wd' tail :
  In wd dayNames -> In wd' dayNames ->
  parseDateString LocalTZA (wd ++ tail) format
  = parseDateString LocalTZA (wd' ++ tail) format.
Proof.
  intros H H'. pose proof (match_here_weekday wd wd' tail H H') as R.
  destruct (match_here datePattern (wd ++ tail)) as [[r c]|] eqn:M,
           (match_here datePattern (wd' ++ tail)) as [[r' c']|] eqn:M';
    cbn in R; try contradiction.
  - destruct R as [_ A].
    eapply parse_groups_agree;
      [apply (search_here _ _ 0%nat _ _ M)
      |apply (search_here _ _ 0%nat _ _ M')|exact A].
  - destruct (no_date_inside_weekday wd tail H) as (a & b & d & -> & N1 & N2).
    destruct (no_date_inside_weekday wd' tail H')
      as (a' & b' & d' & -> & N1' & N2').
    cbn [app] in *. unfold parseDateString, string_match.
    cbn [search]. rewrite M, M', N1, N2, N1', N2'. reflexivity.
Qed.

End ParserRunFacts.

(* ================================================================= *)
(** * Numbers and dates *)

Module NumberFacts.

(** Unfolding of the rational operations down to integer arithmetic. *)
Ltac q_to_z :=
  cbv beta iota zeta delta
    [Qltb Math_round Math_ceil Qceiling Qfloor Qdiv Qinv Qmult Qplus Qminus
     Qopp Qabs Qle_bool inject_Z Qnum Qden round_half_away_from_zero];
  rewrite ?Pos2Z.inj_mul.

Ltac zdiv := Z.to_euclidean_division_equations; lia.

Lemma Math_round_div a p :
  Math_round (inject_Z a / inject_Z (Zpos p)) = (2 * a + Zpos p) / (2 * Zpos p).
Proof. q_to_z. f_equal; lia. Qed.

Lemma Math_round_abs_div a p :
  Math_round (Qabs (inject_Z a / inject_Z (Zpos p)))
  = (2 * Z.abs a + Zpos p) / (2 * Zpos p).
Proof. q_to_z. f_equal; lia. Qed.

Lemma Qltb_div_0 a p :
  Qltb (inject_Z a / inject_Z (Zpos p)) 0 = (a <? 0).
Proof.
  q_to_z.
  match goal with |- negb (?x <=? ?y) = _ => destruct (Z.leb_spec x y) end;
  destruct (Z.ltb_spec a 0); simpl; try reflexivity; lia.
Qed.

(** [Math.ceil(a / p)] is the least [n] with [a <= n * p]. *)
Lemma Math_ceil_div a p :
  Math_ceil (inject_Z a / (Zpos p # 1)) = - ((- a) / Zpos p).
Proof. q_to_z. f_equal. f_equal; lia. Qed.

Lemma Math_ceil_div_spec a p :
  let n := Math_ceil (inject_Z a / (Zpos p # 1)) in
  (n - 1) * Zpos p < a <= n * Zpos p.
Proof.
  cbv zeta. rewrite Math_ceil_div.
  pose proof (Z.div_mod (- a) (Zpos p) ltac:(lia)).
  pose proof (Z.mod_pos_bound (- a) (Zpos p) ltac:(lia)). nia.
Qed.

Lemma Qltb_abs_div a p k :
  Qltb (Qabs (inject_Z a / inject_Z (Zpos p))) (inject_Z k)
  = (Z.abs a <? k * Zpos p).
Proof.
  q_to_z.
  match goal with |- negb (?x <=? ?y) = _ => destruct (Z.leb_spec x y) end;
  destruct (Z.ltb_spec (Z.abs a) (k * Zpos p)); simpl; try reflexivity; lia.
Qed.

(** On a whole number of days both roundings are the identity. *)
Lemma Math_round_whole k p :
  Math_round (inject_Z (k * Zpos p) / inject_Z (Zpos p)) = k.
Proof.
  rewrite Math_round_div.
  pose proof (Pos2Z.is_pos p).
  symmetry. apply Z.div_unique with (r := Zpos p); lia.
Qed.

Lemma round_half_away_whole k p :
  round_half_away_from_zero (inject_Z (k * Zpos p) / inject_Z (Zpos p)) = k.
Proof.
  pose proof (Pos2Z.is_pos p). q_to_z.
  match goal with |- (if ?x <=? ?y then _ else _) = _ =>
    destruct (Z.leb_spec x y) end.
  - symmetry. apply Z.div_unique with (r := Zpos p); lia.
  - rewrite <- (Z.opp_involutive k) at 2. f_equal.
    symmetry. apply Z.div_unique with (r := Zpos p); lia.
Qed.

Lemma Number_toString_head n : numeric_head (Number_toString n).
Proof.
  assert (U : forall d, numeric_head (NilZero.string_of_uint d)).
  { intros d. destruct d; simpl; tauto. }
  unfold Number_toString.
  destruct (Z.to_int n) as [d|d]; simpl; [apply U|tauto].
Qed.

End NumberFacts.

Module DateFacts.
Import NumberFacts.

(** Consecutive years start [DaysInYear] days apart, and
    [YearFromTime] finds the year that a time value falls in. *)
Lemma DayFromYear_step y : DayFromYear (y + 1) - DayFromYear y = DaysInYear y.
Proof.
  unfold DayFromYear, DaysInYear.
  destruct (Z.eqb_spec (y mod 4) 0), (Z.eqb_spec (y mod 100) 0),
    (Z.eqb_spec (y mod 400) 0); cbn [negb]; zdiv.
Qed.

Lemma YearFromTime_spec t :
  DayFromYear (YearFromTime t) <= Day t < DayFromYear (YearFromTime t + 1).
Proof.
  unfold YearFromTime. cbv zeta. set (d := Day t).
  set (y0 := 1970 + d * 400 / 146097).
  assert (B : DayFromYear (y0 - 1) <= d < DayFromYear (y0 + 2)).
  { subst y0. unfold DayFromYear. zdiv. }
  destruct (Z.leb_spec (DayFromYear (y0 + 1)) d).
  - replace (y0 + 1 + 1) with (y0 + 2) by lia. lia.
  - destruct (Z.leb_spec (DayFromYear y0) d).
    + lia.
    + replace (y0 - 1 + 1) with y0 by lia. lia.
Qed.

Lemma DayFromYear_mono a b : a <= b -> DayFromYear a <= DayFromYear b.
Proof. intros H. unfold DayFromYear. zdiv. Qed.

Lemma YearFromTime_unique t y :
  DayFromYear y <= Day t < DayFromYear (y + 1) -> YearFromTime t = y.
Proof.
  intros H. pose proof (YearFromTime_spec t) as S.
  destruct (Z.lt_trichotomy (YearFromTime t) y) as [L|[E|G]]; [|exact E|].
  - pose proof (DayFromYear_mono (YearFromTime t + 1) y ltac:(lia)). lia.
  - pose proof (DayFromYear_mono (y + 1) (YearFromTime t) ltac:(lia)). lia.
Qed.

Lemma MonthFromTime_range t : 0 <= MonthFromTime t <= 11.
Proof.
  unfold MonthFromTime. cbv zeta.
  repeat match goal with
  | |- context [if ?b then _ else _] => destruct b
  end; lia.
Qed.

(** The day number is recovered from the year, month and date it is
    split into. *)
Lemma MakeDay_fields t :
  MakeDay (YearFromTime t) (MonthFromTime t) (DateFromTime t) = Day t.
Proof.
  pose proof (MonthFromTime_range t) as R.
  unfold MakeDay. cbv zeta.
  rewrite (Z.div_small (MonthFromTime t) 12), (Z.mod_small (MonthFromTime t) 12)
    by lia.
  rewrite Z.add_0_r. unfold DateFromTime, DayWithinYear, InLeapYear. lia.
Qed.

Lemma LocalTime_fixed off t : LocalTime (fixed_zone off) t = t + off.
Proof. reflexivity. Qed.

Lemma UTC_fixed off t : UTC (fixed_zone off) t = t - off.
Proof. reflexivity. Qed.

Lemma truncate_to_midnight_fixed off t :
  truncate_to_midnight (fixed_zone off) t = Day (t + off) * msPerDay - off.
Proof.
  unfold truncate_to_midnight, TimeWithinDay, Day. cbv zeta.
  rewrite LocalTime_fixed, UTC_fixed. unfold msPerDay. zdiv.
Qed.

(** In a zone of constant offset, [new Date(y, m, d)] of a date's local
    fields is the start of its local day, unless the year is one that
    the constructor reads as a year of the 20th century. *)
Lemma midnight_fixed off t :
  ~ (0 <= getFullYear (fixed_zone off) t <= 99) ->
  midnight (fixed_zone off) t = truncate_to_midnight (fixed_zone off) t.
Proof.
  intros Hy. rewrite truncate_to_midnight_fixed.
  unfold midnight, time_of_fields, getMonth, getDate.
  unfold getFullYear in *. rewrite LocalTime_fixed in *.
  replace ((0 <=? YearFromTime (t + off)) && (YearFromTime (t + off) <=? 99))
    with false.
  2:{ symmetry. apply andb_false_iff.
      destruct (Z.leb_spec 0 (YearFromTime (t + off))); [|now left].
      right. apply Z.leb_gt. lia. }
  rewrite MakeDay_fields, UTC_fixed. unfold MakeDate, MakeTime. lia.
Qed.

(** Then [diffDays] is the difference of the local day numbers. *)
Lemma diffDays_fixed off parsed now :
  ~ (0 <= getFullYear (fixed_zone off) parsed <= 99) ->
  ~ (0 <= getFullYear (fixed_zone off) now <= 99) ->
  diffDays (fixed_zone off) parsed now = Day (parsed + off) - Day (now + off).
Proof.
  intros Hp Hn. unfold diffDays.
  rewrite (midnight_fixed _ _ Hp), (midnight_fixed _ _ Hn).
  rewrite !truncate_to_midnight_fixed.
  replace (Day (parsed + off) * msPerDay - off - (Day (now + off) * msPerDay - off))
    with ((Day (parsed + off) - Day (now + off)) * 86400000)
    by (unfold msPerDay; lia).
  change (1000 * 60 * 60 * 24) with 86400000.
  apply Math_round_whole.
Qed.

(** ** Zones of constant offset are all alike

    What is seen at local time [t] in a zone [off] ahead of UTC is what
    a host on UTC sees at [t]. *)

Lemma time_of_fields_fixed off y m d h mi :
  time_of_fields (fixed_zone off) y m d h mi
  = time_of_fields utc y m d h mi - off.
Proof. unfold time_of_fields, UTC, utc, fixed_zone. lia. Qed.

Lemma LocalTime_shift off t :
  LocalTime (fixed_zone off) (t - off) = LocalTime utc t.
Proof. unfold LocalTime, utc, fixed_zone. lia. Qed.

Lemma midnight_shift off t :
  midnight (fixed_zone off) (t - off) = midnight utc t - off.
Proof.
  unfold midnight, getFullYear, getMonth, getDate.
  rewrite LocalTime_shift. apply time_of_fields_fixed.
Qed.

Lemma diffDays_shift off p n :
  diffDays (fixed_zone off) (p - off) (n - off) = diffDays utc p n.
Proof.
  unfold diffDays. rewrite !midnight_shift. do 3 f_equal. lia.
Qed.

Lemma diffMs_shift off p n : diffMs (p - off) (n - off) = diffMs p n.
Proof. unfold diffMs. f_equal. lia. Qed.

Lemma diffHours_shift off p n : diffHours (p - off) (n - off) = diffHours p n.
Proof. unfold diffHours. now rewrite diffMs_shift. Qed.

Lemma hasTimeComponent_shift off p :
  hasTimeComponent (fixed_zone off) (p - off) = hasTimeComponent utc p.
Proof.
  unfold hasTimeComponent, getHours, getMinutes. now rewrite LocalTime_shift.
Qed.

Lemma relativePhrase_shift off p n :
  relativePhrase (fixed_zone off) (TimeValue (p - off)) (n - off)
  = relativePhrase utc (TimeValue p) n.
Proof.
  unfold relativePhrase. cbv zeta.
  now rewrite diffDays_shift, diffMs_shift, diffHours_shift,
    hasTimeComponent_shift.
Qed.

(** The parser of a zone [off] ahead reads the same fields. *)
Lemma parseDateString_shift off s format :
  parseDateString (fixed_zone off) s format
  = option_map (shift_date off) (parseDateString utc s format).
Proof.
  unfold parseDateString.
  destruct (string_match datePattern s) as [m|]; [|reflexivity].
  destruct (match groups m 2%nat with
            | Some name => indexOf monthNames name
            | None => None
            end) as [i|]; [|reflexivity].
  cbn [option_map]. f_equal. unfold new_Date.
  repeat match goal with
  | |- context [match ?x with _ => _ end] =>
      match type of x with
      | option _ => destruct x
      | list _ => destruct x
      end
  end; cbn [shift_date]; try reflexivity;
  now rewrite time_of_fields_fixed.
Qed.

(** Where the two-digit-year reading of the constructor does not
    interfere, [diffDays] is the difference of the dates truncated to
    local midnight, in whole days, under either rounding. *)
Lemma diffDays_is_midnight_difference off parsed now :
  ~ (0 <= getFullYear (fixed_zone off) parsed <= 99) ->
  ~ (0 <= getFullYear (fixed_zone off) now <= 99) ->
  diffDays (fixed_zone off) parsed now
  = round_half_away_from_zero
      (inject_Z (truncate_to_midnight (fixed_zone off) parsed
                 - truncate_to_midnight (fixed_zone off) now)
       / inject_Z msPerDay).
Proof.
  intros Hp Hn. rewrite (diffDays_fixed _ _ _ Hp Hn).
  rewrite !truncate_to_midnight_fixed.
  replace (Day (parsed + off) * msPerDay - off - (Day (now + off) * msPerDay - off))
    with ((Day (parsed + off) - Day (now + off)) * 86400000)
    by (unfold msPerDay; lia).
  symmetry. apply round_half_away_whole.
Qed.

(** A date at local midnight, seen three hours earlier. *)
Lemma midnight_seen_three_hours_before off day :
  let parsed := day * msPerDay - off in
  let now := parsed - 3 * msPerHour in
  ~ (0 <= getFullYear (fixed_zone off) parsed <= 99) ->
  ~ (0 <= getFullYear (fixed_zone off) now <= 99) ->
  hasTimeComponent (fixed_zone off) parsed = false
  /\ diffDays (fixed_zone off) parsed now = 1.
Proof.
  cbv zeta. intros Hp Hn. split.
  - unfold hasTimeComponent, getHours, getMinutes, HourFromTime, MinFromTime.
    rewrite LocalTime_fixed.
    replace (day * msPerDay - off + off) with (day * 86400000)
      by (unfold msPerDay; lia).
    unfold msPerHour, msPerMinute.
    replace (day * 86400000 / 3600000 mod 24) with 0 by zdiv.
    replace (day * 86400000 / 60000 mod 60) with 0 by zdiv.
    reflexivity.
  - rewrite (diffDays_fixed _ _ _ Hp Hn). unfold Day, msPerDay, msPerHour. zdiv.
Qed.

(** ** From the fields to the time value and back *)

Lemma fields_of_local_time y m d h mi :
  0 <= m <= 11 ->
  1 <= d <= daysInMonth m (if DaysInYear y =? 366 then 1 else 0) ->
  0 <= h < 24 -> 0 <= mi < 60 ->
  let t := MakeDate (MakeDay y m d) (MakeTime h mi 0 0) in
  YearFromTime t = y /\ MonthFromTime t = m /\ DateFromTime t = d
  /\ HourFromTime t = h /\ MinFromTime t = mi.
Proof.
  intros Hm Hd Hh Hmi t.
  set (leap := if DaysInYear y =? 366 then 1 else 0) in *.
  assert (Hleap : leap = 0 \/ leap = 1)
    by (subst leap; destruct (DaysInYear y =? 366); auto).
  assert (Hdays : DaysInYear y = 365 + leap).
  { subst leap. unfold DaysInYear.
    destruct (negb (y mod 4 =? 0)), (negb (y mod 100 =? 0)),
      (negb (y mod 400 =? 0)); reflexivity. }
  assert (Eday : MakeDay y m d = DayFromYear y + monthStart m leap + d - 1).
  { unfold MakeDay. cbv zeta.
    rewrite (Z.div_small m 12), (Z.mod_small m 12), Z.add_0_r by lia.
    reflexivity. }
  assert (Etime : 0 <= MakeTime h mi 0 0 < msPerDay)
    by (unfold MakeTime, msPerDay, msPerHour, msPerMinute; lia).
  assert (EDay : Day t = MakeDay y m d).
  { subst t. unfold Day, MakeDate. unfold msPerDay in *. zdiv. }
  assert (Hstart : 0 <= monthStart m leap + d - 1 < 365 + leap).
  { assert (Cm : m = 0 \/ m = 1 \/ m = 2 \/ m = 3 \/ m = 4 \/ m = 5 \/ m = 6
              \/ m = 7 \/ m = 8 \/ m = 9 \/ m = 10 \/ m = 11) by lia.
    repeat (destruct Cm as [->|Cm]; [cbn [monthStart daysInMonth] in *; lia|]).
    subst m. cbn [monthStart daysInMonth] in *. lia. }
  assert (Ey : YearFromTime t = y).
  { apply YearFromTime_unique. rewrite EDay, Eday.
    pose proof (DayFromYear_step y). lia. }
  assert (Ew : DayWithinYear t = monthStart m leap + d - 1).
  { unfold DayWithinYear. rewrite Ey, EDay, Eday. lia. }
  assert (El : InLeapYear t = leap).
  { unfold InLeapYear. now rewrite Ey. }
  assert (Em : MonthFromTime t = m).
  { unfold MonthFromTime. cbv zeta. rewrite Ew, El.
    assert (Cm : m = 0 \/ m = 1 \/ m = 2 \/ m = 3 \/ m = 4 \/ m = 5 \/ m = 6
              \/ m = 7 \/ m = 8 \/ m = 9 \/ m = 10 \/ m = 11) by lia.
    repeat (destruct Cm as [->|Cm];
            [cbn [monthStart daysInMonth] in *;
             repeat match goal with
             | |- context [if ?a <? ?b then _ else _] =>
                 destruct (Z.ltb_spec a b); try lia
             end; reflexivity|]).
    subst m. cbn [monthStart daysInMonth] in *.
    repeat match goal with
    | |- context [if ?a <? ?b then _ else _] =>
        destruct (Z.ltb_spec a b); try lia
    end; reflexivity. }
  split; [exact Ey|]. split; [exact Em|]. split.
  - unfold DateFromTime. rewrite Ew, Em, El. lia.
  - subst t. unfold HourFromTime, MinFromTime, MakeDate, MakeTime.
    unfold msPerDay, msPerHour, msPerMinute. split; zdiv.
Qed.

(** A date at local midnight has no time component. *)
Lemma local_midnight_has_no_time off day :
  hasTimeComponent (fixed_zone off) (day * msPerDay - off) = false.
Proof.
  unfold hasTimeComponent, getHours, getMinutes, HourFromTime, MinFromTime.
  rewrite LocalTime_fixed.
  replace (day * msPerDay - off + off) with (day * 86400000)
    by (unfold msPerDay; lia).
  unfold msPerHour, msPerMinute.
  replace (day * 86400000 / 3600000 mod 24) with 0 by zdiv.
  replace (day * 86400000 / 60000 mod 60) with 0 by zdiv.
  reflexivity.
Qed.

End DateFacts.

(* ================================================================= *)
(** * Phrases and their endings *)

Module PhraseFacts.

Lemma list_ascii_of_string_app (a b : string) :
  list_ascii_of_string (a ++ b)
  = list_ascii_of_string a ++ list_ascii_of_string b.
Proof. induction a as [|c a IH]; simpl; [reflexivity|now rewrite IH]. Qed.

Lemma prefixb_app p x : prefixb p (p ++ x) = true.
Proof.
  induction p as [|a p IH]; simpl; [reflexivity|].
  now rewrite Ascii.eqb_refl.
Qed.

Lemma prefixb_of_app p : forall x y,
  prefixb p (x ++ y) = true -> prefixb p x = true \/ prefixb x p = true.
Proof.
  induction p as [|a p IH]; intros x y H; [now left|].
  destruct x as [|b x]; [now right|].
  simpl in *. apply andb_prop in H as [E H].
  rewrite E. rewrite Ascii.eqb_sym, E. simpl. eauto.
Qed.

Lemma ends_in_app a b : ends_in b (a ++ b).
Proof. eexists. apply list_ascii_of_string_app. Qed.

Lemma ends_in_app3 a x b : ends_in b (a ++ x ++ b).
Proof.
  eexists. rewrite !list_ascii_of_string_app, app_assoc. reflexivity.
Qed.

Lemma ends_with_of_ends_in b s : ends_in b s -> ends_with b s = true.
Proof.
  intros [pre E]. unfold ends_with. rewrite E, rev_app_distr.
  apply prefixb_app.
Qed.

Lemma ends_with_through suffix b s :
  ends_in b s -> ends_with suffix s = true ->
  ends_with suffix b = true \/ ends_with b suffix = true.
Proof.
  intros [pre E]. unfold ends_with. rewrite E, rev_app_distr.
  apply prefixb_of_app.
Qed.

Lemma length_list_ascii s :
  length (list_ascii_of_string s) = String.length s.
Proof. induction s; simpl; congruence. Qed.

Lemma foreign_ending_sound b s :
  foreign_ending b = true -> ends_in b s -> is_minute_hour_phrase s = false.
Proof.
  unfold foreign_ending, is_minute_hour_phrase. intros H Hs.
  apply andb_prop in H as [Hl Hf]. apply Nat.ltb_lt in Hl.
  apply orb_false_iff. split.
  - destruct (String.eqb_spec s "Now") as [->|]; [|reflexivity].
    destruct Hs as [pre E]. apply (f_equal (@length _)) in E.
    rewrite length_app, !length_list_ascii in E. simpl in E. lia.
  - rewrite forallb_forall in Hf.
    destruct (existsb (fun suffix => ends_with suffix s) minute_hour_suffixes)
      eqn:X; [|reflexivity].
    apply existsb_exists in X as (suffix & I & W).
    specialize (Hf suffix I). apply negb_true_iff, orb_false_iff in Hf.
    destruct (ends_with_through suffix b s Hs W); intuition congruence.
Qed.

Lemma own_ending_sound suffix s :
  In suffix minute_hour_suffixes -> ends_in suffix s ->
  is_minute_hour_phrase s = true.
Proof.
  intros I Hs. unfold is_minute_hour_phrase. apply orb_true_iff. right.
  apply existsb_exists. exists suffix. split; [exact I|].
  now apply ends_with_of_ends_in.
Qed.

(** Phrases with endings that do not fit are different phrases. *)
Lemma differ_by_ending b suffix s literal :
  ends_in b s -> ends_with suffix literal = true ->
  ends_with suffix b = false -> ends_with b suffix = false ->
  s <> literal.
Proof.
  intros Hs Hl F1 F2 ->.
  destruct (ends_with_through suffix b literal Hs Hl); congruence.
Qed.

(** A phrase that starts with a count does not point to the future,
    and one that starts with "In " does not point to the past unless
    its ending says so. *)
Lemma count_is_not_future n tail :
  is_future_phrase (Number_toString n ++ tail) = false.
Proof.
  pose proof (NumberFacts.Number_toString_head n) as H.
  destruct (Number_toString n) as [|c s]; [contradiction|].
  cbn [numeric_head In] in H.
  repeat (destruct H as [<-|H]; [reflexivity|]). contradiction.
Qed.

Lemma in_is_not_past n tail :
  ends_with " ago" tail = false -> ends_with tail " ago" = false ->
  is_past_phrase ("In " ++ Number_toString n ++ tail) = false.
Proof.
  intros F1 F2. unfold is_past_phrase. apply orb_false_iff. split.
  - destruct (ends_with " ago" ("In " ++ Number_toString n ++ tail)) eqn:E;
      [|reflexivity].
    destruct (ends_with_through " ago" tail _
                (ends_in_app3 "In " (Number_toString n) tail) E); congruence.
  - reflexivity.
Qed.

End PhraseFacts.

(* ================================================================= *)
(** * The formatter *)

Module FormatterFacts.
Import NumberFacts DateFacts.

Local Open Scope string_scope.
Local Open Scope Z_scope.

(** Comparisons of the source as facts about integers. *)
Ltac tests :=
  repeat match goal with
  | H : _ && _ = true |- _ => apply andb_prop in H; destruct H
  | H : _ && _ = false |- _ => apply andb_false_iff in H; destruct H
  | H : (_ =? _) = true |- _ => apply Z.eqb_eq in H
  | H : (_ =? _) = false |- _ => apply Z.eqb_neq in H
  | H : (_ <? _) = true |- _ => apply Z.ltb_lt in H
  | H : (_ <? _) = false |- _ => apply Z.ltb_ge in H
  | H : (_ <=? _) = true |- _ => apply Z.leb_le in H
  | H : (_ <=? _) = false |- _ => apply Z.leb_gt in H
  end.

(** Walk down the else-if chain, keeping the branches that the facts
    at hand allow. *)
Ltac chain :=
  repeat match goal with
  | |- context [if ?b then _ else _] =>
      let E := fresh "E" in destruct b eqn:E; tests; try lia
  end.

Lemma months_at_least_2 d : 30 < d -> 2 <= Math_ceil (inject_Z d / 30).
Proof. intros H. pose proof (Math_ceil_div_spec d 30). cbv zeta in *. lia. Qed.

Lemma years_at_least_2 d : 365 < d -> 2 <= Math_ceil (inject_Z d / 365).
Proof. intros H. pose proof (Math_ceil_div_spec d 365). cbv zeta in *. lia. Qed.

(** A phrase that starts with a count is none of the literal phrases
    compared against. *)
Ltac head_differs :=
  let X := fresh "X" in
  intro X;
  match type of X with
  | context [Number_toString ?n] =>
      let Hh := fresh "Hh" in
      pose proof (Number_toString_head n) as Hh;
      destruct (Number_toString n); cbn [append numeric_head] in X, Hh;
      [contradiction|];
      inversion X; subst; cbn [In] in Hh;
      repeat (destruct Hh as [Hh|Hh]; [discriminate Hh|]); contradiction
  end.

Ltac differs :=
  first [discriminate | cbn [append]; discriminate | head_differs].

(** Which tier a phrase belongs to, read off its ending. *)
Ltac in_suffixes := cbn [In minute_hour_suffixes];
  repeat first [left; reflexivity | right].

Ltac phrase_kind :=
  lazymatch goal with
  | |- is_minute_hour_phrase (?a ++ ?x ++ ?b)%string = true =>
      refine (PhraseFacts.own_ending_sound b _ _ (PhraseFacts.ends_in_app3 a x b));
      in_suffixes
  | |- is_minute_hour_phrase (?a ++ ?b)%string = true =>
      refine (PhraseFacts.own_ending_sound b _ _ (PhraseFacts.ends_in_app a b));
      in_suffixes
  | |- is_minute_hour_phrase (?a ++ ?x ++ ?b)%string = false =>
      refine (PhraseFacts.foreign_ending_sound b _ _ (PhraseFacts.ends_in_app3 a x b));
      vm_compute; reflexivity
  | |- is_minute_hour_phrase (?a ++ ?b)%string = false =>
      refine (PhraseFacts.foreign_ending_sound b _ _ (PhraseFacts.ends_in_app a b));
      vm_compute; reflexivity
  | |- _ => vm_compute; reflexivity
  end.

(** [|diffMinutes| < 5] is [|diffMs| < 300000], and gives "Now". *)
Lemma within_five_minutes_is_now LocalTZA parsed now :
  hasTimeComponent LocalTZA parsed = true ->
  Z.abs (parsed - now) < 300000 ->
  relativePhrase LocalTZA (TimeValue parsed) now = "Now".
Proof.
  intros Ht Hd. unfold relativePhrase, diffHours, diffMs. cbv zeta.
  rewrite Ht. cbn [andb].
  change (1000 * 60 * 60) with 3600000. change (1000 * 60) with 60000.
  change 24%Q with (inject_Z 24). change 5%Q with (inject_Z 5).
  rewrite !Qltb_abs_div.
  replace (Z.abs (parsed - now) <? 24 * 3600000) with true
    by (symmetry; apply Z.ltb_lt; lia).
  replace (Z.abs (parsed - now) <? 5 * 60000) with true
    by (symmetry; apply Z.ltb_lt; lia).
  reflexivity.
Qed.

(** The tests and counts of the minute/hour tier, in milliseconds. *)
Lemma tier_tests_in_ms parsed now :
  Qltb (Qabs (diffHours parsed now)) 24
    = (Z.abs (parsed - now) <? 24 * 3600000)
  /\ Qltb (Qabs (diffMs parsed now / inject_Z (1000 * 60))) 5
     = (Z.abs (parsed - now) <? 5 * 60000)
  /\ Qltb (Qabs (diffMs parsed now / inject_Z (1000 * 60))) 60
     = (Z.abs (parsed - now) <? 60 * 60000)
  /\ Qltb (diffMs parsed now / inject_Z (1000 * 60)) 0 = (parsed - now <? 0)
  /\ Qltb (diffHours parsed now) 0 = (parsed - now <? 0)
  /\ Math_round (Qabs (diffMs parsed now / inject_Z (1000 * 60)))
     = (2 * Z.abs (parsed - now) + 60000) / 120000
  /\ Math_round (Qabs (diffHours parsed now))
     = (2 * Z.abs (parsed - now) + 3600000) / 7200000.
Proof.
  unfold diffHours, diffMs.
  change (1000 * 60 * 60) with 3600000. change (1000 * 60) with 60000.
  change 24%Q with (inject_Z 24). change 5%Q with (inject_Z 5).
  change 60%Q with (inject_Z 60).
  rewrite !Qltb_abs_div, !Qltb_div_0, !Math_round_abs_div.
  repeat split.
Qed.

Lemma weeks_between_3_and_5 d :
  14 < d <= 30 -> 3 <= Math_ceil (inject_Z d / 7) <= 5.
Proof. intros H. pose proof (Math_ceil_div_spec d 7). cbv zeta in *. lia. Qed.

(** A phrase with a count is not the literal it is compared with, by
    its first character or by its ending. *)
Ltac ending_differs suffix :=
  lazymatch goal with
  | |- (?a ++ ?x ++ ?b)%string <> _ =>
      refine (PhraseFacts.differ_by_ending b suffix _ _
                (PhraseFacts.ends_in_app3 a x b) _ _ _);
      vm_compute; reflexivity
  | |- (?a ++ ?b)%string <> _ =>
      refine (PhraseFacts.differ_by_ending b suffix _ _
                (PhraseFacts.ends_in_app a b) _ _ _);
      vm_compute; reflexivity
  end.

End FormatterFacts.

(* ================================================================= *)
(** * The scan *)

Module ScanFacts.
Import RegexFacts PatternFacts ParserFacts.

(** ** The loop over the matches of a pattern *)

Lemma exec_some r text lastIndex m :
  exec r text lastIndex = Some m ->
  (lastIndex <= index m)%nat /\ (endIndex m <= length text)%nat
  /\ sem r (matched m) no_captures (groups m).
Proof.
  unfold exec. destruct (Nat.ltb_spec (length text) lastIndex); [discriminate|].
  intros S. destruct (search_some _ _ _ _ S) as (b & a & E & I & Hs & _).
  split; [lia|]. split; [|exact Hs].
  unfold endIndex. rewrite I.
  assert (L : length (skipn lastIndex text) = (length text - lastIndex)%nat)
    by apply length_skipn.
  rewrite E, !length_app in L. lia.
Qed.

Lemma exec_loop_from r text : forall fuel lastIndex,
  Forall (fun m => (lastIndex <= index m)%nat)
         (exec_loop fuel r text lastIndex).
Proof.
  induction fuel as [|fuel IH]; intros li; simpl; [constructor|].
  destruct (exec r text li) as [m|] eqn:E; [|constructor].
  destruct (exec_some _ _ _ _ E) as (Hi & _).
  constructor; [exact Hi|].
  eapply Forall_impl; [|apply IH]. cbv beta. unfold endIndex. intros; lia.
Qed.

(** The matches come in the order of the text, each starting where the
    one before has ended or later. *)
Lemma exec_loop_sorted r text : forall fuel lastIndex,
  StronglySorted (fun a b => (endIndex a <= index b)%nat)
                 (exec_loop fuel r text lastIndex).
Proof.
  induction fuel as [|fuel IH]; intros li; simpl; [constructor|].
  destruct (exec r text li) as [m|] eqn:E; constructor.
  - apply IH.
  - apply exec_loop_from.
Qed.

Lemma exec_loop_sem r text : forall fuel lastIndex,
  Forall (fun m => sem r (matched m) no_captures (groups m)
                   /\ (endIndex m <= length text)%nat)
         (exec_loop fuel r text lastIndex).
Proof.
  induction fuel as [|fuel IH]; intros li; simpl; [constructor|].
  destruct (exec r text li) as [m|] eqn:E; [|constructor].
  destruct (exec_some _ _ _ _ E) as (_ & Hl & Hs).
  constructor; auto.
Qed.

(** The loop ends: when no match of the pattern is empty, the fuel of
    [exec_all] is never used up, and more of it changes nothing. *)
Lemma exec_loop_fuel r text :
  (forall u, lang r u -> u <> []) ->
  forall fuel lastIndex, (length text < lastIndex + fuel)%nat ->
  exec_loop (S fuel) r text lastIndex = exec_loop fuel r text lastIndex.
Proof.
  intros Hne. induction fuel as [|fuel IH]; intros li Hl.
  - simpl. unfold exec.
    destruct (Nat.ltb_spec (length text) li); [reflexivity|lia].
  - change (exec_loop (S (S fuel)) r text li)
      with (match exec r text li with
            | None => []
            | Some m => m :: exec_loop (S fuel) r text (endIndex m)
            end).
    cbn [exec_loop]. destruct (exec r text li) as [m|] eqn:E; [|reflexivity].
    f_equal. apply IH.
    destruct (exec_some _ _ _ _ E) as (Hi & _ & Hs).
    apply sem_lang, Hne in Hs. unfold endIndex.
    destruct (matched m); [congruence|]. simpl. lia.
Qed.

Lemma exec_all_fuel r text :
  (forall u, lang r u -> u <> []) ->
  forall extra,
  exec_loop (S (length text) + extra) r text 0 = exec_all r text.
Proof.
  intros Hne. induction extra as [|extra IH].
  - now rewrite Nat.add_0_r.
  - rewrite Nat.add_succ_r.
    change (S (S (length text) + extra)) with (S (S (length text + extra))).
    rewrite exec_loop_fuel; [exact IH|exact Hne|lia].
Qed.

(** ** The two patterns *)

Lemma lang_shift_groups k r : forall u, lang (shift_groups k r) u <-> lang r u.
Proof.
  induction r as [w|p lo hi|r1 IH1 r2 IH2|r1 IH1 r2 IH2|n r IH|r IH];
    intros u; cbn [shift_groups lang]; try tauto.
  - split; intros (u1 & u2 & E & H1 & H2); exists u1, u2;
      (split; [exact E|]); split; first [now apply IH1 | now apply IH2].
  - rewrite IH1, IH2. tauto.
  - apply IH.
  - rewrite IH. tauto.
Qed.

Lemma date_shape_nonempty u : date_shape u -> u <> [].
Proof.
  intros (wd & ws1 & mn & ws2 & dd & ws3 & yyyy & time & -> & Hwd & _).
  cbn in Hwd.
  repeat (destruct Hwd as [<-|Hwd]; [discriminate|]). contradiction.
Qed.

Lemma plain_match_nonempty format u :
  lang (createDateRegex format) u -> u <> [].
Proof. intros H. now apply date_shape_nonempty, lang_datePattern. Qed.

Lemma bracketed_match_nonempty format u :
  lang (createBracketedDateRegex format) u -> u <> [].
Proof.
  cbn [createBracketedDateRegex lang].
  intros (u1 & u2 & -> & -> & _). discriminate.
Qed.

(** A bracketed match is a date between the brackets, and its first
    group is the date. *)
Lemma sem_bracketed format u c :
  sem (createBracketedDateRegex format) u no_captures c ->
  exists d, u = lit "[[" ++ d ++ lit "]]" /\ date_shape d /\ c 1%nat = Some d.
Proof.
  cbn [createBracketedDateRegex sem].
  intros (u1 & r1 & c1 & -> & (-> & ->) & d & u3 & c2 & ->
          & (c3 & Hd & ->) & (-> & ->)).
  exists d. split; [reflexivity|]. split; [|reflexivity].
  apply sem_lang, lang_shift_groups in Hd. now apply lang_datePattern.
Qed.

(** What is matched is parsed: no occurrence is dropped by the parser. *)
Lemma date_shape_parses LocalTZA format d :
  date_shape d ->
  exists t, parseDateString LocalTZA d format = Some (TimeValue t).
Proof.
  intros H.
  assert (C : conforms d).
  { exists [], d, []. now rewrite app_nil_r. }
  apply conforms_string_match in C.
  destruct (string_match datePattern d) as [m|] eqn:E; [|congruence].
  destruct (parse_of_match LocalTZA d format m E)
    as (y & mo & dy & h & mi & P & _).
  eauto.
Qed.

(** Both loops of the scan end before their fuel does. *)
Lemma scan_loops_end format text extra :
  exec_loop (S (length text) + extra) (createDateRegex format) text 0
  = exec_all (createDateRegex format) text
  /\ exec_loop (S (length text) + extra) (createBracketedDateRegex format) text 0
     = exec_all (createBracketedDateRegex format) text.
Proof.
  split; apply exec_all_fuel.
  - apply plain_match_nonempty.
  - apply bracketed_match_nonempty.
Qed.

(** ** The loops of [buildDecorations] *)

Section Loops.

Variable LocalTZA : Z -> bool -> Z.
Variable clock : nat -> Z.
Variable format : jsstring.
Variable selection_from : nat.

Local Abbreviation overlays :=
  (overlays_from LocalTZA clock format selection_from).

Lemma overlays_from_app l1 : forall l2 n,
  overlays (l1 ++ l2) n = overlays l1 n ++ overlays l2 (n + length l1)%nat.
Proof.
  induction l1 as [|o l1 IH]; intros l2 n; cbn [overlays_from app length].
  - now rewrite Nat.add_0_r.
  - rewrite IH, <- app_assoc. do 3 f_equal. lia.
Qed.

(** A loop whose body formats the occurrence [occ m] of the matches
    that it keeps, and passes over the others. *)
Lemma for_each_match_reads (keep : Match -> bool)
    (occ : Match -> bool * jsstring * Match)
    (body : Match -> M (list Decoration)) :
  forall ms,
  (forall m n, In m ms ->
     body m n
     = if keep m
       then (occurrence_overlay LocalTZA format selection_from (occ m)
               (clock n), S n)
       else ([], n)) ->
  forall n,
  for_each_match ms body n
  = (overlays (map occ (filter keep ms)) n,
     (n + length (filter keep ms))%nat).
Proof.
  induction ms as [|m ms IH]; intros Hb n.
  - cbn. now rewrite Nat.add_0_r.
  - cbn [for_each_match]. unfold bind at 1.
    rewrite (Hb m n (or_introl eq_refl)).
    assert (Hb' : forall m' n', In m' ms ->
              body m' n'
              = if keep m'
                then (occurrence_overlay LocalTZA format selection_from
                        (occ m') (clock n'), S n')
                else ([], n')).
    { intros m' n' I. apply Hb. now right. }
    cbn [filter]. destruct (keep m).
    + unfold bind, ret. rewrite (IH Hb' (S n)).
      cbn [map overlays_from length]. f_equal. lia.
    + unfold bind, ret. rewrite (IH Hb' n). reflexivity.
Qed.

(** The formatter reads the clock once, for a date string that
    parses. *)
Lemma formatDateAsHumanReadable_reads dateString n :
  formatDateAsHumanReadable LocalTZA clock format dateString n
  = match parseDateString LocalTZA dateString format with
    | Some d => (Some (relativePhrase LocalTZA d (clock n)), S n)
    | None => (None, n)
    end.
Proof.
  unfold formatDateAsHumanReadable.
  now destruct (parseDateString LocalTZA dateString format).
Qed.

Lemma filter_all (ms : list Match) : filter (fun _ => true) ms = ms.
Proof. induction ms; cbn; congruence. Qed.

(** The scan formats its occurrences one after the other, each at
    the next reading of the clock. *)
Lemma buildDecorations_reads text n :
  buildDecorations LocalTZA clock format text selection_from n
  = (sort_by_from (overlays (formatted_occurrences format text) n),
     (n + length (formatted_occurrences format text))%nat).
Proof.
  unfold buildDecorations, formatted_occurrences. cbv zeta.
  set (bracketed := exec_all (createBracketedDateRegex format) text).
  set (ranges := map (fun m => (index m, endIndex m)) bracketed).
  unfold bind at 1.
  rewrite (for_each_match_reads (fun _ => true)
             (fun m => (true,
                        match groups m 1%nat with Some d => d | None => [] end,
                        m))).
  2:{ intros m k I.
      pose proof (exec_loop_sem (createBracketedDateRegex format) text
                    (S (length text)) 0) as F.
      rewrite Forall_forall in F. destruct (F m I) as [Hs _].
      destruct (sem_bracketed _ _ _ Hs) as (d & _ & Hd & ->).
      destruct (date_shape_parses LocalTZA format d Hd) as [t P].
      unfold bind, ret. rewrite formatDateAsHumanReadable_reads.
      cbn [occurrence_overlay]. now rewrite P. }
  rewrite filter_all. unfold bind at 1.
  rewrite (for_each_match_reads
             (fun m => negb (overlaps ranges (index m) (endIndex m)))
             (fun m => (false, matched m, m))).
  2:{ intros m k I.
      change (map (fun m0 => (index m0, (index m0 + length (matched m0))%nat))
                  bracketed) with ranges.
      change (index m + length (matched m))%nat with (endIndex m).
      destruct (negb (overlaps ranges (index m) (endIndex m)));
        [|reflexivity].
      pose proof (exec_loop_sem (createDateRegex format) text
                    (S (length text)) 0) as F.
      rewrite Forall_forall in F. destruct (F m I) as [Hs _].
      apply sem_lang, lang_datePattern in Hs.
      destruct (date_shape_parses LocalTZA format _ Hs) as [t P].
      unfold bind, ret. rewrite formatDateAsHumanReadable_reads.
      cbn [occurrence_overlay]. now rewrite P. }
  unfold ret. rewrite overlays_from_app, length_app, !length_map.
  f_equal. lia.
Qed.

End Loops.

(** Only the readings that the scan takes matter. *)
Lemma overlays_from_ext LocalTZA clock clock' format selection_from :
  forall occurrences n,
  (forall i, (i < length occurrences)%nat -> clock (n + i)%nat = clock' (n + i)%nat) ->
  overlays_from LocalTZA clock format selection_from occurrences n
  = overlays_from LocalTZA clock' format selection_from occurrences n.
Proof.
  induction occurrences as [|o l IH]; intros n H; [reflexivity|].
  cbn [overlays_from].
  assert (E : clock n = clock' n).
  { specialize (H 0%nat). rewrite Nat.add_0_r in H.
    apply H. cbn [length]. lia. }
  rewrite E, (IH (S n)); [reflexivity|].
  intros i Hi. specialize (H (S i)).
  rewrite Nat.add_succ_r in H. apply H. cbn [length]. lia.
Qed.

(** ** Sorting *)

Lemma insert_by_from_perm d : forall l,
  Permutation (d :: l) (insert_by_from d l).
Proof.
  induction l as [|e l IH]; cbn [insert_by_from]; [reflexivity|].
  destruct (range_from d <=? range_from e)%nat; [reflexivity|].
  rewrite perm_swap. now constructor.
Qed.

Lemma sort_by_from_perm l : Permutation l (sort_by_from l).
Proof.
  induction l as [|d l IH]; cbn; [constructor|].
  rewrite <- insert_by_from_perm. now constructor.
Qed.

Lemma insert_by_from_sorted d : forall l,
  StronglySorted (fun a b => (range_from a <= range_from b)%nat) l ->
  StronglySorted (fun a b => (range_from a <= range_from b)%nat)
                 (insert_by_from d l).
Proof.
  induction l as [|e l IH]; intros H; cbn [insert_by_from].
  - repeat constructor.
  - inversion H as [|? ? Hl He]; subst.
    destruct (Nat.leb_spec (range_from d) (range_from e)).
    + constructor; [exact H|]. constructor; [assumption|].
      eapply Forall_impl; [|exact He]. cbv beta. intros; lia.
    + constructor; [now apply IH|].
      eapply Permutation_Forall; [apply insert_by_from_perm|].
      constructor; [lia|assumption].
Qed.

Lemma sort_by_from_sorted l :
  StronglySorted (fun a b => (range_from a <= range_from b)%nat)
                 (sort_by_from l).
Proof.
  induction l as [|d l IH]; cbn; [constructor|].
  now apply insert_by_from_sorted.
Qed.

(** ** Decorations that keep apart *)

Lemma apart_sym a b : apart a b -> apart b a.
Proof. unfold apart. tauto. Qed.

Lemma apart_perm l l' :
  Permutation l l' -> ForallOrdPairs apart l -> ForallOrdPairs apart l'.
Proof.
  induction 1 as [|x l l' P IH|x y l|l l' l'' P1 IH1 P2 IH2]; intros H.
  - constructor.
  - inversion H; subst. constructor; [|auto].
    eapply Permutation_Forall; eassumption.
  - inversion H as [|? ? Hy H']; subst. inversion H' as [|? ? Hx H'']; subst.
    inversion Hy; subst.
    constructor; [constructor; [now apply apart_sym|assumption]|].
    now constructor.
  - auto.
Qed.

Lemma apart_app l1 l2 :
  ForallOrdPairs apart l1 -> ForallOrdPairs apart l2 ->
  (forall a b, In a l1 -> In b l2 -> apart a b) ->
  ForallOrdPairs apart (l1 ++ l2).
Proof.
  induction l1 as [|a l1 IH]; intros H1 H2 Hx; [exact H2|].
  inversion H1; subst. cbn [app]. constructor.
  - apply Forall_app. split; [assumption|].
    apply Forall_forall. intros b Hb. apply Hx; [now left|exact Hb].
  - apply IH; auto. intros; apply Hx; [now right|assumption].
Qed.

(** What an occurrence contributes: nothing, or its widget and its
    mark. *)
Lemma occurrence_overlay_cases LocalTZA format selection_from o now :
  let m := snd o in
  occurrence_overlay LocalTZA format selection_from o now = []
  \/ exists phrase,
       occurrence_overlay LocalTZA format selection_from o now
       = [widget (matched m) phrase (fst (fst o)) (index m);
          mark (index m) (endIndex m)].
Proof.
  destruct o as [[isLink d] m]. cbn [occurrence_overlay snd fst].
  unfold overlay.
  destruct (option_map _ _) as [[|a ph]|]; auto.
  destruct (negb _); eauto.
Qed.

Lemma In_overlays_from LocalTZA clock format selection_from d :
  forall occurrences n,
  In d (overlays_from LocalTZA clock format selection_from occurrences n) ->
  exists o now,
    In o occurrences
    /\ In d (occurrence_overlay LocalTZA format selection_from o now).
Proof.
  induction occurrences as [|o l IH]; intros n H; cbn [overlays_from] in H.
  - contradiction.
  - apply in_app_or in H as [H|H].
    + exists o, (clock n). split; [now left|exact H].
    + destruct (IH _ H) as (o' & now & I & Hd).
      exists o', now. split; [now right|exact Hd].
Qed.

Lemma overlays_from_apart LocalTZA clock format selection_from :
  forall occurrences n,
  ForallOrdPairs spans_apart occurrences ->
  ForallOrdPairs apart
    (overlays_from LocalTZA clock format selection_from occurrences n).
Proof.
  induction occurrences as [|o l IH]; intros n H; cbn [overlays_from].
  - constructor.
  - inversion H as [|? ? Ho Hl]; subst. apply apart_app.
    + destruct (occurrence_overlay_cases LocalTZA format selection_from o
                  (clock n)) as [->|[ph ->]]; [constructor|].
      repeat constructor.
    + now apply IH.
    + intros a b Ha Hb.
      destruct (In_overlays_from _ _ _ _ _ _ _ Hb) as (o' & now & I & Hb').
      rewrite Forall_forall in Ho. specialize (Ho o' I).
      destruct (occurrence_overlay_cases LocalTZA format selection_from o
                  (clock n)) as [E|[ph E]]; rewrite E in Ha;
        [contradiction|].
      destruct (occurrence_overlay_cases LocalTZA format selection_from o'
                  now) as [E'|[ph' E']]; rewrite E' in Hb';
        [contradiction|].
      unfold spans_apart, endIndex in Ho. unfold apart, endIndex.
      cbn in Ha, Hb'.
      destruct Ha as [<-|[<-|[]]]; destruct Hb' as [<-|[<-|[]]];
        cbn; unfold endIndex; lia.
Qed.

(** ** The overlap test *)

Lemma overlaps_false_apart ranges from to bf bt :
  overlaps ranges from to = false -> In (bf, bt) ranges ->
  (to <= bf \/ bt <= from)%nat.
Proof.
  unfold overlaps. intros H I.
  destruct (existsb _ ranges) eqn:X in H; [discriminate|]. clear H.
  assert (T := proj2 (Bool.not_true_iff_false _) X). clear X.
  rewrite existsb_exists in T.
  destruct (Nat.le_gt_cases to bf) as [|G1]; [now left|].
  destruct (Nat.le_gt_cases bt from) as [|G2]; [now right|].
  exfalso. apply T. exists (bf, bt). split; [exact I|]. cbn [fst snd].
  destruct (Nat.leb_spec bf from), (Nat.ltb_spec from bt),
    (Nat.ltb_spec bf to), (Nat.leb_spec to bt),
    (Nat.leb_spec from bf), (Nat.leb_spec bt to); cbn; try reflexivity; lia.
Qed.

(** The test misses no intersection. *)
Lemma overlaps_of_intersects ranges from to bf bt :
  In (bf, bt) ranges -> intersects from to bf bt ->
  overlaps ranges from to = true.
Proof.
  unfold overlaps, intersects. intros I [H1 H2].
  apply existsb_exists. exists (bf, bt). split; [exact I|]. cbn [fst snd].
  destruct (Nat.leb_spec bf from), (Nat.ltb_spec from bt),
    (Nat.ltb_spec bf to), (Nat.leb_spec to bt),
    (Nat.leb_spec from bf), (Nat.leb_spec bt to); cbn; try reflexivity; lia.
Qed.

(** ** The occurrences of a scan keep apart *)

Lemma spans_apart_app l1 l2 :
  ForallOrdPairs spans_apart l1 -> ForallOrdPairs spans_apart l2 ->
  (forall a b, In a l1 -> In b l2 -> spans_apart a b) ->
  ForallOrdPairs spans_apart (l1 ++ l2).
Proof.
  induction l1 as [|a l1 IH]; intros H1 H2 Hx; [exact H2|].
  inversion H1; subst. cbn [app]. constructor.
  - apply Forall_app. split; [assumption|].
    apply Forall_forall. intros b Hb. apply Hx; [now left|exact Hb].
  - apply IH; auto. intros; apply Hx; [now right|assumption].
Qed.

Lemma sorted_spans_apart (f : Match -> bool * jsstring * Match) :
  (forall m, snd (f m) = m) ->
  forall ms,
  StronglySorted (fun a b => (endIndex a <= index b)%nat) ms ->
  ForallOrdPairs spans_apart (map f ms).
Proof.
  intros Hf. induction ms as [|m ms IH]; intros H; cbn [map]; [constructor|].
  inversion H as [|? ? Hs Hm]; subst. constructor; [|now apply IH].
  apply Forall_map. eapply Forall_impl; [|exact Hm]. cbv beta.
  intros m' Hm'. left. now rewrite !Hf.
Qed.

Lemma sorted_filter (keep : Match -> bool) ms :
  StronglySorted (fun a b => (endIndex a <= index b)%nat) ms ->
  StronglySorted (fun a b => (endIndex a <= index b)%nat) (filter keep ms).
Proof.
  induction 1 as [|m ms Hs IH Hm]; cbn [filter]; [constructor|].
  destruct (keep m); [|exact IH].
  constructor; [exact IH|].
  apply Forall_forall. intros m' I. apply filter_In in I as [I _].
  rewrite Forall_forall in Hm. now apply Hm.
Qed.

Lemma formatted_occurrences_apart format text :
  ForallOrdPairs spans_apart (formatted_occurrences format text).
Proof.
  unfold formatted_occurrences. cbv zeta. apply spans_apart_app.
  - apply sorted_spans_apart; [reflexivity|]. apply exec_loop_sorted.
  - apply sorted_spans_apart; [reflexivity|].
    apply sorted_filter, exec_loop_sorted.
  - intros a b Ha Hb.
    apply in_map_iff in Ha as (bm & <- & Ibm).
    apply in_map_iff in Hb as (pm & <- & Ipm).
    apply filter_In in Ipm as [_ K]. apply negb_true_iff in K.
    unfold spans_apart. cbn [snd].
    pose proof (overlaps_false_apart _ _ _ (index bm) (endIndex bm) K) as A.
    destruct A as [A|A]; [|now right|now left].
    apply in_map_iff. now exists bm.
Qed.

(** ** What a match is, and what an occurrence *)

Lemma firstn_length_app {A} (u v : list A) : firstn (length u) (u ++ v) = u.
Proof. induction u; cbn; congruence. Qed.

Lemma skipn_length_app {A} (u v : list A) : skipn (length u) (u ++ v) = v.
Proof. induction u; cbn; congruence. Qed.

(** A match is the stretch of the text at its index. *)
Lemma exec_slice r text lastIndex m :
  exec r text lastIndex = Some m ->
  matched m = firstn (length (matched m)) (skipn (index m) text).
Proof.
  unfold exec. destruct (Nat.ltb_spec (length text) lastIndex); [discriminate|].
  intros S. destruct (search_some _ _ _ _ S) as (b & a & E & I & _).
  rewrite I, Nat.add_comm, <- skipn_skipn, E, skipn_length_app.
  now rewrite firstn_length_app.
Qed.

Lemma exec_loop_Forall r text (P : Match -> Prop) :
  (forall lastIndex m, exec r text lastIndex = Some m -> P m) ->
  forall fuel lastIndex, Forall P (exec_loop fuel r text lastIndex).
Proof.
  intros H. induction fuel as [|fuel IH]; intros li; simpl; [constructor|].
  destruct (exec r text li) as [m|] eqn:E; constructor; eauto.
Qed.

Lemma In_exec_all r text m :
  In m (exec_all r text) ->
  (endIndex m <= length text)%nat
  /\ matched m = firstn (length (matched m)) (skipn (index m) text)
  /\ sem r (matched m) no_captures (groups m).
Proof.
  revert m. apply Forall_forall. apply exec_loop_Forall.
  intros li m E. destruct (exec_some _ _ _ _ E) as (_ & B & S).
  split; [exact B|]. split; [|exact S]. eapply exec_slice; exact E.
Qed.

(** An occurrence is a stretch of the text that holds a date: the date
    itself, or the date in double brackets. *)
Lemma In_formatted_occurrences format text isLink dateString m :
  In (isLink, dateString, m) (formatted_occurrences format text) ->
  (endIndex m <= length text)%nat
  /\ matched m = firstn (length (matched m)) (skipn (index m) text)
  /\ date_shape dateString
  /\ matched m = if isLink then lit "[[" ++ dateString ++ lit "]]"
                 else dateString.
Proof.
  unfold formatted_occurrences. cbv zeta. intros H.
  apply in_app_or in H as [H|H]; apply in_map_iff in H as (m' & E & I);
    inversion E; subst; clear E.
  - destruct (In_exec_all _ _ _ I) as (B & Sl & S).
    destruct (sem_bracketed _ _ _ S) as (d & Hm & Hd & ->).
    auto.
  - apply filter_In in I as [I _].
    destruct (In_exec_all _ _ _ I) as (B & Sl & S).
    repeat split; auto.
    apply sem_lang in S. now apply lang_datePattern.
Qed.

(** ** Phrases are not empty *)

Lemma relativePhrase_nonempty LocalTZA d now :
  relativePhrase LocalTZA d now <> EmptyString.
Proof.
  unfold relativePhrase. destruct d as [parsed|]; [|discriminate].
  cbv zeta.
  repeat match goal with
  | |- context [if ?b then _ else _] => destruct b
  end;
  first [ discriminate
        | cbn [append]; discriminate
        | match goal with
          | |- (Number_toString ?n ++ _)%string <> _ =>
              pose proof (NumberFacts.Number_toString_head n);
              destruct (Number_toString n); [contradiction|discriminate]
          end ].
Qed.

(** ** The overlays of a scan *)

Lemma occurrence_overlay_shown LocalTZA format selection_from o now :
  occurrence_overlay LocalTZA format selection_from o now
  = flat_map overlay_pair
      (shown_overlay LocalTZA format selection_from o now).
Proof.
  destruct o as [[isLink d] m]. cbn [occurrence_overlay shown_overlay].
  unfold overlay.
  destruct (option_map _ _) as [[|a ph]|]; try reflexivity.
  destruct (negb _); reflexivity.
Qed.

Lemma overlays_from_shown LocalTZA clock format selection_from :
  forall occurrences n,
  overlays_from LocalTZA clock format selection_from occurrences n
  = flat_map overlay_pair
      (shown_from LocalTZA clock format selection_from occurrences n).
Proof.
  induction occurrences as [|o l IH]; intros n; cbn [overlays_from shown_from];
    [reflexivity|].
  now rewrite flat_map_app, IH, occurrence_overlay_shown.
Qed.

(** A date is always parsed and phrased: an occurrence is left without
    overlay by the cursor only. *)
Lemma shown_overlay_of_date LocalTZA format selection_from isLink d m now :
  date_shape d ->
  exists date,
    parseDateString LocalTZA d format = Some date
    /\ shown_overlay LocalTZA format selection_from (isLink, d, m) now
       = if ((index m <=? selection_from)
             && (selection_from <=? endIndex m))%nat
         then []
         else [(matched m, relativePhrase LocalTZA date now, isLink, index m)].
Proof.
  intros H. destruct (date_shape_parses LocalTZA format d H) as (t & P).
  exists (TimeValue t). split; [exact P|].
  cbn [shown_overlay]. rewrite P. cbn [option_map].
  pose proof (relativePhrase_nonempty LocalTZA (TimeValue t) now) as N.
  destruct (relativePhrase LocalTZA (TimeValue t) now); [congruence|].
  now destruct (_ && _)%bool.
Qed.

Lemma In_shown_from LocalTZA clock format selection_from s :
  forall occurrences n,
  In s (shown_from LocalTZA clock format selection_from occurrences n) ->
  exists o k,
    In o occurrences /\ (n <= k < n + length occurrences)%nat
    /\ In s (shown_overlay LocalTZA format selection_from o (clock k)).
Proof.
  induction occurrences as [|o l IH]; intros n H; cbn [shown_from] in H.
  - contradiction.
  - apply in_app_or in H as [H|H].
    + exists o, n. split; [now left|]. split; [simpl; lia|exact H].
    + destruct (IH _ H) as (o' & k & I & B & Hs).
      exists o', k. split; [now right|]. split; [simpl; lia|exact Hs].
Qed.

(** Every occurrence has an entry in the list unless the cursor is on
    it. *)
Lemma shown_from_complete LocalTZA clock format selection_from
    isLink d m :
  date_shape d ->
  ~ (index m <= selection_from <= endIndex m)%nat ->
  forall occurrences n,
  In (isLink, d, m) occurrences ->
  exists phrase,
    In (matched m, phrase, isLink, index m)
       (shown_from LocalTZA clock format selection_from occurrences n).
Proof.
  intros Hd Hc. induction occurrences as [|o l IH]; intros n I; [contradiction|].
  cbn [shown_from]. destruct I as [->|I].
  - destruct (shown_overlay_of_date LocalTZA format selection_from isLink d m
                (clock n) Hd) as (date & _ & ->).
    replace ((index m <=? selection_from)
             && (selection_from <=? endIndex m))%nat with false.
    + eexists. apply in_or_app. left. now left.
    + symmetry. apply andb_false_iff.
      destruct (Nat.leb_spec (index m) selection_from),
               (Nat.leb_spec selection_from (endIndex m)); auto; lia.
  - destruct (IH (S n) I) as (ph & H). exists ph. apply in_or_app. now right.
Qed.

(** ** Sorting keeps the two decorations of an overlay together *)

Lemma insert_pair o : forall l,
  insert_by_from (widget (fst (fst (fst o))) (snd (fst (fst o)))
                    (snd (fst o)) (snd o))
    (insert_by_from (mark (overlay_from o) (overlay_to o))
       (flat_map overlay_pair l))
  = flat_map overlay_pair (insert_overlay o l).
Proof.
  induction l as [|e l IH];
    [cbn; unfold overlay_from; now rewrite Nat.leb_refl|].
  cbn [flat_map overlay_pair app insert_by_from insert_overlay range_from].
  unfold overlay_from in *.
  destruct (snd o <=? snd e)%nat eqn:L;
    repeat (cbn [insert_by_from range_from flat_map overlay_pair app];
            unfold overlay_from; rewrite ?L, ?Nat.leb_refl);
    [reflexivity|].
  unfold overlay_from in IH. now rewrite IH.
Qed.

Lemma sort_by_from_pairs : forall l,
  sort_by_from (flat_map overlay_pair l)
  = flat_map overlay_pair (sort_overlays l).
Proof.
  induction l as [|o l IH]; [reflexivity|].
  cbn [flat_map overlay_pair app]. unfold sort_by_from in *.
  cbn [fold_right]. rewrite IH. apply insert_pair.
Qed.

Lemma insert_overlay_perm o : forall l,
  Permutation (o :: l) (insert_overlay o l).
Proof.
  induction l as [|e l IH]; cbn [insert_overlay]; [reflexivity|].
  destruct (overlay_from o <=? overlay_from e)%nat; [reflexivity|].
  rewrite perm_swap. now constructor.
Qed.

Lemma sort_overlays_perm l : Permutation l (sort_overlays l).
Proof.
  induction l as [|d l IH]; cbn; [constructor|].
  rewrite <- insert_overlay_perm. now constructor.
Qed.

Lemma insert_overlay_sorted o : forall l,
  StronglySorted (fun a b => (overlay_from a <= overlay_from b)%nat) l ->
  StronglySorted (fun a b => (overlay_from a <= overlay_from b)%nat)
                 (insert_overlay o l).
Proof.
  induction l as [|e l IH]; intros H; cbn [insert_overlay].
  - repeat constructor.
  - inversion H as [|? ? Hl He]; subst.
    destruct (Nat.leb_spec (overlay_from o) (overlay_from e)).
    + constructor; [exact H|]. constructor; [assumption|].
      eapply Forall_impl; [|exact He]. cbv beta. intros; lia.
    + constructor; [now apply IH|].
      eapply Permutation_Forall; [apply insert_overlay_perm|].
      constructor; [lia|assumption].
Qed.

Lemma sort_overlays_sorted l :
  StronglySorted (fun a b => (overlay_from a <= overlay_from b)%nat)
                 (sort_overlays l).
Proof.
  induction l as [|d l IH]; cbn; [constructor|].
  now apply insert_overlay_sorted.
Qed.

Lemma keep_apart_perm l l' :
  Permutation l l' ->
  ForallOrdPairs overlays_keep_apart l -> ForallOrdPairs overlays_keep_apart l'.
Proof.
  induction 1 as [|x l l' P IH|x y l|l l' l'' P1 IH1 P2 IH2]; intros H.
  - constructor.
  - inversion H; subst. constructor; [|auto].
    eapply Permutation_Forall; eassumption.
  - inversion H as [|? ? Hy H']; subst. inversion H' as [|? ? Hx H'']; subst.
    inversion Hy as [|? ? Hyx Hyl]; subst.
    constructor; [constructor; [|assumption]|now constructor].
    unfold overlays_keep_apart in *. tauto.
  - auto.
Qed.

(** Overlays of non-empty texts that keep apart and are in the order of
    their positions follow one another. *)
Lemma sorted_apart_follow l :
  StronglySorted (fun a b => (overlay_from a <= overlay_from b)%nat) l ->
  ForallOrdPairs overlays_keep_apart l ->
  Forall (fun a => (overlay_from a < overlay_to a)%nat) l ->
  StronglySorted (fun a b => (overlay_to a <= overlay_from b)%nat) l.
Proof.
  induction 1 as [|a l Hs IH Ha]; intros Hp Hn; [constructor|].
  inversion Hp as [|? ? Hap Hp']; subst. inversion Hn as [|? ? Hna Hn']; subst.
  constructor; [now apply IH|].
  rewrite Forall_forall in *. intros b I.
  specialize (Ha b I). specialize (Hap b I). specialize (Hn' b I).
  unfold overlays_keep_apart in Hap. lia.
Qed.

Lemma shown_overlay_cases LocalTZA format selection_from o now :
  shown_overlay LocalTZA format selection_from o now = []
  \/ exists phrase,
       shown_overlay LocalTZA format selection_from o now
       = [(matched (snd o), phrase, fst (fst o), index (snd o))].
Proof.
  destruct o as [[isLink d] m]. cbn [shown_overlay snd fst].
  destruct (option_map _ _) as [[|a ph]|]; auto.
  destruct (negb _); eauto.
Qed.

Lemma shown_from_apart LocalTZA clock format selection_from :
  forall occurrences n,
  ForallOrdPairs spans_apart occurrences ->
  ForallOrdPairs overlays_keep_apart
    (shown_from LocalTZA clock format selection_from occurrences n).
Proof.
  induction occurrences as [|o l IH]; intros n H; cbn [shown_from];
    [constructor|].
  inversion H as [|? ? Ho Hl]; subst.
  destruct (shown_overlay_cases LocalTZA format selection_from o (clock n))
    as [->|[ph ->]]; cbn [app]; [now apply IH|].
  constructor; [|now apply IH].
  apply Forall_forall. intros s Hs.
  destruct (In_shown_from _ _ _ _ _ _ _ Hs) as (o' & k & I & _ & Hs').
  rewrite Forall_forall in Ho. specialize (Ho o' I).
  destruct (shown_overlay_cases LocalTZA format selection_from o' (clock k))
    as [E|[ph' E]]; rewrite E in Hs'; [contradiction|].
  destruct Hs' as [<-|[]].
  unfold spans_apart, endIndex in Ho.
  unfold overlays_keep_apart, overlay_from, overlay_to. cbn [fst snd]. exact Ho.
Qed.

(** The overlays of a scan, in the order of the text. *)
Lemma buildDecorations_shown LocalTZA clock format text selection_from n :
  fst (buildDecorations LocalTZA clock format text selection_from n)
  = flat_map overlay_pair
      (sort_overlays
         (shown_from LocalTZA clock format selection_from
            (formatted_occurrences format text) n)).
Proof.
  rewrite buildDecorations_reads. cbn [fst].
  now rewrite overlays_from_shown, sort_by_from_pairs.
Qed.

Lemma In_buildDecorations LocalTZA clock format text selection_from n s :
  In s (shown_from LocalTZA clock format selection_from
          (formatted_occurrences format text) n) ->
  In (widget (fst (fst (fst s))) (snd (fst (fst s))) (snd (fst s)) (snd s))
     (fst (buildDecorations LocalTZA clock format text selection_from n))
  /\ In (mark (overlay_from s) (overlay_to s))
        (fst (buildDecorations LocalTZA clock format text selection_from n)).
Proof.
  intros H. rewrite buildDecorations_shown.
  apply (Permutation_in _ (sort_overlays_perm _)) in H.
  split; apply in_flat_map; exists s; (split; [exact H|]); cbn; auto.
Qed.

(** The test of the plain loop fails on a span that meets no recorded
    range. *)
Lemma overlaps_false_of_apart ranges from to :
  (from < to)%nat ->
  (forall bf bt, In (bf, bt) ranges ->
     (bf < bt)%nat /\ ~ intersects from to bf bt) ->
  overlaps ranges from to = false.
Proof.
  intros L H. unfold overlaps.
  destruct (existsb _ ranges) eqn:E; [|reflexivity]. exfalso.
  apply existsb_exists in E as ([bf bt] & I & T).
  destruct (H bf bt I) as [Lb N]. apply N. unfold intersects.
  cbn [fst snd] in T.
  repeat match type of T with
  | (_ || _)%bool = true => apply orb_prop in T; destruct T as [T|T]
  end;
    apply andb_prop in T as [T1 T2];
    repeat match goal with
    | X : (_ <=? _)%nat = true |- _ => apply Nat.leb_le in X
    | X : (_ <? _)%nat = true |- _ => apply Nat.ltb_lt in X
    end; lia.
Qed.

(** The scans of a text with no date find nothing. *)
Lemma no_date_no_match format text :
  ~ conforms text ->
  exec_all (createDateRegex format) text = []
  /\ exec_all (createBracketedDateRegex format) text = [].
Proof.
  intros N. unfold exec_all. cbn [exec_loop]. rewrite !exec_from_0. split.
  - destruct (search (createDateRegex format) text 0) as [m|] eqn:E;
      [|reflexivity].
    exfalso. apply N. eapply string_match_conforms. exact E.
  - destruct (search (createBracketedDateRegex format) text 0) as [m|] eqn:E;
      [|reflexivity].
    exfalso. apply N.
    destruct (search_some _ _ _ _ E) as (b & a & Et & _ & S & _).
    destruct (sem_bracketed _ _ _ S) as (d & Em & Hd & _).
    exists (b ++ lit "[["), d, (lit "]]" ++ a). split; [|exact Hd].
    rewrite Et, Em. now rewrite <- !app_assoc.
Qed.

(** The plain scan of a text with a date finds one. *)
Lemma date_is_found format text :
  conforms text -> exec_all (createDateRegex format) text <> [].
Proof.
  intros C. apply conforms_string_match in C.
  unfold exec_all. cbn [exec_loop]. rewrite exec_from_0.
  unfold string_match in C. unfold createDateRegex.
  destruct (search datePattern text 0); [discriminate|congruence].
Qed.

End ScanFacts.

(* ================================================================= *)
(** * A date anywhere in a text *)

Module OccurrenceFacts.
Import RegexFacts PatternFacts ParserFacts ScanFacts.

(** The character [h] of [u1 ++ h :: u2] is not in [A]: it is in what
    follows [A]. *)
Lemma peel (h : char) : forall A u1 u2 B,
  Forall (fun c => c <> h) A ->
  u1 ++ h :: u2 = A ++ B ->
  exists u1', u1 = A ++ u1' /\ u1' ++ h :: u2 = B.
Proof.
  induction A as [|a A IH]; intros u1 u2 B HA E.
  - exists u1. auto.
  - inversion HA as [|? ? Ha HA']; subst.
    destruct u1 as [|x u1]; cbn in E; inversion E; subst; [congruence|].
    destruct (IH u1 u2 B HA' H1) as (u1' & -> & E'). exists u1'. auto.
Qed.

Lemma avoids (p : char -> bool) (h : char) u :
  p h = false -> forallb p u = true -> Forall (fun c => c <> h) u.
Proof.
  intros Hh H. apply Forall_forall. intros c I ->.
  rewrite forallb_forall in H. specialize (H h I). congruence.
Qed.

Lemma name_letters n :
  In n dayNames \/ In n monthNames ->
  exists a r, n = a :: r /\ forallb is_lower r = true /\ length n = 3%nat.
Proof.
  intros [H|H]; simpl in H;
    repeat (destruct H as [<-|H];
            [eexists _, _; split; [reflexivity|split; reflexivity]|]);
    contradiction.
Qed.

Lemma weekday_initial wd :
  In wd dayNames ->
  exists h r, wd = h :: r /\ is_space h = false /\ is_digit h = false
              /\ is_lower h = false /\ h <> 58%N.
Proof.
  intros H; simpl in H;
    repeat (destruct H as [<-|H];
            [eexists _, _; split; [reflexivity|];
             repeat split; try reflexivity; discriminate|]);
    contradiction.
Qed.

Lemma no_name_of_both n : In n dayNames -> In n monthNames -> False.
Proof.
  intros Hd Hm. simpl in Hd.
  repeat (destruct Hd as [<-|Hd];
          [simpl in Hm;
           repeat (destruct Hm as [Hm|Hm]; [discriminate Hm|]);
           contradiction|]).
  contradiction.
Qed.

(** No weekday name starts inside a date. *)
Lemma no_weekday_inside_date u u1 u2 wd tail q :
  date_shape u -> In wd dayNames ->
  u = u1 ++ u2 -> u1 <> [] -> u2 ++ q = wd ++ tail -> u2 = [].
Proof.
  intros (wd' & ws1 & mn & ws2 & dd & ws3 & yyyy & time & -> & Hwd' & (S1 & _)
          & Hmn & (S2 & _) & (D1 & _) & (S3 & _) & (D2 & _) & T) Hwd E N1 E2.
  destruct u2 as [|h u2]; [reflexivity|]. exfalso.
  destruct (weekday_initial wd Hwd) as (h' & r & Ewd & Hs & Hd & Hl & Hc).
  assert (h' = h) by (subst wd; cbn in E2; inversion E2; reflexivity).
  subst h'.
  destruct (name_letters wd' (or_introl Hwd')) as (a & r' & -> & Lr' & _).
  destruct u1 as [|x u1]; [congruence|]. cbn in E. inversion E as [[Ea E']].
  clear E. symmetry in E'.
  apply peel in E' as (v1 & -> & E'); [|now apply (avoids is_lower)].
  apply peel in E' as (v2 & -> & E'); [|now apply (avoids is_space)].
  destruct (name_letters mn (or_intror Hmn)) as (b & rm & Emn & Lrm & Lmn).
  destruct v2 as [|y v2].
  - (* the rest of the date starts with the month name: a weekday name *)
    cbn [app] in E'. apply (no_name_of_both mn); [|exact Hmn].
    destruct (name_letters wd (or_introl Hwd)) as (? & ? & _ & _ & Lwd).
    assert (F : firstn 3 ((h :: u2) ++ q) = firstn 3 (wd ++ tail))
      by now rewrite E2.
    assert (F1 : firstn 3 (mn ++ (ws2 ++ dd ++ ws3 ++ yyyy ++ time) ++ q) = mn)
      by (rewrite <- Lmn; apply firstn_length_app).
    assert (F2 : firstn 3 (wd ++ tail) = wd)
      by (rewrite <- Lwd; apply firstn_length_app).
    rewrite E', <- app_assoc, F1, F2 in F. rewrite F. exact Hwd.
  - rewrite Emn in E'. cbn in E'. inversion E' as [[Ey E'']]. clear E'.
    apply peel in E'' as (v3 & -> & E'); [|now apply (avoids is_lower)].
    apply peel in E' as (v4 & -> & E'); [|now apply (avoids is_space)].
    apply peel in E' as (v5 & -> & E'); [|now apply (avoids is_digit)].
    apply peel in E' as (v6 & -> & E'); [|now apply (avoids is_space)].
    apply peel in E' as (v7 & -> & E'); [|now apply (avoids is_digit)].
    destruct T as [->|(ws4 & hh & mm & -> & (S4 & _) & (D3 & _) & (D4 & _))].
    + destruct v7; discriminate E'.
    + apply peel in E' as (v8 & -> & E'); [|now apply (avoids is_space)].
      apply peel in E' as (v9 & -> & E'); [|now apply (avoids is_digit)].
      apply (peel h (lit ":")) in E' as (v10 & -> & E');
        [|repeat constructor; intros X; apply Hc; now rewrite <- X].
      rewrite <- (app_nil_r mm) in E'.
      apply peel in E' as (v11 & -> & E'); [|now apply (avoids is_digit)].
      destruct v11; discriminate E'.
Qed.

(** An occurrence that starts before a date of the text ends before
    it. *)
Lemma occurrence_before_date (before wd tail p u q : jsstring) :
  In wd dayNames -> date_shape u ->
  p ++ u ++ q = before ++ wd ++ tail ->
  (length p < length before)%nat ->
  (length p + length u <= length before)%nat.
Proof.
  intros Hwd Hu E L.
  apply app_eq_app in E as (l & [[-> _]|[-> E]]).
  - rewrite length_app in L. lia.
  - rewrite length_app in *.
    apply app_eq_app in E as (l' & [[-> E]|[-> _]]).
    + destruct l as [|x l]; [simpl in L; lia|].
      rewrite (no_weekday_inside_date _ (x :: l) l' wd tail q Hu Hwd eq_refl)
        by (try discriminate; now symmetry).
      rewrite app_nil_r. lia.
    + rewrite length_app. lia.
Qed.

(** A match of the loop is a match of the pattern where it starts. *)
Lemma exec_here r text lastIndex m :
  exec r text lastIndex = Some m ->
  match_here r (skipn (index m) text)
  = Some (skipn (endIndex m) text, groups m).
Proof.
  unfold exec. destruct (Nat.ltb_spec (length text) lastIndex); [discriminate|].
  intros S. destruct (search_some _ _ _ _ S) as (b & a & E & I & _ & M & _).
  assert (E1 : skipn (index m) text = matched m ++ a).
  { rewrite I, Nat.add_comm, <- skipn_skipn, E. apply skipn_length_app. }
  assert (E2 : skipn (endIndex m) text = a).
  { unfold endIndex. rewrite Nat.add_comm, <- skipn_skipn, E1.
    apply skipn_length_app. }
  now rewrite E1, E2.
Qed.

Lemma In_exec_all_here r text m :
  In m (exec_all r text) ->
  match_here r (skipn (index m) text)
  = Some (skipn (endIndex m) text, groups m).
Proof.
  revert m. apply Forall_forall. apply exec_loop_Forall.
  intros li m E. eapply exec_here; exact E.
Qed.

(** The loop reaches a position at which the pattern matches, unless
    an earlier occurrence runs across it. *)
Lemma exec_loop_reaches r text position rest c :
  (forall u, lang r u -> u <> []) ->
  (position <= length text)%nat ->
  match_here r (skipn position text) = Some (rest, c) ->
  (forall p u q, text = p ++ u ++ q -> lang r u ->
     (length p < position)%nat -> (length p + length u <= position)%nat) ->
  forall fuel lastIndex,
  (lastIndex <= position)%nat -> (length text < lastIndex + fuel)%nat ->
  exists m,
    In m (exec_loop fuel r text lastIndex)
    /\ index m = position
    /\ matched m = consumed (skipn position text) rest
    /\ groups m = c.
Proof.
  intros Hne Hpos Hhere Hacross.
  induction fuel as [|fuel IH]; intros li Hli Hfuel; [lia|].
  cbn [exec_loop]. unfold exec.
  destruct (Nat.ltb_spec (length text) li) as [|_]; [lia|].
  assert (Esk : skipn (position - li) (skipn li text) = skipn position text).
  { rewrite skipn_skipn. f_equal. lia. }
  destruct (search r (skipn li text) li) as [m|] eqn:S.
  - destruct (search_some _ _ _ _ S) as (b & a & E & I & Hs & M & Hfirst).
    destruct (Nat.lt_trichotomy (length b) (position - li)) as [Lt|[Eq|Gt]].
    + (* an earlier occurrence: it ends before the position *)
      assert (Hend : (endIndex m <= position)%nat).
      { unfold endIndex. rewrite I.
        replace (li + length b)%nat
          with (length (firstn li text ++ b))
          by (rewrite length_app, length_firstn; lia).
        apply (Hacross _ _ a).
        - rewrite <- app_assoc, <- E. symmetry. apply firstn_skipn.
        - eapply sem_lang; exact Hs.
        - rewrite length_app, length_firstn. lia. }
      assert (Hm : matched m <> []) by (eapply Hne, sem_lang; exact Hs).
      destruct (IH (endIndex m)) as (m' & Im & Rest); [exact Hend| |].
      * unfold endIndex. destruct (matched m); [congruence|]. simpl. lia.
      * exists m'. split; [now right|exact Rest].
    + (* the occurrence at the position *)
      rewrite <- Eq, E, skipn_length_app in Esk.
      rewrite <- Esk in Hhere. rewrite M in Hhere.
      inversion Hhere; subst rest c.
      exists m. split; [now left|]. split; [lia|].
      split; [|reflexivity]. rewrite <- Esk. now rewrite consumed_app.
    + specialize (Hfirst _ Gt). rewrite Esk in Hfirst. congruence.
  - exfalso. destruct (match_here_some _ _ _ _ Hhere) as (u & E & Hs).
    apply (search_none _ _ _ S (firstn (position - li) (skipn li text)) u rest).
    + rewrite <- E, <- Esk. symmetry. apply firstn_skipn.
    + eapply sem_lang; exact Hs.
Qed.

(** A date followed by something that starts no time is an occurrence
    of the plain scan, wherever it stands in the text. *)
Lemma date_is_an_occurrence before wd ws1 mn ws2 dd ws3 yyyy rest :
  In wd dayNames -> spaces ws1 -> In mn monthNames -> spaces ws2 ->
  digits 1 2 dd -> spaces ws3 -> digits 4 4 yyyy ->
  match rest with y :: _ => is_space y = false | [] => True end ->
  exists m,
    In m (exec_all datePattern
            (before ++ (wd ++ ws1 ++ mn ++ ws2 ++ dd ++ ws3 ++ yyyy) ++ rest))
    /\ index m = length before
    /\ matched m = wd ++ ws1 ++ mn ++ ws2 ++ dd ++ ws3 ++ yyyy.
Proof.
  intros Hwd H1 Hmn H2 Hdd H3 Hy Hrest.
  destruct (match_here_date wd ws1 mn ws2 dd ws3 yyyy rest)
    as [caps M]; auto.
  set (date := wd ++ ws1 ++ mn ++ ws2 ++ dd ++ ws3 ++ yyyy).
  assert (E : wd ++ ws1 ++ mn ++ ws2 ++ dd ++ ws3 ++ yyyy ++ rest
              = date ++ rest).
  { subst date. now rewrite <- !app_assoc. }
  rewrite E in M.
  destruct (exec_loop_reaches datePattern (before ++ date ++ rest)
              (length before) rest caps) with (fuel := S (length
                (before ++ date ++ rest))) (lastIndex := 0%nat)
    as (m & Im & Hi & Hm & _).
  - intros u Hu. now apply date_shape_nonempty, lang_datePattern.
  - rewrite length_app. lia.
  - now rewrite skipn_length_app.
  - intros p u q Et Hu L.
    apply (occurrence_before_date before wd
             (ws1 ++ mn ++ ws2 ++ dd ++ ws3 ++ yyyy ++ rest) p u q);
      auto.
    + now apply lang_datePattern.
    + rewrite <- Et, E. reflexivity.
  - lia.
  - lia.
  - exists m. split; [exact Im|]. split; [exact Hi|].
    rewrite Hm, skipn_length_app. apply consumed_app.
Qed.

End OccurrenceFacts.

(* ================================================================= *)
(** * The properties of the specification *)

Section Properties.

Import RegexFacts PatternFacts ParserFacts NumberFacts DateFacts FormatterFacts
  ScanFacts.
Local Open Scope string_scope.
Local Open Scope Z_scope.

(** The phrase for [dateString] in a zone [off] ahead of UTC, the clock
    standing at the local time that is [now] on a host on UTC. *)
Lemma formatDateAsHumanReadable_fixed off now format dateString n :
  formatDateAsHumanReadable (fixed_zone off) (still (now - off)) format
    dateString n
  = formatDateAsHumanReadable utc (still now) format dateString n.
Proof.
  unfold formatDateAsHumanReadable. rewrite parseDateString_shift.
  destruct (parseDateString utc dateString format) as [[p|]|];
    cbn [option_map shift_date]; try reflexivity.
  unfold bind, new_Date_now, ret, still. now rewrite relativePhrase_shift.
Qed.

(** C1, as the code has it.  With the clock at Fri Aug 29 2025 14:50
    local time, in any zone of constant offset, ["Fri Aug 29 2025
    14:55"] reads "In 5 mins" (five minutes is not less than five),
    ["Fri Aug 29 2025 12:00"] reads "3 hours ago" (2 h 50 min rounds to
    3), ["Thu Aug 28 2025"] reads "Yesterday", and the date inside
    ["[[Sun Aug 31 2025]]"] reads "In 2 days". *)
Theorem end_to_end_example (offset : Z) (format : jsstring) (n : nat) :
  let tz := fixed_zone offset in
  let clock := still (fri_aug_29_2025_14_50 offset) in
  let phrase s := fst (formatDateAsHumanReadable tz clock format (lit s) n) in
  phrase "Fri Aug 29 2025 14:55" = Some "In 5 mins"
  /\ phrase "Fri Aug 29 2025 12:00" = Some "3 hours ago"
  /\ phrase "Thu Aug 28 2025" = Some "Yesterday"
  /\ option_map (fun m => groups m 1%nat)
       (exec (createBracketedDateRegex format) (lit "[[Sun Aug 31 2025]]") 0)
     = Some (Some (lit "Sun Aug 31 2025"))
  /\ phrase "Sun Aug 31 2025" = Some "In 2 days".
Proof.
  cbv zeta. unfold fri_aug_29_2025_14_50.
  rewrite time_of_fields_fixed, !formatDateAsHumanReadable_fixed.
  repeat split; vm_compute; reflexivity.
Qed.

(** C1 as stated fails on a host on UTC: the first two phrases are not
    "Now" and "2 hours ago". *)
Lemma end_to_end_example_as_stated_fails :
  let clock := still (fri_aug_29_2025_14_50 0) in
  let phrase s :=
    fst (formatDateAsHumanReadable utc clock [] (lit s) 0%nat) in
  ~ (phrase "Fri Aug 29 2025 14:55" = Some "Now"
     /\ phrase "Fri Aug 29 2025 12:00" = Some "2 hours ago"
     /\ phrase "Thu Aug 28 2025" = Some "Yesterday"
     /\ phrase "Sun Aug 31 2025" = Some "In 2 days").
Proof.
  cbv zeta. intros [H _]. vm_compute in H. discriminate H.
Qed.

(** C2, at the input on which the code departs from it.  ["Mon Jan 0
    0100"] is Dec 31 of the year 99; [new Date(99, 11, 31)] is Dec 31
    1999, not the midnight that starts the parsed date, and [diffDays]
    seen from Aug 29 2025 is -9373 where the dates truncated to local
    midnight lie 703333 days apart. *)
Theorem midnight_of_two_digit_year :
  let now := fri_aug_29_2025_14_50 0 in
  exists parsed,
    parseDateString utc (lit "Mon Jan 0 0100") [] = Some (TimeValue parsed)
    /\ (getFullYear utc parsed, getMonth utc parsed, getDate utc parsed)
       = (99, 11, 31)
    /\ truncate_to_midnight utc parsed = parsed
    /\ midnight utc parsed = time_of_fields utc 1999 11 31 0 0
    /\ diffDays utc parsed now = -9373
    /\ round_half_away_from_zero
         (inject_Z (truncate_to_midnight utc parsed
                    - truncate_to_midnight utc now) / inject_Z msPerDay)
       = -703333
    /\ relativePhrase utc (TimeValue parsed) now = "26 years ago".
Proof.
  cbv zeta. eexists. split; [vm_compute; reflexivity|].
  repeat split; vm_compute; reflexivity.
Qed.

(** The minute/hour tier is used exactly for a date with a time
    component less than 24 hours away: the phrase is "Now" or a count
    of minutes or hours in that case and in no other. *)
Lemma minute_hour_tier_iff (LocalTZA : Z -> bool -> Z) (parsed now : Z) :
  is_minute_hour_phrase (relativePhrase LocalTZA (TimeValue parsed) now)
  = hasTimeComponent LocalTZA parsed && Qltb (Qabs (diffHours parsed now)) 24.
Proof.
  unfold relativePhrase. cbv zeta.
  destruct (hasTimeComponent LocalTZA parsed
            && Qltb (Qabs (diffHours parsed now)) 24).
  - repeat match goal with
    | |- context [if ?b then _ else _] => destruct b
    end; phrase_kind.
  - repeat match goal with
    | |- context [if ?b then _ else _] => destruct b
    end; phrase_kind.
Qed.

(** C3, as the code has it.  The phrase is one of the minute/hour tier
    exactly when the date has a time component and lies less than 24
    hours away.  A midnight-only date three hours ahead is never given
    an hour phrase; it is seen from 21:00 of the day before, so in a
    zone of constant offset the day tier reads "Tomorrow". *)
Theorem minute_hour_tier_only_with_time
    (LocalTZA : Z -> bool -> Z) (parsed now : Z) :
  let phrase := relativePhrase LocalTZA (TimeValue parsed) now in
  (is_minute_hour_phrase phrase = true
   <-> hasTimeComponent LocalTZA parsed = true
       /\ Qltb (Qabs (diffHours parsed now)) 24 = true)
  /\ (hasTimeComponent LocalTZA parsed = false ->
      is_minute_hour_phrase phrase = false)
  /\ (forall offset day,
        LocalTZA = fixed_zone offset ->
        parsed = day * msPerDay - offset ->
        now = parsed - 3 * msPerHour ->
        ~ (0 <= getFullYear LocalTZA parsed <= 99) ->
        ~ (0 <= getFullYear LocalTZA now <= 99) ->
        hasTimeComponent LocalTZA parsed = false /\ phrase = "Tomorrow").
Proof.
  cbv zeta. rewrite minute_hour_tier_iff. split; [|split].
  - apply andb_true_iff.
  - intros ->. reflexivity.
  - intros offset day -> -> -> Hp Hn.
    destruct (midnight_seen_three_hours_before offset day Hp Hn) as [Ht Hd].
    split; [exact Ht|].
    unfold relativePhrase. cbv zeta. rewrite Ht, Hd. reflexivity.
Qed.

(** ["Sat Aug 30 2025"] seen on Fri Aug 29 2025 at 21:00. *)
Lemma minute_hour_tier_only_with_time_witness :
  let parsed := time_of_fields utc 2025 7 30 0 0 in
  let now := parsed - 3 * msPerHour in
  hasTimeComponent utc parsed = false
  /\ relativePhrase utc (TimeValue parsed) now = "Tomorrow".
Proof.
  cbv zeta.
  apply (proj2 (proj2 (minute_hour_tier_only_with_time utc
           (time_of_fields utc 2025 7 30 0 0)
           (time_of_fields utc 2025 7 30 0 0 - 3 * msPerHour)))
         0 20330); try reflexivity; vm_compute; intros [H1 H2];
    first [now elim H1 | now elim H2].
Defined.

(** C3 as stated fails: the midnight-only date three hours ahead is
    not "Today". *)
Lemma midnight_three_hours_ahead_is_not_today :
  let parsed := time_of_fields utc 2025 7 30 0 0 in
  let now := parsed - 3 * msPerHour in
  parseDateString utc (lit "Sat Aug 30 2025") [] = Some (TimeValue parsed)
  /\ hasTimeComponent utc parsed = false
  /\ relativePhrase utc (TimeValue parsed) now <> "Today".
Proof.
  cbv zeta. repeat split; try (vm_compute; reflexivity).
  vm_compute. discriminate.
Qed.

(** C4, as the code has it.  The phrase is a function of the parsed
    date and of the one reading of the clock that the call takes; but
    the clock is read by every call of the formatter, once per occurrence
    that the scan formats: the occurrences of a scan are formatted at
    consecutive readings, and see one and the same now only as far as
    the clock stands still between them. *)
Theorem now_is_read_per_occurrence
    (LocalTZA : Z -> bool -> Z) (clock : nat -> Z)
    (format text : jsstring) (selection_from n : nat) :
  let occurrences := formatted_occurrences format text in
  (forall dateString k,
     formatDateAsHumanReadable LocalTZA clock format dateString k
     = match parseDateString LocalTZA dateString format with
       | Some d => (Some (relativePhrase LocalTZA d (clock k)), S k)
       | None => (None, k)
       end)
  /\ buildDecorations LocalTZA clock format text selection_from n
     = (sort_by_from
          (overlays_from LocalTZA clock format selection_from occurrences n),
        (n + length occurrences)%nat)
  /\ (forall now,
        (forall i, (i < length occurrences)%nat -> clock (n + i)%nat = now) ->
        fst (buildDecorations LocalTZA clock format text selection_from n)
        = fst (buildDecorations LocalTZA (still now) format text
                 selection_from n)).
Proof.
  cbv zeta. split; [|split].
  - intros. apply formatDateAsHumanReadable_reads.
  - apply buildDecorations_reads.
  - intros now H. rewrite !buildDecorations_reads. cbn [fst]. f_equal.
    apply overlays_from_ext. intros i Hi. now rewrite (H i Hi).
Qed.

(** A clock that stands still while the scan of [twice] reads it. *)
Lemma now_is_read_per_occurrence_witness :
  let now := fri_aug_29_2025_14_50 0 in
  let clock i := if (i <? 2)%nat then now else now + 86400000 in
  fst (buildDecorations utc clock [] twice 100 0%nat)
  = fst (buildDecorations utc (still now) [] twice 100 0%nat).
Proof.
  cbv zeta.
  apply (proj2 (proj2 (now_is_read_per_occurrence utc
           (fun i => if (i <? 2)%nat then fri_aug_29_2025_14_50 0
                     else fri_aug_29_2025_14_50 0 + 86400000)
           [] twice 100 0%nat))).
  intros i Hi. destruct i as [|[|i]]; [reflexivity|reflexivity|].
  exfalso. vm_compute in Hi. lia.
Defined.

(** C4 as stated fails: in one scan of a text with the same date twice
    the two occurrences are formatted at different readings of the
    clock, "In 5 mins" and "Now"; no scan that reads the clock once
    gives that. *)
Lemma one_scan_sees_two_nows :
  let d := lit "Fri Aug 29 2025 14:55" in
  let scan := fst (buildDecorations utc ticking [] twice 100 0%nat) in
  scan = [widget d "In 5 mins" false 0; mark 0 21;
          widget d "Now" false 22; mark 22 43]
  /\ forall now,
       scan <> fst (buildDecorations utc (still now) [] twice 100 0%nat).
Proof.
  cbv zeta.
  assert (S : fst (buildDecorations utc ticking [] twice 100 0%nat)
              = [widget (lit "Fri Aug 29 2025 14:55") "In 5 mins" false 0;
                 mark 0 21;
                 widget (lit "Fri Aug 29 2025 14:55") "Now" false 22;
                 mark 22 43]) by (vm_compute; reflexivity).
  split; [exact S|]. rewrite S. clear S. intros now E.
  rewrite buildDecorations_reads in E. cbn [fst] in E.
  assert (F : exists m1 m2,
             formatted_occurrences [] twice
             = [(false, lit "Fri Aug 29 2025 14:55", m1);
                (false, lit "Fri Aug 29 2025 14:55", m2)]
             /\ (index m1 = 0 /\ endIndex m1 = 21)%nat
             /\ (index m2 = 22 /\ endIndex m2 = 43)%nat).
  { vm_compute. do 2 eexists. repeat split. }
  destruct F as (m1 & m2 & F & (I1 & E1) & (I2 & E2)).
  rewrite F in E. cbn [overlays_from occurrence_overlay] in E.
  assert (P : parseDateString utc (lit "Fri Aug 29 2025 14:55") []
              = Some (TimeValue 1756479300000)) by (vm_compute; reflexivity).
  rewrite P, I1, E1, I2, E2 in E. cbn [option_map] in E. unfold still in E.
  destruct (relativePhrase utc (TimeValue 1756479300000) now) as [|a ph];
    cbn in E; [discriminate E|].
  inversion E. congruence.
Qed.

(** C5, as the code has it.  Wherever in a text a date is followed by
    one digit more in the year position, the plain scan reports the
    occurrence that starts at the date and ends after its fourth year
    digit, and leaves the stray digit: the year sub-pattern is four
    digits exactly, and nothing is required after it.  The digits of
    the day of the month, for their part, must be followed by white
    space: where a weekday name, a month name and a run of three
    digits or more follow one another, the pattern does not match at
    that weekday name and the scan reports no occurrence that starts
    there. *)
Theorem year_of_longer_digit_run_is_matched
    (format before wd ws1 mn ws2 dd ws3 yyyy : jsstring) (c : char)
    (rest : jsstring) :
  In wd dayNames -> spaces ws1 -> In mn monthNames -> spaces ws2 ->
  digits 1 2 dd -> spaces ws3 -> digits 4 4 yyyy -> is_digit c = true ->
  let date := (wd ++ ws1 ++ mn ++ ws2 ++ dd ++ ws3 ++ yyyy)%list in
  (exists m,
     In m (exec_all (createDateRegex format) (before ++ date ++ c :: rest)%list)
     /\ index m = length before /\ matched m = date
     /\ endIndex m = (length before + length date)%nat)
  /\ (exists m,
        exec (createDateRegex format) (date ++ c :: rest)%list 0 = Some m
        /\ index m = 0%nat /\ matched m = date
        /\ endIndex m = length date)
  /\ forall ddd, forallb is_digit ddd = true -> (3 <= length ddd)%nat ->
       match_here (createDateRegex format)
         (wd ++ ws1 ++ mn ++ ws2 ++ ddd ++ rest)%list = None
       /\ forall m,
            In m (exec_all (createDateRegex format)
                    (before ++ wd ++ ws1 ++ mn ++ ws2 ++ ddd ++ rest)%list) ->
            index m <> length before.
Proof.
  intros Hwd H1 Hmn H2 Hdd H3 Hy Hc date. split; [|split].
  - destruct (OccurrenceFacts.date_is_an_occurrence before
                wd ws1 mn ws2 dd ws3 yyyy (c :: rest))
      as (m & Im & Hi & Hm); auto.
    { now apply digit_not_space. }
    exists m. fold date in Im, Hm. unfold createDateRegex.
    split; [exact Im|]. split; [exact Hi|]. split; [exact Hm|].
    unfold endIndex. now rewrite Hi, Hm.
  - destruct (match_here_date wd ws1 mn ws2 dd ws3 yyyy (c :: rest))
      as [caps M]; auto.
    { now apply digit_not_space. }
    exists (mkMatch 0 date caps).
    assert (E : (wd ++ ws1 ++ mn ++ ws2 ++ dd ++ ws3 ++ yyyy ++ c :: rest
                 = date ++ c :: rest)%list).
    { subst date. now rewrite <- !app_assoc. }
    rewrite E in M.
    split; [|cbn; auto].
    rewrite exec_from_0. unfold createDateRegex.
    rewrite (search_here _ _ _ _ _ M). now rewrite consumed_app.
  - intros ddd D L.
    assert (N : match_here (createDateRegex format)
                  (wd ++ ws1 ++ mn ++ ws2 ++ ddd ++ rest)%list = None)
      by now apply match_here_long_day.
    split; [exact N|]. intros m Im Hi.
    apply OccurrenceFacts.In_exec_all_here in Im.
    rewrite Hi, skipn_length_app in Im. congruence.
Qed.

(** The text of the specification's example, after a word. *)
Lemma year_of_longer_digit_run_is_matched_witness :
  (exists m,
     In m (exec_all (createDateRegex []) (lit "see Fri Aug 29 20255, noon"))
     /\ index m = 4%nat /\ matched m = lit "Fri Aug 29 2025"
     /\ endIndex m = 19%nat)
  /\ (exists m,
        exec (createDateRegex []) (lit "Fri Aug 29 20255, noon") 0 = Some m
        /\ index m = 0%nat /\ matched m = lit "Fri Aug 29 2025"
        /\ endIndex m = 15%nat)
  /\ forall ddd, forallb is_digit ddd = true -> (3 <= length ddd)%nat ->
       match_here (createDateRegex [])
         (lit "Fri" ++ lit " " ++ lit "Aug" ++ lit " " ++ ddd ++ lit ", noon")%list
       = None
       /\ forall m,
            In m (exec_all (createDateRegex [])
                    (lit "see " ++ lit "Fri" ++ lit " " ++ lit "Aug" ++ lit " "
                     ++ ddd ++ lit ", noon")%list) ->
            index m <> 4%nat.
Proof.
  apply (year_of_longer_digit_run_is_matched [] (lit "see ")
           (lit "Fri") (lit " ") (lit "Aug") (lit " ") (lit "29") (lit " ")
           (lit "2025") 53%N (lit ", noon"));
    try (vm_compute; tauto); try (split; vm_compute; [reflexivity|lia]).
Defined.

(** C5 as stated fails on the specification's own example: the
    occurrence that ends after the fourth digit is reported. *)
Lemma five_digit_year_is_matched :
  map (fun m => (index m, matched m, endIndex m))
      (exec_all (createDateRegex []) (lit "Fri Aug 29 20255"))
  = [(0%nat, lit "Fri Aug 29 2025", 15%nat)].
Proof. vm_compute. reflexivity. Qed.

(** C6.  When the day tier applies (no time component, or a day or more
    away), [diffDays] 0, 1 and -1 give "Today", "Tomorrow" and
    "Yesterday"; 2 to 7 give "In N days" (7 gives "In 7 days"), -7 to -2
    give "N days ago"; 8 to 14 give "Next week" (so does 8), -14 to -8
    give "Last week". *)
Theorem day_tier_buckets (LocalTZA : Z -> bool -> Z) (parsed now : Z) :
  hasTimeComponent LocalTZA parsed && Qltb (Qabs (diffHours parsed now)) 24
    = false ->
  let d := diffDays LocalTZA parsed now in
  let phrase := relativePhrase LocalTZA (TimeValue parsed) now in
  (d = 0 -> phrase = "Today")
  /\ (d = 1 -> phrase = "Tomorrow")
  /\ (d = -1 -> phrase = "Yesterday")
  /\ (1 < d <= 7 -> phrase = "In " ++ Number_toString d ++ " days")
  /\ (d = 7 -> phrase = "In 7 days")
  /\ (-7 <= d < -1 -> phrase = Number_toString (Z.abs d) ++ " days ago")
  /\ (7 < d <= 14 -> phrase = "Next week")
  /\ (d = 8 -> phrase = "Next week")
  /\ (-14 <= d < -7 -> phrase = "Last week").
Proof.
  intros Htier d phrase. subst phrase. unfold relativePhrase. cbv zeta.
  rewrite Htier. fold d. clear Htier.
  repeat split; intros Hd; chain; try reflexivity.
  all: rewrite Hd in *; try reflexivity; try lia.
Qed.

(** A date without a time, the day before the reference time. *)
Lemma day_tier_buckets_witness :
  let parsed := time_of_fields utc 2025 7 28 0 0 in
  let now := fri_aug_29_2025_14_50 0 in
  hasTimeComponent utc parsed && Qltb (Qabs (diffHours parsed now)) 24 = false
  /\ diffDays utc parsed now = -1
  /\ relativePhrase utc (TimeValue parsed) now = "Yesterday".
Proof.
  cbv zeta. split; [vm_compute; reflexivity|]. split; [vm_compute; reflexivity|].
  apply (day_tier_buckets utc (time_of_fields utc 2025 7 28 0 0)
           (fri_aug_29_2025_14_50 0)); vm_compute; reflexivity.
Defined.

(** C7.  In the day tier, [diffDays] in (30, 365] gives the count
    N = ceil(diffDays / 30), "Next month" when N is 1 and "In N months"
    otherwise, and [-365, -30) gives "Last month" or "N months ago" with
    N = ceil(|diffDays| / 30); beyond 365 days the count is
    ceil(|diffDays| / 365) with "Next year" / "In N years" and "Last
    year" / "N years ago".  N is the ceiling for the flat divisors 30
    and 365: the least N with |diffDays| <= 30 N, resp. 365 N. *)
Theorem month_year_buckets (LocalTZA : Z -> bool -> Z) (parsed now : Z) :
  hasTimeComponent LocalTZA parsed && Qltb (Qabs (diffHours parsed now)) 24
    = false ->
  let d := diffDays LocalTZA parsed now in
  let phrase := relativePhrase LocalTZA (TimeValue parsed) now in
  (30 < d <= 365 ->
     exists N, 30 * (N - 1) < d <= 30 * N
       /\ phrase = if N =? 1 then "Next month"
                   else "In " ++ Number_toString N ++ " months")
  /\ (-365 <= d < -30 ->
     exists N, 30 * (N - 1) < - d <= 30 * N
       /\ phrase = if N =? 1 then "Last month"
                   else Number_toString N ++ " months ago")
  /\ (365 < d ->
     exists N, 365 * (N - 1) < d <= 365 * N
       /\ phrase = if N =? 1 then "Next year"
                   else "In " ++ Number_toString N ++ " years")
  /\ (d < -365 ->
     exists N, 365 * (N - 1) < - d <= 365 * N
       /\ phrase = if N =? 1 then "Last year"
                   else Number_toString N ++ " years ago").
Proof.
  intros Htier d phrase. subst phrase. unfold relativePhrase. cbv zeta.
  rewrite Htier. fold d. clear Htier.
  repeat split; intros Hd.
  - exists (Math_ceil (inject_Z d / 30)).
    pose proof (Math_ceil_div_spec d 30) as C. cbv zeta in C.
    split; [lia|]. clear C.
    chain; reflexivity.
  - exists (Math_ceil (inject_Z (Z.abs d) / 30)).
    pose proof (Math_ceil_div_spec (Z.abs d) 30) as C. cbv zeta in C.
    split; [lia|]. clear C.
    chain; reflexivity.
  - exists (Math_ceil (inject_Z d / 365)).
    pose proof (Math_ceil_div_spec d 365) as C. cbv zeta in C.
    split; [lia|]. clear C.
    chain; reflexivity.
  - exists (Math_ceil (inject_Z (Z.abs d) / 365)).
    pose proof (Math_ceil_div_spec (Z.abs d) 365) as C. cbv zeta in C.
    split; [lia|]. clear C.
    chain; reflexivity.
Qed.

(** A date 64 days ahead falls in the third 30-day bucket. *)
Lemma month_year_buckets_witness :
  let parsed := time_of_fields utc 2025 10 1 0 0 in
  let now := fri_aug_29_2025_14_50 0 in
  hasTimeComponent utc parsed && Qltb (Qabs (diffHours parsed now)) 24 = false
  /\ diffDays utc parsed now = 64
  /\ exists N, 30 * (N - 1) < 64 <= 30 * N
       /\ relativePhrase utc (TimeValue parsed) now
          = if N =? 1 then "Next month"
            else "In " ++ Number_toString N ++ " months".
Proof.
  cbv zeta. split; [vm_compute; reflexivity|]. split; [vm_compute; reflexivity|].
  change 64 with (diffDays utc (time_of_fields utc 2025 10 1 0 0)
                    (fri_aug_29_2025_14_50 0)) at 1 2.
  apply (month_year_buckets utc (time_of_fields utc 2025 10 1 0 0)
           (fri_aug_29_2025_14_50 0)); vm_compute;
    first [reflexivity | split; [reflexivity|discriminate]].
Defined.

(** C8, as the code has it.  The parser searches its input for the
    pattern: it answers [null] exactly when the input holds no date of
    the grammar anywhere.  The twelve month names are part of the pattern, so the look-up of the
    month never fails after a match.  On every input it answers, with
    [null] or with a valid date, never with a failure; and it does not
    check the day against the month: "Fri Feb 30 2025" is read as
    Sun Mar 2 2025, by the overflow of the date arithmetic. *)
Theorem parser_null_iff_no_date :
  (forall LocalTZA s format,
      parseDateString LocalTZA s format = None <-> ~ conforms s)
  /\ (forall LocalTZA s format,
      parseDateString LocalTZA s format = None
      \/ exists t, parseDateString LocalTZA s format = Some (TimeValue t))
  /\ (forall s m,
      string_match datePattern s = Some m ->
      exists monthName monthIndex,
        groups m 2%nat = Some monthName
        /\ indexOf monthNames monthName = Some monthIndex
        /\ 0 <= monthIndex <= 11)
  /\ (forall LocalTZA format,
      parseDateString LocalTZA (lit "Fri Abc 30 2025") format = None)
  /\ (forall LocalTZA format,
      parseDateString LocalTZA (lit "Fri Feb 30 2025") format
      = Some (TimeValue (time_of_fields LocalTZA 2025 2 2 0 0))
      /\ parseDateString LocalTZA (lit "Fri Feb 30 2025") format
         = parseDateString LocalTZA (lit "Sun Mar 2 2025") format)
  /\ (forall offset format,
      let tz := fixed_zone offset in
      exists parsed,
        parseDateString tz (lit "Fri Feb 30 2025") format
        = Some (TimeValue parsed)
        /\ parsed = 1740873600000 - offset
        /\ getFullYear tz parsed = 2025 /\ getMonth tz parsed = 2
        /\ getDate tz parsed = 2 /\ getHours tz parsed = 0
        /\ getMinutes tz parsed = 0).
Proof.
  split; [|split; [|split; [|split; [|split]]]].
  - intros tz s format. split.
    + intros H C. apply conforms_string_match in C.
      destruct (string_match datePattern s) as [m|] eqn:E; [|congruence].
      destruct (parse_of_match tz s format m E) as (y & mo & d & h & mi & P & _).
      congruence.
    + intros H. unfold parseDateString.
      destruct (string_match datePattern s) as [m|] eqn:E; [|reflexivity].
      elim H. eapply string_match_conforms; exact E.
  - intros tz s format.
    destruct (string_match datePattern s) as [m|] eqn:E.
    + right.
      destruct (parse_of_match tz s format m E) as (y & mo & d & h & mi & P & _).
      eauto.
    + left. unfold parseDateString. now rewrite E.
  - intros s m E.
    destruct (search_some _ _ _ _ E) as (b & a & _ & _ & S & _).
    destruct (sem_datePattern _ _ S)
      as (wd & ws1 & mn & ws2 & dd & ws3 & yyyy & time & _ & _ & _ & Hmn & _
          & _ & _ & _ & C2 & _).
    destruct (indexOf_monthNames _ Hmn) as (i & Hi & Bi).
    exists mn, i. auto.
  - intros tz format. vm_compute. reflexivity.
  - intros tz format. split; cbv -[UTC]; reflexivity.
  - intros offset format tz. exists (1740873600000 - offset).
    split.
    + subst tz. rewrite parseDateString_shift.
      replace (parseDateString utc (lit "Fri Feb 30 2025") format)
        with (Some (TimeValue 1740873600000)) by (vm_compute; reflexivity).
      reflexivity.
    + split; [reflexivity|].
      unfold getFullYear, getMonth, getDate, getHours, getMinutes. subst tz.
      rewrite LocalTime_shift. vm_compute. repeat split.
Qed.

(** C8 as stated fails: an input that is no date of the grammar, or
    whose first month abbreviation is none of the twelve, is parsed all
    the same when a date stands in it further on. *)
Lemma input_off_the_grammar_is_parsed :
  let found := Some (TimeValue (time_of_fields utc 2025 7 29 0 0)) in
  ~ date_shape (lit "xFri Aug 29 2025")
  /\ parseDateString utc (lit "xFri Aug 29 2025") [] = found
  /\ ~ date_shape (lit "Fri Abc 30 2025 Fri Aug 29 2025")
  /\ parseDateString utc (lit "Fri Abc 30 2025 Fri Aug 29 2025") [] = found.
Proof.
  cbv zeta.
  assert (off : forall s, match_here datePattern s = None -> ~ date_shape s).
  { intros s N H. apply lang_datePattern in H.
    apply (match_here_none _ _ N s []); [now rewrite app_nil_r|exact H]. }
  split; [apply off; vm_compute; reflexivity|].
  split; [vm_compute; reflexivity|].
  split; [apply off; vm_compute; reflexivity|].
  vm_compute; reflexivity.
Qed.

(** C9.  The decorations that a scan emits never overlap: any two of
    them keep apart (the widget of an occurrence sits at the start of
    its mark); they are ordered by ascending start offset; and a plain
    occurrence whose span intersects that of a bracketed occurrence, in
    whatever way, is given no overlay. *)
Theorem decorations_never_overlap
    (LocalTZA : Z -> bool -> Z) (clock : nat -> Z)
    (format text : jsstring) (selection_from n : nat) :
  let decorations :=
    fst (buildDecorations LocalTZA clock format text selection_from n) in
  ForallOrdPairs apart decorations
  /\ StronglySorted (fun a b => (range_from a <= range_from b)%nat) decorations
  /\ forall p b phrase,
       In p (exec_all (createDateRegex format) text) ->
       In b (exec_all (createBracketedDateRegex format) text) ->
       intersects (index p) (endIndex p) (index b) (endIndex b) ->
       ~ In (widget (matched p) phrase false (index p)) decorations.
Proof.
  cbv zeta. rewrite buildDecorations_reads. cbn [fst]. split; [|split].
  - eapply apart_perm; [apply sort_by_from_perm|].
    apply overlays_from_apart, formatted_occurrences_apart.
  - apply sort_by_from_sorted.
  - intros p b phrase Ip Ib X H.
    apply (Permutation_in _ (Permutation_sym (sort_by_from_perm _))) in H.
    destruct (In_overlays_from _ _ _ _ _ _ _ H) as (o & now & Io & Hd).
    destruct (occurrence_overlay_cases LocalTZA format selection_from o now)
      as [E|[ph E]]; cbv zeta in E; rewrite E in Hd; [contradiction|].
    destruct Hd as [Hd|[Hd|[]]]; [|discriminate Hd].
    injection Hd as Em _ El Ei.
    unfold formatted_occurrences in Io. cbv zeta in Io.
    apply in_app_or in Io as [Io|Io]; apply in_map_iff in Io as (m & <- & Im).
    + discriminate El.
    + cbn [snd] in Em, Ei.
      apply filter_In in Im as [_ K]. apply negb_true_iff in K.
      assert (Ee : endIndex m = endIndex p)
        by (unfold endIndex; now rewrite Em, Ei).
      rewrite Ei, Ee in K.
      rewrite (overlaps_of_intersects _ _ _ (index b) (endIndex b)) in K;
        [discriminate K| |exact X].
      apply in_map_iff. now exists b.
Qed.

(** The date inside ["[[Fri Aug 29 2025]]"] is also a plain match, at
    offset 2, within the bracketed one: it gets no overlay of its own. *)
Lemma decorations_never_overlap_witness :
  let text := lit "[[Fri Aug 29 2025]] or Sat Aug 30 2025" in
  let now := fri_aug_29_2025_14_50 0 in
  let shadowed := nth 0 (exec_all (createDateRegex []) text)
                        (mkMatch 0 [] no_captures) in
  let bracketed := nth 0 (exec_all (createBracketedDateRegex []) text)
                         (mkMatch 0 [] no_captures) in
  (index shadowed, endIndex shadowed, index bracketed, endIndex bracketed)
  = (2, 17, 0, 19)%nat
  /\ ~ In (widget (matched shadowed) "Today" false (index shadowed))
          (fst (buildDecorations utc (still now) [] text 100 0%nat)).
Proof.
  cbv zeta. split; [vm_compute; reflexivity|].
  apply (proj2 (proj2 (decorations_never_overlap utc
           (still (fri_aug_29_2025_14_50 0)) []
           (lit "[[Fri Aug 29 2025]] or Sat Aug 30 2025") 100 0%nat))
         _
         (nth 0 (exec_all (createBracketedDateRegex [])
                   (lit "[[Fri Aug 29 2025]] or Sat Aug 30 2025"))
                (mkMatch 0 [] no_captures))).
  - vm_compute. left. reflexivity.
  - vm_compute. left. reflexivity.
  - vm_compute. split; repeat constructor.
Defined.

(** C10.  The formatter never answers "Next month", "Last month",
    "Next year" or "Last year": beyond 30 days the count of months is at
    least 2, and beyond 365 days so is the count of years, so that the
    month and year buckets always read "In N months", "N months ago",
    "In N years" or "N years ago" with N >= 2. *)
Theorem singular_month_year_unreachable
    (LocalTZA : Z -> bool -> Z) (parsedDate : Date) (now : Z) :
  let phrase := relativePhrase LocalTZA parsedDate now in
  (phrase <> "Next month" /\ phrase <> "Last month"
   /\ phrase <> "Next year" /\ phrase <> "Last year")
  /\ forall parsed, parsedDate = TimeValue parsed ->
     hasTimeComponent LocalTZA parsed && Qltb (Qabs (diffHours parsed now)) 24
       = false ->
     let d := diffDays LocalTZA parsed now in
     (30 < d <= 365 ->
        exists N, 2 <= N /\ phrase = "In " ++ Number_toString N ++ " months")
     /\ (-365 <= d < -30 ->
        exists N, 2 <= N /\ phrase = Number_toString N ++ " months ago")
     /\ (365 < d ->
        exists N, 2 <= N /\ phrase = "In " ++ Number_toString N ++ " years")
     /\ (d < -365 ->
        exists N, 2 <= N /\ phrase = Number_toString N ++ " years ago").
Proof.
  cbv zeta. split.
  - destruct parsedDate as [parsed|]; [|repeat split; discriminate].
    unfold relativePhrase. cbv zeta.
    set (d := diffDays LocalTZA parsed now).
    pose proof (months_at_least_2 d) as M1.
    pose proof (months_at_least_2 (Z.abs d)) as M2.
    pose proof (years_at_least_2 d) as Y1.
    pose proof (years_at_least_2 (Z.abs d)) as Y2.
    destruct (hasTimeComponent LocalTZA parsed
              && Qltb (Qabs (diffHours parsed now)) 24).
    + repeat match goal with
      | |- context [if ?b then _ else _] => destruct b
      end; repeat split; differs.
    + chain; repeat split; differs.
  - intros parsed -> Htier.
    unfold relativePhrase. cbv zeta. rewrite Htier. clear Htier.
    set (d := diffDays LocalTZA parsed now).
    pose proof (months_at_least_2 d) as M1.
    pose proof (months_at_least_2 (Z.abs d)) as M2.
    pose proof (years_at_least_2 d) as Y1.
    pose proof (years_at_least_2 (Z.abs d)) as Y2.
    repeat split; intros Hd.
    + exists (Math_ceil (inject_Z d / 30)). split; [lia|]. chain; reflexivity.
    + exists (Math_ceil (inject_Z (Z.abs d) / 30)). split; [lia|].
      chain; reflexivity.
    + exists (Math_ceil (inject_Z d / 365)). split; [lia|]. chain; reflexivity.
    + exists (Math_ceil (inject_Z (Z.abs d) / 365)). split; [lia|].
      chain; reflexivity.
Qed.

(** 64 days ahead: "In 3 months". *)
Lemma singular_month_year_unreachable_witness :
  let parsed := time_of_fields utc 2025 10 1 0 0 in
  let now := fri_aug_29_2025_14_50 0 in
  exists N, 2 <= N
    /\ relativePhrase utc (TimeValue parsed) now
       = "In " ++ Number_toString N ++ " months".
Proof.
  cbv zeta.
  apply (proj2 (singular_month_year_unreachable utc
           (TimeValue (time_of_fields utc 2025 10 1 0 0))
           (fri_aug_29_2025_14_50 0))
         (time_of_fields utc 2025 10 1 0 0) eq_refl);
    vm_compute; first [reflexivity | split; [reflexivity|discriminate]].
Defined.

End Properties.


(* ================================================================= *)
(** * A text that is one date *)

Module SingleDateFacts.
Import RegexFacts PatternFacts ParserFacts ParserRunFacts ScanFacts.

Lemma forallb_avoids (p : char -> bool) (x : char) u :
  p x = false -> forallb p u = true -> Forall (fun c => c <> x) u.
Proof.
  intros Hx H. apply Forall_forall. intros c I ->.
  rewrite forallb_forall in H. specialize (H x I). congruence.
Qed.

(** No bracket in a date. *)
Lemma date_shape_no_bracket u (x : char) :
  x = 91%N \/ x = 93%N -> date_shape u -> Forall (fun c => c <> x) u.
Proof.
  intros Hx (wd & ws1 & mn & ws2 & dd & ws3 & yyyy & time & -> & Hwd & (S1 & _)
             & Hmn & (S2 & _) & (D1 & _) & (S3 & _) & (D2 & _) & T).
  assert (Sx : is_space x = false) by (destruct Hx as [->| ->]; reflexivity).
  assert (Dx : is_digit x = false) by (destruct Hx as [->| ->]; reflexivity).
  assert (W : Forall (fun c => c <> x) wd).
  { simpl in Hwd.
    repeat (destruct Hwd as [<-|Hwd];
            [repeat constructor; destruct Hx as [->| ->]; discriminate|]).
    contradiction. }
  assert (Mn : Forall (fun c => c <> x) mn).
  { simpl in Hmn.
    repeat (destruct Hmn as [<-|Hmn];
            [repeat constructor; destruct Hx as [->| ->]; discriminate|]).
    contradiction. }
  repeat (apply Forall_app; split);
    eauto using forallb_avoids.
  destruct T as [->|(ws4 & hh & mm & -> & (S4 & _) & (D3 & _) & (D4 & _))];
    [constructor|].
  repeat (apply Forall_app; split); eauto using forallb_avoids.
  repeat constructor. destruct Hx as [->| ->]; discriminate.
Qed.

Lemma app_inv_at (x : char) : forall a b r r',
  Forall (fun c => c <> x) a -> Forall (fun c => c <> x) b ->
  a ++ x :: r = b ++ x :: r' -> a = b /\ r = r'.
Proof.
  induction a as [|c a IH]; intros [|d b] r r' Ha Hb E; cbn in E.
  - inversion E. auto.
  - inversion E; subst. inversion Hb; subst. congruence.
  - inversion E; subst. inversion Ha; subst. congruence.
  - inversion E; subst. inversion Ha; subst. inversion Hb; subst.
    destruct (IH b r r') as [-> ->]; auto.
Qed.

(** The date pattern reads a date to its end. *)
Lemma date_alone_match u :
  date_shape u -> exists c, match_here datePattern u = Some ([], c).
Proof.
  intros (wd & ws1 & mn & ws2 & dd & ws3 & yyyy & time & -> & Hwd & H1
          & Hmn & H2 & Hdd & H3 & Hy & T).
  destruct T as [->|(ws4 & hh & mm & -> & H4 & Hhh & Hmm)].
  - destruct (match_here_date_groups wd ws1 mn ws2 dd ws3 yyyy [])
      as (c & M & _); auto.
    + exists [], []. repeat split.
    + eauto.
  - destruct (match_here_date_time_groups wd ws1 mn ws2 dd ws3 yyyy
                ws4 hh mm []) as (c & M & _); auto.
    rewrite app_nil_r in M. eauto.
Qed.

(** The loop over a text that the pattern reads to its end. *)
Lemma exec_all_single r u c :
  match_here r u = Some ([], c) -> u <> [] -> match_here r [] = None ->
  exec_all r u = [mkMatch 0 u c].
Proof.
  intros M N E. unfold exec_all. cbn [exec_loop]. rewrite exec_from_0.
  rewrite (search_here _ _ 0%nat _ _ M).
  replace (consumed u []) with u
    by (rewrite <- (app_nil_r u) at 2; now rewrite consumed_app).
  f_equal. unfold endIndex. cbn [index matched Nat.add].
  destruct u as [|x u]; [congruence|]. cbn [length exec_loop].
  unfold exec. rewrite Nat.ltb_irrefl.
  change (S (length u)) with (length (x :: u)). rewrite skipn_all.
  cbn [search]. now rewrite E.
Qed.

Lemma no_open_bracket_no_match format : forall s i,
  Forall (fun c => c <> 91%N) s ->
  search (createBracketedDateRegex format) s i = None.
Proof.
  induction s as [|c s IH]; intros i H; cbn [search].
  - reflexivity.
  - inversion H as [|? ? Hc Hs]; subst.
    replace (match_here (createBracketedDateRegex format) (c :: s)) with
      (@None MatchState); [now apply IH|].
    unfold match_here. cbn [createBracketedDateRegex matcher].
    cbn [lit list_ascii_of_string map strip_prefix].
    change (N_of_ascii "[") with 91%N.
    destruct (N.eqb_spec 91 c); [congruence|reflexivity].
Qed.

(** The bracketed pattern reads a date in double brackets to its end,
    the date being its first group. *)
Lemma bracketed_alone_match format u :
  date_shape u ->
  exists c,
    match_here (createBracketedDateRegex format) (lit "[[" ++ u ++ lit "]]")
    = Some ([], c)
    /\ c 1%nat = Some u.
Proof.
  intros Hu.
  destruct (match_here (createBracketedDateRegex format)
              (lit "[[" ++ u ++ lit "]]")) as [[s' c]|] eqn:M.
  - destruct (match_here_some _ _ _ _ M) as (v & E & S).
    destruct (sem_bracketed _ _ _ S) as (d & -> & Hd & C).
    rewrite <- !app_assoc in E. apply app_inv_head in E.
    change (lit "]]") with [93%N; 93%N] in E. cbn [app] in E.
    apply (app_inv_at 93%N) in E as [-> E];
      [|apply date_shape_no_bracket; auto..].
    inversion E as [E']. symmetry in E'.
    destruct s'; [|discriminate].
    exists c. auto.
  - exfalso.
    apply (match_here_none _ _ M (lit "[[" ++ u ++ lit "]]") []);
      [now rewrite app_nil_r|].
    cbn [createBracketedDateRegex lang].
    exists (lit "[["), (u ++ lit "]]"). split; [reflexivity|].
    split; [reflexivity|].
    exists u, (lit "]]"). split; [reflexivity|]. split; [|reflexivity].
    apply lang_shift_groups. now apply lang_datePattern.
Qed.

Lemma filter_none {A} (keep : A -> bool) l :
  (forall a, In a l -> keep a = false) -> filter keep l = [].
Proof.
  induction l as [|a l IH]; intros H; [reflexivity|]. cbn [filter].
  rewrite (H a) by now left. apply IH. intros b I. apply H. now right.
Qed.

(** The occurrences of a text that is one date, plain or bracketed. *)
Lemma occurrences_of_date format u :
  date_shape u ->
  exists c, formatted_occurrences format u = [(false, u, mkMatch 0 u c)].
Proof.
  intros Hu. destruct (date_alone_match u Hu) as (c & M).
  exists c. unfold formatted_occurrences. cbv zeta.
  assert (B : exec_all (createBracketedDateRegex format) u = []).
  { unfold exec_all. cbn [exec_loop]. rewrite exec_from_0.
    rewrite no_open_bracket_no_match; [reflexivity|].
    apply date_shape_no_bracket; auto. }
  rewrite B. unfold createDateRegex.
  rewrite (exec_all_single datePattern u c M);
    [reflexivity|now apply date_shape_nonempty|reflexivity].
Qed.

Lemma occurrences_of_bracketed_date format u :
  date_shape u ->
  exists c,
    formatted_occurrences format (lit "[[" ++ u ++ lit "]]")
    = [(true, u, mkMatch 0 (lit "[[" ++ u ++ lit "]]") c)].
Proof.
  intros Hu. destruct (bracketed_alone_match format u Hu) as (c & M & C).
  exists c. unfold formatted_occurrences. cbv zeta.
  rewrite (exec_all_single _ _ c M); [|discriminate|reflexivity].
  cbn [map groups index endIndex matched]. rewrite C.
  rewrite filter_none; [reflexivity|].
  intros p I. apply negb_false_iff.
  destruct (In_exec_all _ _ _ I) as (B & _ & S).
  apply sem_lang, plain_match_nonempty in S.
  unfold overlaps. cbn [existsb fst snd]. unfold endIndex in *.
  cbn [index matched Nat.add].
  replace (index p <? length (lit "[[" ++ u ++ lit "]]"))%nat with true.
  - reflexivity.
  - symmetry. apply Nat.ltb_lt. destruct (matched p); [congruence|].
    clear S. change (length (c0 :: j)) with (S (length j)) in B. lia.
Qed.

End SingleDateFacts.

(* ================================================================= *)
(** * Further properties of the code *)

Section FurtherProperties.

Import RegexFacts PatternFacts ParserFacts ParserRunFacts NumberFacts DateFacts
  PhraseFacts FormatterFacts ScanFacts SingleDateFacts.
Local Open Scope string_scope.
Local Open Scope Z_scope.

(** X1.  A date with a time component that lies less than five minutes
    away, before or after now, reads "Now"; from five minutes up to
    less than an hour it reads "N mins ago" or "In N mins", N being the
    distance rounded to the nearest minute (a half rounds up), between
    5 and 60: the singular forms of the source are never taken. *)
Theorem minute_tier (LocalTZA : Z -> bool -> Z) (parsed now : Z) :
  hasTimeComponent LocalTZA parsed = true ->
  let ms := Z.abs (parsed - now) in
  let phrase := relativePhrase LocalTZA (TimeValue parsed) now in
  (ms < 300000 -> phrase = "Now")
  /\ (300000 <= ms < 3600000 ->
      exists N, 5 <= N <= 60
        /\ 60000 * N <= ms + 30000 < 60000 * (N + 1)
        /\ phrase = if parsed <? now
                    then Number_toString N ++ " mins ago"
                    else "In " ++ Number_toString N ++ " mins").
Proof.
  intros Ht ms phrase. subst phrase. unfold relativePhrase. cbv zeta.
  destruct (tier_tests_in_ms parsed now) as (T1 & T2 & T3 & T4 & T5 & T6 & T7).
  rewrite Ht, T1, T2, T3, T4, T6. fold ms. cbn [andb]. split; intros H.
  - replace (ms <? 24 * 3600000) with true by (symmetry; apply Z.ltb_lt; lia).
    replace (ms <? 5 * 60000) with true by (symmetry; apply Z.ltb_lt; lia).
    reflexivity.
  - replace (ms <? 24 * 3600000) with true by (symmetry; apply Z.ltb_lt; lia).
    replace (ms <? 5 * 60000) with false by (symmetry; apply Z.ltb_ge; lia).
    replace (ms <? 60 * 60000) with true by (symmetry; apply Z.ltb_lt; lia).
    set (N := (2 * ms + 60000) / 120000).
    assert (B : 60000 * N <= ms + 30000 < 60000 * (N + 1)) by (subst N; zdiv).
    exists N. split; [lia|]. split; [exact B|].
    replace (N =? 1) with false by (symmetry; apply Z.eqb_neq; lia).
    replace (parsed - now <? 0) with (parsed <? now); [reflexivity|].
    destruct (Z.ltb_spec parsed now), (Z.ltb_spec (parsed - now) 0);
      try reflexivity; lia.
Qed.

(** A date 59 min 40 s ahead reads "In 60 mins". *)
Lemma minute_tier_witness :
  let parsed := time_of_fields utc 2025 7 29 15 50 in
  let now := fri_aug_29_2025_14_50 0 + 20000 in
  exists N, 5 <= N <= 60
    /\ 60000 * N <= Z.abs (parsed - now) + 30000 < 60000 * (N + 1)
    /\ relativePhrase utc (TimeValue parsed) now
       = if parsed <? now
         then Number_toString N ++ " mins ago"
         else "In " ++ Number_toString N ++ " mins".
Proof.
  cbv zeta.
  apply (proj2 (minute_tier utc (time_of_fields utc 2025 7 29 15 50)
                  (fri_aug_29_2025_14_50 0 + 20000) eq_refl)).
  vm_compute. split; [discriminate|reflexivity].
Defined.

(** X2.  A date with a time component from one hour up to less than 24
    hours away reads a count of hours, the distance rounded to the
    nearest hour (a half rounds up), between 1 and 24: "1 hour ago" or
    "In 1 hour" below an hour and a half, "N hours ago" or "In N hours"
    from there on, up to "24 hours" from 23 hours and a half. *)
Theorem hour_tier (LocalTZA : Z -> bool -> Z) (parsed now : Z) :
  hasTimeComponent LocalTZA parsed = true ->
  let ms := Z.abs (parsed - now) in
  3600000 <= ms < 86400000 ->
  exists N, 1 <= N <= 24
    /\ 3600000 * N <= ms + 1800000 < 3600000 * (N + 1)
    /\ relativePhrase LocalTZA (TimeValue parsed) now
       = if parsed <? now
         then (if N =? 1 then "1 hour ago"
               else Number_toString N ++ " hours ago")
         else (if N =? 1 then "In 1 hour"
               else "In " ++ Number_toString N ++ " hours").
Proof.
  intros Ht ms H. unfold relativePhrase. cbv zeta.
  destruct (tier_tests_in_ms parsed now) as (T1 & T2 & T3 & T4 & T5 & T6 & T7).
  rewrite Ht, T1, T2, T3, T5, T7. fold ms. cbn [andb].
  replace (ms <? 24 * 3600000) with true by (symmetry; apply Z.ltb_lt; lia).
  replace (ms <? 5 * 60000) with false by (symmetry; apply Z.ltb_ge; lia).
  replace (ms <? 60 * 60000) with false by (symmetry; apply Z.ltb_ge; lia).
  set (N := (2 * ms + 3600000) / 7200000).
  assert (B : 3600000 * N <= ms + 1800000 < 3600000 * (N + 1))
    by (subst N; zdiv).
  exists N. split; [lia|]. split; [exact B|].
  replace (parsed - now <? 0) with (parsed <? now); [reflexivity|].
  destruct (Z.ltb_spec parsed now), (Z.ltb_spec (parsed - now) 0);
    try reflexivity; lia.
Qed.

(** A date 23 h 45 min ahead reads "In 24 hours". *)
Lemma hour_tier_witness :
  let parsed := time_of_fields utc 2025 7 30 14 35 in
  let now := fri_aug_29_2025_14_50 0 in
  exists N, 1 <= N <= 24
    /\ 3600000 * N <= Z.abs (parsed - now) + 1800000 < 3600000 * (N + 1)
    /\ relativePhrase utc (TimeValue parsed) now
       = if parsed <? now
         then (if N =? 1 then "1 hour ago"
               else Number_toString N ++ " hours ago")
         else (if N =? 1 then "In 1 hour"
               else "In " ++ Number_toString N ++ " hours").
Proof.
  cbv zeta.
  apply (hour_tier utc (time_of_fields utc 2025 7 30 14 35)
           (fri_aug_29_2025_14_50 0) eq_refl).
  vm_compute. split; [discriminate|reflexivity].
Defined.

(** X3.  In the day tier, [diffDays] from 15 to 30 reads "In N weeks"
    and from -30 to -15 "N weeks ago", N being the number of days
    divided by 7 and rounded up: 3, 4 or 5, never 2. *)
Theorem week_buckets (LocalTZA : Z -> bool -> Z) (parsed now : Z) :
  hasTimeComponent LocalTZA parsed && Qltb (Qabs (diffHours parsed now)) 24
    = false ->
  let d := diffDays LocalTZA parsed now in
  let phrase := relativePhrase LocalTZA (TimeValue parsed) now in
  (14 < d <= 30 ->
     exists N, 3 <= N <= 5 /\ 7 * (N - 1) < d <= 7 * N
       /\ phrase = "In " ++ Number_toString N ++ " weeks")
  /\ (-30 <= d < -14 ->
     exists N, 3 <= N <= 5 /\ 7 * (N - 1) < - d <= 7 * N
       /\ phrase = Number_toString N ++ " weeks ago").
Proof.
  intros Htier d phrase. subst phrase. unfold relativePhrase. cbv zeta.
  rewrite Htier. fold d. clear Htier. split; intros Hd.
  - exists (Math_ceil (inject_Z d / 7)).
    pose proof (Math_ceil_div_spec d 7) as C. cbv zeta in C.
    split; [lia|]. split; [lia|]. clear C. chain; reflexivity.
  - exists (Math_ceil (inject_Z (Z.abs d) / 7)).
    pose proof (Math_ceil_div_spec (Z.abs d) 7) as C. cbv zeta in C.
    split; [lia|]. split; [lia|]. clear C. chain; reflexivity.
Qed.

(** A date 15 days ahead reads "In 3 weeks". *)
Lemma week_buckets_witness :
  let parsed := time_of_fields utc 2025 8 13 0 0 in
  let now := fri_aug_29_2025_14_50 0 in
  diffDays utc parsed now = 15
  /\ exists N, 3 <= N <= 5 /\ 7 * (N - 1) < 15 <= 7 * N
       /\ relativePhrase utc (TimeValue parsed) now
          = "In " ++ Number_toString N ++ " weeks".
Proof.
  cbv zeta. split; [vm_compute; reflexivity|].
  change 15 with (diffDays utc (time_of_fields utc 2025 8 13 0 0)
                    (fri_aug_29_2025_14_50 0)) at 1 2.
  apply (week_buckets utc (time_of_fields utc 2025 8 13 0 0)
           (fri_aug_29_2025_14_50 0)); vm_compute;
    first [reflexivity | split; [reflexivity|discriminate]].
Defined.

(** X4.  No input is answered "1 min ago" or "In 1 min": the minute
    count is taken only from five minutes on. *)
Theorem one_minute_unreachable
    (LocalTZA : Z -> bool -> Z) (parsedDate : Date) (now : Z) :
  relativePhrase LocalTZA parsedDate now <> "1 min ago"
  /\ relativePhrase LocalTZA parsedDate now <> "In 1 min".
Proof.
  destruct parsedDate as [parsed|]; [|split; discriminate].
  unfold relativePhrase. cbv zeta.
  destruct (tier_tests_in_ms parsed now) as (T1 & T2 & T3 & T4 & T5 & T6 & T7).
  rewrite T1, T2, T3, T4, T5, T6, T7.
  set (ms := Z.abs (parsed - now)).
  destruct (hasTimeComponent LocalTZA parsed); cbn [andb].
  - repeat match goal with
    | |- context [if ?b then _ else _] =>
        let E := fresh "E" in destruct b eqn:E; tests; try (exfalso; zdiv)
    end;
    (split; first [ discriminate | cbn [append]; discriminate
                  | ending_differs " min ago" | ending_differs " min" ]).
  - repeat match goal with
    | |- context [if ?b then _ else _] => destruct b
    end;
    (split; first [ discriminate | cbn [append]; discriminate
                  | ending_differs " min ago" | ending_differs " min" ]).
Qed.

(** X5.  In a zone at a constant offset from UTC the day phrases go by
    the calendar: a date reads "Today" exactly when it has no time
    component and falls on the local day of now; "Tomorrow" and
    "Yesterday" exactly when it falls on the next or the previous
    local day and has no time component or is 24 hours or more away. *)
Theorem calendar_day_phrases (offset parsed now : Z) :
  let tz := fixed_zone offset in
  ~ (0 <= getFullYear tz parsed <= 99) ->
  ~ (0 <= getFullYear tz now <= 99) ->
  let days := Day (parsed + offset) - Day (now + offset) in
  let phrase := relativePhrase tz (TimeValue parsed) now in
  (phrase = "Today" <-> hasTimeComponent tz parsed = false /\ days = 0)
  /\ (phrase = "Tomorrow"
      <-> days = 1 /\ (hasTimeComponent tz parsed = false
                       \/ 86400000 <= parsed - now))
  /\ (phrase = "Yesterday"
      <-> days = -1 /\ (hasTimeComponent tz parsed = false
                        \/ 86400000 <= now - parsed)).
Proof.
  intros tz Yp Yn days phrase.
  assert (D : diffDays tz parsed now = days) by now apply diffDays_fixed.
  assert (B : (days - 1) * 86400000 < parsed - now < (days + 1) * 86400000).
  { subst days. unfold Day, msPerDay. zdiv. }
  pose proof (minute_hour_tier_iff tz parsed now) as K. fold phrase in K.
  destruct (tier_tests_in_ms parsed now) as (T1 & _).
  rewrite T1 in K.
  assert (C : hasTimeComponent tz parsed
              && Qltb (Qabs (diffHours parsed now)) 24 = false ->
              (phrase = "Today" <-> days = 0)
              /\ (phrase = "Tomorrow" <-> days = 1)
              /\ (phrase = "Yesterday" <-> days = -1)).
  { intros E. subst phrase. unfold relativePhrase. cbv zeta.
    rewrite E, D. clear E K T1.
    destruct (Z.eqb_spec days 0) as [->|N0];
      [repeat split; intros; try reflexivity; try discriminate; lia|].
    destruct (Z.eqb_spec days 1) as [->|N1];
      [repeat split; intros; try reflexivity; try discriminate; lia|].
    destruct (Z.eqb_spec days (-1)) as [->|N2];
      [repeat split; intros; try reflexivity; try discriminate; lia|].
    repeat split; intros X; try lia; exfalso; revert X; clear;
      repeat match goal with
      | |- context [if ?b then _ else _] => destruct b
      end; differs. }
  rewrite T1 in C.
  destruct (hasTimeComponent tz parsed) eqn:Ht; cbn [andb] in K, C.
  - destruct (Z.ltb_spec (Z.abs (parsed - now)) (24 * 3600000)) as [Near|Far].
    + split; [|split];
        (split; [intros E; rewrite E in K; vm_compute in K; discriminate K|]).
      * intros [X _]. discriminate X.
      * intros [? [X|X]]; [discriminate X|lia].
      * intros [? [X|X]]; [discriminate X|lia].
    + destruct (C eq_refl) as (C0 & C1 & C2). rewrite C0, C1, C2.
      split; [|split]; (split; [intros ->|]).
      * lia.
      * intros [X _]. discriminate X.
      * split; [reflexivity|lia].
      * tauto.
      * split; [reflexivity|lia].
      * tauto.
  - destruct (C eq_refl) as (C0 & C1 & C2). rewrite C0, C1, C2. tauto.
Qed.

(** Sat Aug 30 2025 seen on Fri Aug 29 2025 at 14:50. *)
Lemma calendar_day_phrases_witness :
  let parsed := time_of_fields utc 2025 7 30 0 0 in
  let now := fri_aug_29_2025_14_50 0 in
  relativePhrase utc (TimeValue parsed) now = "Tomorrow"
  <-> Day (parsed + 0) - Day (now + 0) = 1
      /\ (hasTimeComponent utc parsed = false \/ 86400000 <= parsed - now).
Proof.
  cbv zeta.
  refine (proj1 (proj2 (calendar_day_phrases 0
            (time_of_fields utc 2025 7 30 0 0) (fri_aug_29_2025_14_50 0)
            _ _)));
    vm_compute; intros [_ H]; now apply H.
Defined.

(** X6.  In a zone at a constant offset from UTC the phrase never
    points the wrong way: a date that is not after now gets no phrase
    of the future ("In ...", "Tomorrow", "Next ..."), a date that is
    not before now no phrase of the past ("... ago", "Yesterday",
    "Last ..."). *)
Theorem phrase_points_the_right_way (offset parsed now : Z) :
  let tz := fixed_zone offset in
  ~ (0 <= getFullYear tz parsed <= 99) ->
  ~ (0 <= getFullYear tz now <= 99) ->
  let phrase := relativePhrase tz (TimeValue parsed) now in
  (parsed <= now -> is_future_phrase phrase = false)
  /\ (now <= parsed -> is_past_phrase phrase = false).
Proof.
  intros tz Yp Yn phrase.
  assert (D : diffDays tz parsed now
              = Day (parsed + offset) - Day (now + offset))
    by now apply diffDays_fixed.
  assert (B : (diffDays tz parsed now - 1) * 86400000 < parsed - now
              < (diffDays tz parsed now + 1) * 86400000).
  { rewrite D. unfold Day, msPerDay. zdiv. }
  clear D. subst phrase. unfold relativePhrase. cbv zeta.
  destruct (tier_tests_in_ms parsed now) as (T1 & T2 & T3 & T4 & T5 & T6 & T7).
  rewrite T1, T2, T3, T4, T5, T6, T7. clear T1 T2 T3 T4 T5 T6 T7.
  generalize dependent (diffDays tz parsed now). intros days B.
  split; intros Hdir;
    destruct (hasTimeComponent tz parsed); cbn [andb];
    repeat match goal with
    | |- context [if ?b then _ else _] =>
        let E := fresh "E" in destruct b eqn:E; tests; try (exfalso; lia)
    end;
    first [ reflexivity
          | apply count_is_not_future
          | apply in_is_not_past; reflexivity ].
Qed.

(** A date three hours back. *)
Lemma phrase_points_the_right_way_witness :
  let now := fri_aug_29_2025_14_50 0 in
  is_future_phrase
    (relativePhrase utc (TimeValue (time_of_fields utc 2025 7 29 11 50)) now)
  = false.
Proof.
  cbv zeta.
  refine (proj1 (phrase_points_the_right_way 0
            (time_of_fields utc 2025 7 29 11 50) (fri_aug_29_2025_14_50 0)
            _ _) _);
    vm_compute; first [discriminate | intros [_ H]; now apply H].
Defined.

(** ** The parser *)

(** X7.  Of an input that starts with a date the parser reads the
    numbers written: the year from the four digits, the month as the
    position of its name in the list, the day from the one or two
    digits; hour and minute from the time when one is written, and
    0:00 when what follows the year starts no time. *)
Theorem parser_reads_written_fields (LocalTZA : Z -> bool -> Z)
    (format wd ws1 mn ws2 dd ws3 yyyy rest : jsstring) :
  In wd dayNames -> spaces ws1 -> In mn monthNames -> spaces ws2 ->
  digits 1 2 dd -> spaces ws3 -> digits 4 4 yyyy ->
  let date := (wd ++ ws1 ++ mn ++ ws2 ++ dd ++ ws3 ++ yyyy)%list in
  let read hours minutes :=
    Some (TimeValue (time_of_fields LocalTZA (digits_value 0 yyyy)
                       (monthIndexOf mn) (digits_value 0 dd) hours minutes)) in
  (plain_tail rest ->
   parseDateString LocalTZA (date ++ rest)%list format = read 0 0)
  /\ (forall ws4 hh mm,
        spaces ws4 -> digits 1 2 hh -> digits 2 2 mm ->
        parseDateString LocalTZA
          (date ++ ws4 ++ hh ++ lit ":" ++ mm ++ rest)%list format
        = read (digits_value 0 hh) (digits_value 0 mm)).
Proof.
  intros Hwd H1 Hmn H2 Hdd H3 Hy date read. subst date read. cbv beta.
  split.
  - intros Hrest. rewrite <- !app_assoc. now apply parse_date_only.
  - intros ws4 hh mm H4 Hhh Hmm. rewrite <- !app_assoc.
    now apply parse_date_time.
Qed.

(** "Fri Aug 29 2025, noon" and "Fri Aug 29 2025 14:50, noon". *)
Lemma parser_reads_written_fields_witness :
  parseDateString utc (lit "Fri Aug 29 2025, noon") []
  = Some (TimeValue (time_of_fields utc 2025 7 29 0 0))
  /\ parseDateString utc (lit "Fri Aug 29 2025 14:50, noon") []
     = Some (TimeValue (time_of_fields utc 2025 7 29 14 50)).
Proof.
  assert (shape :
    In (lit "Fri") dayNames /\ spaces (lit " ") /\ In (lit "Aug") monthNames
    /\ digits 1 2 (lit "29") /\ digits 4 4 (lit "2025")
    /\ digits 1 2 (lit "14") /\ digits 2 2 (lit "50")
    /\ plain_tail (lit ", noon")).
  { repeat split; try (vm_compute; tauto); try (vm_compute; lia).
    exists [], (lit ", noon"). vm_compute. repeat split. }
  destruct shape as (Hwd & Hs & Hmn & Hdd & Hy & Hhh & Hmm & Hrest).
  destruct (parser_reads_written_fields utc [] (lit "Fri") (lit " ")
              (lit "Aug") (lit " ") (lit "29") (lit " ") (lit "2025")
              (lit ", noon") Hwd Hs Hmn Hs Hdd Hs Hy) as [A B].
  split; [exact (A Hrest)|exact (B (lit " ") (lit "14") (lit "50") Hs Hhh Hmm)].
Defined.

(** X8.  The weekday name is matched and not read: with any of the
    seven names in its place an input is parsed to the same result,
    whether it holds a date or not. *)
Theorem weekday_is_not_checked (LocalTZA : Z -> bool -> Z)
    (format wd wd' tail : jsstring) :
  In wd dayNames -> In wd' dayNames ->
  parseDateString LocalTZA (wd ++ tail)%list format
  = parseDateString LocalTZA (wd' ++ tail)%list format.
Proof. apply parse_weekday. Qed.

(** Aug 29 2025 was a Friday; written as a Monday it is the same date. *)
Lemma weekday_is_not_checked_witness :
  parseDateString utc (lit "Mon Aug 29 2025 14:50") []
  = parseDateString utc (lit "Fri Aug 29 2025 14:50") [].
Proof.
  apply (weekday_is_not_checked utc [] (lit "Mon") (lit "Fri")
           (lit " Aug 29 2025 14:50")); vm_compute; tauto.
Defined.

(** X9.  A year written 00ab is read as 19ab, with or without a time
    after it. *)
Theorem year_below_100_is_read_as_19xx (LocalTZA : Z -> bool -> Z)
    (format wd ws1 mn ws2 dd ws3 : jsstring) (a b : char) (rest : jsstring) :
  In wd dayNames -> spaces ws1 -> In mn monthNames -> spaces ws2 ->
  digits 1 2 dd -> spaces ws3 -> is_digit a = true -> is_digit b = true ->
  plain_tail rest
  \/ (exists ws4 hh mm rest',
        rest = (ws4 ++ hh ++ lit ":" ++ mm ++ rest')%list
        /\ spaces ws4 /\ digits 1 2 hh /\ digits 2 2 mm) ->
  parseDateString LocalTZA
    (wd ++ ws1 ++ mn ++ ws2 ++ dd ++ ws3 ++ lit "00" ++ [a; b] ++ rest)%list
    format
  = parseDateString LocalTZA
      (wd ++ ws1 ++ mn ++ ws2 ++ dd ++ ws3 ++ lit "19" ++ [a; b] ++ rest)%list
      format.
Proof.
  intros Hwd H1 Hmn H2 Hdd H3 Ha Hb Hrest.
  assert (Y0 : digits 4 4 (lit "00" ++ [a; b])%list).
  { split; [|simpl; lia]. cbn. now rewrite Ha, Hb. }
  assert (Y1 : digits 4 4 (lit "19" ++ [a; b])%list).
  { split; [|simpl; lia]. cbn. now rewrite Ha, Hb. }
  assert (V : 0 <= digits_value 0 (lit "00" ++ [a; b])%list <= 99
              /\ digits_value 0 (lit "19" ++ [a; b])%list
                 = 1900 + digits_value 0 (lit "00" ++ [a; b])%list).
  { cbn -[Z.mul Z.add Z.sub Z.of_N]. rewrite Ha, Hb. unfold is_digit in Ha, Hb.
    apply andb_prop in Ha as [A1 A2]. apply andb_prop in Hb as [B1 B2].
    apply N.leb_le in A1, A2, B1, B2. lia. }
  destruct V as [V0 V1].
  assert (T : forall h mi,
    time_of_fields LocalTZA (digits_value 0 (lit "00" ++ [a; b])%list)
      (monthIndexOf mn) (digits_value 0 dd) h mi
    = time_of_fields LocalTZA (digits_value 0 (lit "19" ++ [a; b])%list)
        (monthIndexOf mn) (digits_value 0 dd) h mi).
  { intros h mi. rewrite V1. unfold time_of_fields.
    replace (0 <=? digits_value 0 (lit "00" ++ [a; b])%list) with true
      by (symmetry; apply Z.leb_le; lia).
    replace (digits_value 0 (lit "00" ++ [a; b])%list <=? 99) with true
      by (symmetry; apply Z.leb_le; lia).
    replace (1900 + digits_value 0 (lit "00" ++ [a; b])%list <=? 99) with false
      by (symmetry; apply Z.leb_gt; lia).
    now rewrite andb_false_r. }
  change (lit "00" ++ [a; b] ++ rest)%list
    with ((lit "00" ++ [a; b]) ++ rest)%list.
  change (lit "19" ++ [a; b] ++ rest)%list
    with ((lit "19" ++ [a; b]) ++ rest)%list.
  destruct Hrest as [Hrest|(ws4 & hh & mm & rest' & -> & H4 & Hhh & Hmm)].
  - rewrite !parse_date_only by assumption. now rewrite T.
  - rewrite !parse_date_time by assumption. now rewrite T.
Qed.

(** "Tue Jan 5 0026 9:30" is read as "Tue Jan 5 1926 9:30". *)
Lemma year_below_100_is_read_as_19xx_witness :
  parseDateString utc (lit "Tue Jan 5 0026 9:30") []
  = parseDateString utc (lit "Tue Jan 5 1926 9:30") [].
Proof.
  apply (year_below_100_is_read_as_19xx utc [] (lit "Tue") (lit " ")
           (lit "Jan") (lit " ") (lit "5") (lit " ") 50%N 54%N
           (lit " 9:30"));
    try (vm_compute; tauto); try (split; vm_compute; [reflexivity|lia]).
  right. exists (lit " "), (lit "9"), (lit "30"), [].
  repeat split; vm_compute; lia.
Defined.

(** X10.  In a zone at a constant offset from UTC, a date of the
    calendar written with a time is parsed to the instant whose local
    month, day, hour and minute are the numbers written and whose
    local year is the year written, or 1900 more for a year written
    0000 to 0099; it has a time component unless the time written is
    0:00, and its midnight is what the same date without a time is
    parsed to. *)
Theorem written_fields_are_read_back (offset : Z)
    (format wd ws1 mn ws2 dd ws3 yyyy ws4 hh mm rest : jsstring) :
  In wd dayNames -> spaces ws1 -> In mn monthNames -> spaces ws2 ->
  digits 1 2 dd -> spaces ws3 -> digits 4 4 yyyy ->
  spaces ws4 -> digits 1 2 hh -> digits 2 2 mm ->
  let tz := fixed_zone offset in
  let year := digits_value 0 yyyy in
  let month := monthIndexOf mn in
  let day := digits_value 0 dd in
  let hour := digits_value 0 hh in
  let minute := digits_value 0 mm in
  let date := (wd ++ ws1 ++ mn ++ ws2 ++ dd ++ ws3 ++ yyyy)%list in
  calendar_fields year month day hour minute ->
  exists parsed,
    parseDateString tz (date ++ ws4 ++ hh ++ lit ":" ++ mm ++ rest)%list format
    = Some (TimeValue parsed)
    /\ getFullYear tz parsed
       = (if (0 <=? year) && (year <=? 99) then 1900 + year else year)
    /\ getMonth tz parsed = month
    /\ getDate tz parsed = day /\ getHours tz parsed = hour
    /\ getMinutes tz parsed = minute
    /\ hasTimeComponent tz parsed = negb (hour =? 0) || negb (minute =? 0)
    /\ parseDateString tz date format = Some (TimeValue (midnight tz parsed)).
Proof.
  intros Hwd H1 Hmn H2 Hdd H3 Hy H4 Hhh Hmm tz year month day hour minute date
    (Hmonth & Hday & Hhour & Hminute).
  eexists. subst date. rewrite <- !app_assoc.
  split; [now apply parse_date_time|].
  fold year month day hour minute. fold (full_year year).
  destruct (fields_of_local_time (full_year year) month day hour minute
              Hmonth Hday Hhour Hminute) as (F1 & F2 & F3 & F4 & F5).
  cbv zeta in F1, F2, F3, F4, F5.
  assert (L : LocalTime tz (time_of_fields tz year month day hour minute)
              = MakeDate (MakeDay (full_year year) month day)
                  (MakeTime hour minute 0 0)).
  { unfold time_of_fields, full_year.
    subst tz. rewrite UTC_fixed, LocalTime_fixed. lia. }
  assert (T : time_of_fields tz (full_year year) month day 0 0
              = time_of_fields tz year month day 0 0).
  { unfold time_of_fields, full_year.
    destruct ((0 <=? year) && (year <=? 99)) eqn:E.
    - apply andb_prop in E as [E1 E2]. apply Z.leb_le in E1.
      replace ((0 <=? 1900 + year) && (1900 + year <=? 99)) with false;
        [reflexivity|].
      symmetry. apply andb_false_iff. right. apply Z.leb_gt. lia.
    - now rewrite E. }
  unfold getFullYear, getMonth, getDate, getHours, getMinutes,
    hasTimeComponent, midnight.
  unfold getFullYear, getMonth, getDate, getHours, getMinutes.
  rewrite L, F1, F2, F3, F4, F5. repeat split. rewrite T.
  rewrite <- (app_nil_r yyyy) at 1. apply parse_date_only; auto.
  now apply plain_tail_of_non_space.
Qed.

(** "Tue Jan 5 0026 9:30", five hours and a half ahead of UTC: the
    year is read back as 1926. *)
Lemma written_fields_are_read_back_witness :
  let tz := fixed_zone 19800000 in
  exists parsed,
    parseDateString tz (lit "Tue Jan 5 0026 9:30") [] = Some (TimeValue parsed)
    /\ getFullYear tz parsed = 1926 /\ getMonth tz parsed = 0
    /\ getDate tz parsed = 5 /\ getHours tz parsed = 9
    /\ getMinutes tz parsed = 30
    /\ hasTimeComponent tz parsed = true
    /\ parseDateString tz (lit "Tue Jan 5 0026") []
       = Some (TimeValue (midnight tz parsed)).
Proof.
  apply (written_fields_are_read_back 19800000 [] (lit "Tue") (lit " ")
           (lit "Jan") (lit " ") (lit "5") (lit " ") (lit "0026")
           (lit " ") (lit "9") (lit "30") []);
    try (vm_compute; tauto); try (split; vm_compute; [reflexivity|lia]).
  vm_compute. repeat split; try discriminate; try lia.
Defined.

(** ** The scan *)

(** X11.  Every widget of a scan shows a date of the text: its
    original text is the stretch of the text at its position, a date
    or a date in double brackets as its kind says; the mark over that
    stretch is among the decorations as well; the cursor is not on
    the stretch or at its ends; and the phrase is the one of the
    parsed date at one of the clock readings of the scan. *)
Theorem widgets_show_dates_of_the_text
    (LocalTZA : Z -> bool -> Z) (clock : nat -> Z)
    (format text : jsstring) (selection_from n : nat)
    (originalText : jsstring) (phrase : string) (isLink : bool) (pos : nat) :
  let scan := buildDecorations LocalTZA clock format text selection_from n in
  In (widget originalText phrase isLink pos) (fst scan) ->
  let to := (pos + length originalText)%nat in
  (to <= length text)%nat
  /\ originalText = firstn (length originalText) (skipn pos text)
  /\ In (mark pos to) (fst scan)
  /\ ~ (pos <= selection_from <= to)%nat
  /\ exists dateString date k,
       originalText = (if isLink then lit "[[" ++ dateString ++ lit "]]"
                       else dateString)%list
       /\ date_shape dateString
       /\ parseDateString LocalTZA dateString format = Some date
       /\ (n <= k < snd scan)%nat
       /\ phrase = relativePhrase LocalTZA date (clock k).
Proof.
  intros scan H to. subst scan to.
  rewrite buildDecorations_shown in H.
  apply in_flat_map in H as (s & Hs & H).
  apply (Permutation_in _ (Permutation_sym (sort_overlays_perm _))) in Hs.
  destruct H as [H|[H|[]]]; [|discriminate H].
  destruct (In_buildDecorations _ _ _ _ _ _ _ Hs) as [_ Hmark].
  revert Hmark. unfold overlay_from, overlay_to.
  inversion H; subst; clear H. intros Hmark.
  destruct (In_shown_from _ _ _ _ _ _ _ Hs) as ([[l d] m] & k & I & B & Hk).
  destruct (In_formatted_occurrences _ _ _ _ _ I) as (Hend & Hslice & Hd & Hm).
  destruct (shown_overlay_of_date LocalTZA format selection_from l d m
              (clock k) Hd) as (date & P & E).
  rewrite E in Hk.
  destruct (Nat.leb_spec (index m) selection_from) as [C1|C1];
    destruct (Nat.leb_spec selection_from (endIndex m)) as [C2|C2];
    cbn [andb] in Hk; try contradiction;
    (destruct Hk as [<-|[]]); cbn [fst snd] in *;
    (split; [exact Hend|]); (split; [exact Hslice|]);
    (split; [exact Hmark|]); (split; [unfold endIndex in *; lia|]);
    exists d, date, k; rewrite buildDecorations_reads; cbn [snd]; auto.
Qed.

(** The overlay of "on [[Fri Aug 29 2025]]" seen that day. *)
Lemma widgets_show_dates_of_the_text_witness :
  let now := fri_aug_29_2025_14_50 0 in
  let text := lit "on [[Fri Aug 29 2025]]" in
  let scan := buildDecorations utc (still now) [] text 0 0%nat in
  In (widget (lit "[[Fri Aug 29 2025]]") "Today" true 3) (fst scan)
  /\ In (mark 3 22) (fst scan).
Proof.
  cbv zeta.
  assert (H : In (widget (lit "[[Fri Aug 29 2025]]") "Today" true 3)
                (fst (buildDecorations utc (still (fri_aug_29_2025_14_50 0))
                        [] (lit "on [[Fri Aug 29 2025]]") 0 0%nat)))
    by (vm_compute; left; reflexivity).
  split; [exact H|].
  exact (proj1 (proj2 (proj2
    (widgets_show_dates_of_the_text utc (still (fri_aug_29_2025_14_50 0))
       [] (lit "on [[Fri Aug 29 2025]]") 0 0%nat
       (lit "[[Fri Aug 29 2025]]") "Today" true 3 H)))).
Defined.

(** X12.  The decorations of a scan are the two decorations of one
    overlay after the other, the widget followed at once by the mark
    that hides its text, the overlays in the order of the text and
    each ending before the next begins. *)
Theorem decorations_come_in_pairs
    (LocalTZA : Z -> bool -> Z) (clock : nat -> Z)
    (format text : jsstring) (selection_from n : nat) :
  exists shown : list Overlay,
    fst (buildDecorations LocalTZA clock format text selection_from n)
    = flat_map overlay_pair shown
    /\ StronglySorted (fun a b => (overlay_to a <= overlay_from b)%nat) shown.
Proof.
  eexists. split; [apply buildDecorations_shown|].
  apply sorted_apart_follow.
  - apply sort_overlays_sorted.
  - eapply keep_apart_perm; [apply sort_overlays_perm|].
    apply shown_from_apart, formatted_occurrences_apart.
  - eapply Permutation_Forall; [apply sort_overlays_perm|].
    apply Forall_forall. intros s Hs.
    destruct (In_shown_from _ _ _ _ _ _ _ Hs) as ([[l d] m] & k & I & _ & Hk).
    destruct (In_formatted_occurrences _ _ _ _ _ I) as (_ & _ & Hd & Hm).
    destruct (shown_overlay_cases LocalTZA format selection_from (l, d, m)
                (clock k)) as [E|[ph E]]; rewrite E in Hk; [contradiction|].
    destruct Hk as [<-|[]]. unfold overlay_from, overlay_to. cbn [fst snd].
    apply date_shape_nonempty in Hd.
    assert (matched m <> []).
    { rewrite Hm. destruct l; [discriminate|exact Hd]. }
    destruct (matched m); [congruence|simpl; lia].
Qed.

(** X13.  Every bracketed occurrence, and every plain occurrence that
    shares no position with a bracketed one, has its widget and its
    mark among the decorations unless the cursor is on it or at one of
    its ends. *)
Theorem occurrences_off_the_cursor_are_overlaid
    (LocalTZA : Z -> bool -> Z) (clock : nat -> Z)
    (format text : jsstring) (selection_from n : nat) (m : Match)
    (isLink : bool) :
  let bracketed := exec_all (createBracketedDateRegex format) text in
  let decorations :=
    fst (buildDecorations LocalTZA clock format text selection_from n) in
  (if isLink then In m bracketed
   else In m (exec_all (createDateRegex format) text)
        /\ forall b, In b bracketed ->
             ~ intersects (index m) (endIndex m) (index b) (endIndex b)) ->
  ~ (index m <= selection_from <= endIndex m)%nat ->
  exists phrase,
    In (widget (matched m) phrase isLink (index m)) decorations
    /\ In (mark (index m) (endIndex m)) decorations.
Proof.
  intros bracketed decorations Hm Hc.
  assert (I : exists d, In (isLink, d, m) (formatted_occurrences format text)).
  { unfold formatted_occurrences. cbv zeta. fold bracketed.
    destruct isLink.
    - eexists. apply in_or_app. left. apply in_map_iff.
      exists m. split; [reflexivity|exact Hm].
    - destruct Hm as [Hm Hb]. eexists. apply in_or_app. right.
      apply in_map_iff. exists m. split; [reflexivity|].
      apply filter_In. split; [exact Hm|]. apply negb_true_iff.
      destruct (In_exec_all _ _ _ Hm) as (_ & _ & S).
      apply sem_lang, plain_match_nonempty in S.
      apply overlaps_false_of_apart.
      + unfold endIndex. destruct (matched m); [congruence|simpl; lia].
      + intros bf bt Ir. apply in_map_iff in Ir as (b & E & Ib).
        inversion E; subst; clear E. split; [|now apply Hb].
        destruct (In_exec_all _ _ _ Ib) as (_ & _ & Sb).
        apply sem_lang, bracketed_match_nonempty in Sb.
        unfold endIndex. destruct (matched b); [congruence|simpl; lia]. }
  destruct I as (d & I).
  destruct (In_formatted_occurrences _ _ _ _ _ I) as (_ & _ & Hd & _).
  destruct (shown_from_complete LocalTZA clock format selection_from
              isLink d m Hd Hc _ n I) as (ph & Hs).
  exists ph. apply (In_buildDecorations _ _ _ _ _ _ _ Hs).
Qed.

(** The second date of "[[Fri Aug 29 2025]] or Sat Aug 30 2025", the
    cursor being at the start of the text. *)
Lemma occurrences_off_the_cursor_are_overlaid_witness :
  let now := fri_aug_29_2025_14_50 0 in
  let text := lit "[[Fri Aug 29 2025]] or Sat Aug 30 2025" in
  let decorations := fst (buildDecorations utc (still now) [] text 0 0%nat) in
  exists phrase,
    In (widget (lit "Sat Aug 30 2025") phrase false 23) decorations
    /\ In (mark 23 38) decorations.
Proof.
  cbv zeta.
  apply (occurrences_off_the_cursor_are_overlaid utc
           (still (fri_aug_29_2025_14_50 0)) []
           (lit "[[Fri Aug 29 2025]] or Sat Aug 30 2025") 0 0%nat
           (nth 1 (exec_all (createDateRegex [])
                     (lit "[[Fri Aug 29 2025]] or Sat Aug 30 2025"))
                  (mkMatch 0 [] no_captures)) false).
  - split.
    + vm_compute. right. left. reflexivity.
    + intros b Hb. vm_compute in Hb. destruct Hb as [<-|[]].
      vm_compute. lia.
  - vm_compute. lia.
Defined.

(** X14.  A text that holds no date gets no decoration and the clock
    is not read; over a text that holds one the clock is read. *)
Theorem clock_is_read_iff_text_has_a_date
    (LocalTZA : Z -> bool -> Z) (clock : nat -> Z)
    (format text : jsstring) (selection_from n : nat) :
  let scan := buildDecorations LocalTZA clock format text selection_from n in
  (~ conforms text -> scan = ([], n))
  /\ (conforms text -> (n < snd scan)%nat).
Proof.
  intros scan. subst scan. rewrite buildDecorations_reads. split.
  - intros N. destruct (no_date_no_match format text N) as [E1 E2].
    unfold formatted_occurrences. rewrite E1, E2. cbn.
    now rewrite Nat.add_0_r.
  - intros C. apply (date_is_found format) in C. cbn [snd].
    enough (formatted_occurrences format text <> []) as N
      by (destruct (formatted_occurrences format text); [congruence|simpl; lia]).
    unfold formatted_occurrences. cbv zeta.
    destruct (exec_all (createDateRegex format) text) as [|p ps];
      [congruence|].
    destruct (exec_all (createBracketedDateRegex format) text) as [|b bs];
      cbn; discriminate.
Qed.

(** A text with no date in it. *)
Lemma clock_is_read_iff_text_has_a_date_witness :
  buildDecorations utc (still 0) [] (lit "Friday, the 29th of August") 0 7%nat
  = ([], 7%nat).
Proof.
  apply (clock_is_read_iff_text_has_a_date utc (still 0) []
           (lit "Friday, the 29th of August") 0 7%nat).
  intros C. apply conforms_string_match in C. apply C.
  vm_compute. reflexivity.
Defined.

(** X15.  A text that is one date, plain or in double brackets, is
    scanned with one reading of the clock; unless the cursor is on it
    or at one of its ends it gets one widget with the phrase of the
    parsed date at that reading, and the mark over the whole text. *)
Theorem text_that_is_one_date
    (LocalTZA : Z -> bool -> Z) (clock : nat -> Z)
    (format u : jsstring) (selection_from n : nat) :
  date_shape u ->
  exists date,
    parseDateString LocalTZA u format = Some date
    /\ let phrase := relativePhrase LocalTZA date (clock n) in
       let link := (lit "[[" ++ u ++ lit "]]")%list in
       buildDecorations LocalTZA clock format u selection_from n
       = (if (selection_from <=? length u)%nat then []
          else [widget u phrase false 0; mark 0 (length u)], S n)
       /\ buildDecorations LocalTZA clock format link selection_from n
          = (if (selection_from <=? length link)%nat then []
             else [widget link phrase true 0; mark 0 (length link)], S n).
Proof.
  intros Hu.
  destruct (date_shape_parses LocalTZA format u Hu) as (t & P).
  exists (TimeValue t). split; [exact P|]. cbv zeta.
  destruct (occurrences_of_date format u Hu) as (c & O).
  destruct (occurrences_of_bracketed_date format u Hu) as (c' & O').
  rewrite !buildDecorations_reads, O, O'. cbn [length overlays_from].
  rewrite !app_nil_r, !occurrence_overlay_shown.
  destruct (shown_overlay_of_date LocalTZA format selection_from false u
              (mkMatch 0 u c) (clock n) Hu) as (d & Pd & ->).
  destruct (shown_overlay_of_date LocalTZA format selection_from true u
              (mkMatch 0 (lit "[[" ++ u ++ lit "]]")%list c') (clock n) Hu)
    as (d' & Pd' & ->).
  rewrite P in Pd, Pd'. inversion Pd; subst d. inversion Pd'; subst d'.
  unfold endIndex. cbn [index matched Nat.add Nat.leb andb].
  rewrite !Nat.add_1_r.
  split; destruct (_ <=? _)%nat; reflexivity.
Qed.

(** "Sun Aug 31 2025" seen on Fri Aug 29 2025, the cursor far away. *)
Lemma text_that_is_one_date_witness :
  let now := fri_aug_29_2025_14_50 0 in
  exists date,
    parseDateString utc (lit "Sun Aug 31 2025") [] = Some date
    /\ buildDecorations utc (still now) [] (lit "Sun Aug 31 2025") 100 0%nat
       = (if (100 <=? 15)%nat then []
          else [widget (lit "Sun Aug 31 2025")
                  (relativePhrase utc date now) false 0; mark 0 15], 1%nat)
    /\ buildDecorations utc (still now) [] (lit "[[Sun Aug 31 2025]]") 100 0%nat
       = (if (100 <=? 19)%nat then []
          else [widget (lit "[[Sun Aug 31 2025]]")
                  (relativePhrase utc date now) true 0; mark 0 19], 1%nat).
Proof.
  cbv zeta.
  apply (text_that_is_one_date utc (still (fri_aug_29_2025_14_50 0)) []
           (lit "Sun Aug 31 2025") 100 0%nat).
  exists (lit "Sun"), (lit " "), (lit "Aug"), (lit " "), (lit "31"), (lit " "),
    (lit "2025"), [].
  repeat split; try (vm_compute; tauto); try (vm_compute; lia).
Defined.

(** X16.  The three-way test of the plain loop is the test that two
    spans share a position: for a span that is not empty and recorded
    ranges that are not empty it answers true exactly when the span
    reaches into one of the ranges; a span that only touches a range
    at an end does not overlap it. *)
Theorem overlap_test_is_intersection
    (ranges : list (nat * nat)) (from to : nat) :
  (from < to)%nat ->
  Forall (fun range => (fst range < snd range)%nat) ranges ->
  overlaps ranges from to = true
  <-> exists range,
        In range ranges /\ intersects from to (fst range) (snd range).
Proof.
  intros L N. split.
  - intros H. destruct (existsb_exists
      (fun range =>
         ((fst range <=? from) && (from <? snd range))
         || ((fst range <? to) && (to <=? snd range))
         || ((from <=? fst range) && (snd range <=? to)))%nat ranges)
      as [E _].
    destruct (E H) as (range & I & T). exists range. split; [exact I|].
    rewrite Forall_forall in N. specialize (N range I).
    unfold intersects.
    repeat match type of T with
    | (_ || _)%bool = true => apply orb_prop in T; destruct T as [T|T]
    end;
      apply andb_prop in T as [T1 T2];
      repeat match goal with
      | X : (_ <=? _)%nat = true |- _ => apply Nat.leb_le in X
      | X : (_ <? _)%nat = true |- _ => apply Nat.ltb_lt in X
      end; lia.
  - intros ([bf bt] & I & H). now apply (overlaps_of_intersects _ _ _ bf bt).
Qed.

(** A date inside double brackets overlaps them; a date that starts
    where they end does not. *)
Lemma overlap_test_is_intersection_witness :
  (overlaps [(0, 19)%nat] 2 17 = true
   <-> exists range,
         In range [(0, 19)%nat] /\ intersects 2 17 (fst range) (snd range))
  /\ overlaps [(0, 19)%nat] 19 34 = false.
Proof.
  split; [|reflexivity].
  apply (overlap_test_is_intersection [(0, 19)%nat] 2 17); [lia|].
  repeat constructor.
Defined.

End FurtherProperties.
